(** * parci: the local encrypted parameter store

    A shallow embedding of [parci.internals.storage],
    [parci.internals.utils] (the byte codecs, the search of the tasks
    of a run),
    [parci.internals.parameter_store] (the interceptor),
    [parci.internals.parameter_store.local] and its [encrypt] package,
    [parci.internals.parameter_store.aws] (the prefix),
    [parci.cli.param] (the commands on secrets) and
    [parci.internals.task] (linking tasks), followed by the properties
    of the store, of the table behind it, of the commands and of the
    tasks.

    Conventions.
    - A Python [str] is a Rocq [string] holding its UTF-8 text, so
      [s.encode("utf-8")] is [list_byte_of_string]; Python [bytes] are
      [list byte].
    - Everything the process can observe or change lives in a [World]:
      the SQLite file, the module [parci.config], the terminal, the random
      source, the OS keyring and the attached YubiKeys.  A Python function
      is a state-passing computation [M A]; an exception is the [Err]
      result, and the world reached when it was raised is kept.
    - PyNaCl, [base64], [json] and [unicodedata] are external libraries:
      their entry points are the fields of the class [Primitives], and
      the part of their documented behaviour the store relies on is the
      class [PrimitivesSpec]. *)

From Stdlib Require Import List String Ascii Strings.Byte ZArith Lia Bool Arith.
From Stdlib Require Import Permutation DecimalString.
Import ListNotations.

Set Warnings "-register-all".

Local Open Scope string_scope.
Local Open Scope list_scope.
Local Open Scope Z_scope.

(** ** Python values *)

Definition bytes := list byte.

(** The values [json.dumps] and [json.loads] exchange (floats left out). *)
Inductive json : Type :=
| JNull
| JBool (b : bool)
| JInt (n : Z)
| JStr (s : string)
| JArr (xs : list json)
| JObj (kvs : list (string * json)).

(** The exceptions raised by the code and by the libraries it calls. *)
Inductive exn : Type :=
| KeyError (msg : string)
| ValueError (msg : string)
| TypeError
| IndexError
| EOFError
| JSONDecodeError
| binascii_Error
| CryptoError
| KeyringError
| YubikeyError
| AttributeError
| ClientError
| ParameterStoreException (msg : string)
| SSMParameterStoreException (msg : string).

(** The class of an exception, as [type(e)] or an [except] clause sees it. *)
Inductive exn_class : Type :=
| cKeyError | cValueError | cTypeError | cIndexError | cEOFError
| cJSONDecodeError | cbinascii_Error | cCryptoError | cKeyringError
| cYubikeyError | cAttributeError | cClientError | cParameterStoreException
| cSSMParameterStoreException.

Definition type_of (e : exn) : exn_class :=
  match e with
  | KeyError _ => cKeyError
  | ValueError _ => cValueError
  | TypeError => cTypeError
  | IndexError => cIndexError
  | EOFError => cEOFError
  | JSONDecodeError => cJSONDecodeError
  | binascii_Error => cbinascii_Error
  | CryptoError => cCryptoError
  | KeyringError => cKeyringError
  | YubikeyError => cYubikeyError
  | AttributeError => cAttributeError
  | ClientError => cClientError
  | ParameterStoreException _ => cParameterStoreException
  | SSMParameterStoreException _ => cSSMParameterStoreException
  end.

Inductive result (A : Type) : Type :=
| Ok (a : A)
| Err (e : exn).
Arguments Ok {A} a.
Arguments Err {A} e.

(** ** Well-formed JSON values

    A Python [dict] has no two equal keys; [wf_json] says so of every
    object inside a value. *)

Fixpoint mem_string (k : string) (ks : list string) : bool :=
  match ks with
  | [] => false
  | k' :: ks' => String.eqb k k' || mem_string k ks'
  end.

Fixpoint nodup_strings (ks : list string) : bool :=
  match ks with
  | [] => true
  | k :: ks' => negb (mem_string k ks') && nodup_strings ks'
  end.

Fixpoint wf_json (v : json) : bool :=
  match v with
  | JArr xs => forallb wf_json xs
  | JObj kvs =>
      nodup_strings (map fst kvs)
      && (fix wf_fields (l : list (string * json)) : bool :=
            match l with
            | [] => true
            | (_, x) :: l' => wf_json x && wf_fields l'
            end) kvs
  | _ => true
  end.

(** ** The external libraries *)

Class Primitives : Type := {
  (** libsodium [crypto_secretbox(message, nonce, key)] *)
  crypto_secretbox : bytes -> bytes -> bytes -> bytes;
  (** libsodium [crypto_secretbox_open(ciphertext, nonce, key)];
      [None] is [nacl.exceptions.CryptoError] *)
  crypto_secretbox_open : bytes -> bytes -> bytes -> option bytes;
  (** [nacl.hash.blake2b(data, key=key, encoder=HexEncoder).decode("ascii")];
      [None] when the library rejects the key *)
  blake2b_hex : bytes -> bytes -> option string;
  (** [nacl.pwhash.argon2id.kdf(size, password, salt, opslimit, memlimit)] *)
  argon2id_kdf : Z -> bytes -> bytes -> Z -> Z -> option bytes;
  (** [base64.b64encode(b).decode("ascii")] *)
  b64encode : bytes -> string;
  (** [base64.b64decode(s)]; [None] is [binascii.Error] *)
  b64decode : string -> option bytes;
  (** [json.dumps(v)] *)
  json_dumps : json -> string;
  (** [json.loads(s)]; [None] is [json.JSONDecodeError] *)
  json_loads : string -> option json;
  (** [unicodedata.normalize("NFKC", s)] *)
  NFKC : string -> string;
  (** [str(v)], as an f-string formats a value *)
  py_str : json -> string
}.

(** [nacl.secret.SecretBox.KEY_SIZE], [NONCE_SIZE] and the Argon2id
    constants of libsodium. *)
Definition KEY_SIZE : Z := 32.
Definition NONCE_SIZE : Z := 24.
Definition SALTBYTES : Z := 16.
Definition OPSLIMIT_SENSITIVE : Z := 4.
Definition MEMLIMIT_SENSITIVE : Z := 1073741824.
Definition BLAKE2B_KEYBYTES_MAX : Z := 64.

Definition len {A} (l : list A) : Z := Z.of_nat (List.length l).

(** What the store relies on from those libraries. *)
Class PrimitivesSpec (P : Primitives) : Prop := {
  secretbox_open_seal : forall m n k,
    len k = KEY_SIZE -> len n = NONCE_SIZE ->
    crypto_secretbox_open (crypto_secretbox m n k) n k = Some m;
  blake2b_accepts : forall data k,
    len k <= BLAKE2B_KEYBYTES_MAX -> blake2b_hex data k <> None;
  argon2id_kdf_size : forall size pw salt ops mem k,
    argon2id_kdf size pw salt ops mem = Some k -> len k = size;
  argon2id_kdf_accepts : forall pw salt,
    len salt = SALTBYTES ->
    argon2id_kdf KEY_SIZE pw salt OPSLIMIT_SENSITIVE MEMLIMIT_SENSITIVE <> None;
  b64decode_b64encode : forall b, b64decode (b64encode b) = Some b;
  json_loads_dumps : forall v,
    wf_json v = true -> json_loads (json_dumps v) = Some v
}.

(** ** The world a parci process runs in *)

(** One row of the SQLite table [tkv (table_name, key, value)]. *)
Record row : Type := {
  table_name : string;
  key : string;
  value : string
}.

(** The module [parci.config]. *)
Record Config : Type := {
  PARAMETER_DRIVER : string;
  PARAMETER_DB_PASSWORD : option string;
  PARAMETER_READ_ONLY : bool
}.

(** [os.environ.get(name)] *)
Fixpoint environ_get (environ : list (string * string)) (name : string)
  : option string :=
  match environ with
  | [] => None
  | (n, v) :: rest => if String.eqb n name then Some v else environ_get rest name
  end.

(** [config.py], as the interpreter evaluates it at import time. *)
Definition config_py (environ : list (string * string)) : Config :=
  {| PARAMETER_DRIVER :=
       match environ_get environ "PARCI_PARAMETER_DRIVER" with
       | Some d => d
       | None => "local"
       end;
     PARAMETER_DB_PASSWORD := environ_get environ "PARCI_PARAMETER_DB_PASSWORD";
     PARAMETER_READ_ONLY := true |}.

(** [yubikit.yubiotp.SLOT] *)
Inductive SLOT : Type := ONE | TWO.

Definition SLOT_value (s : SLOT) : Z :=
  match s with ONE => 1 | TWO => 2 end.

(** An attached YubiKey: its serial number and what
    [YubiOtpSession.calculate_hmac_sha1(slot, challenge)] answers
    ([None]: the device refuses or times out). *)
Record YubiKey : Type := {
  serial : option Z;
  calculate_hmac_sha1 : SLOT -> bytes -> option bytes
}.

(** The objects the interceptor holds once a backend is loaded: a
    [SqliteKV] over one [table_name] ([serialize_values] is kept in the
    type, so that the type of the values follows it), the local
    [ParameterStore] and the [SSMParameterStore]. *)
Record SqliteKV_t (serialize_values : bool) : Type := {
  table : string
}.
Arguments table {serialize_values} self : rename.

Record ParameterStore_t : Type := {
  kv : SqliteKV_t false;
  _name_key : bytes;
  _value_key : bytes
}.

Record SSMParameterStore_t : Type := {
  prefix : string
}.

Inductive backend : Type :=
| LocalStore (ps : ParameterStore_t)
| SSMStore (ps : SSMParameterStore_t).

(** What the process does to its surroundings, in order. *)
Inductive event : Type :=
| EvMakedirs
| EvConnect (table : string)
| EvCommit
| EvGetpass (prompt : string)
| EvRandom (n : Z)
| EvKeyringGet (service username : string)
| EvKeyringSet (service username : string)
| EvListDevices
| EvChallenge (slot : SLOT)
| EvSSM.

Record World : Type := {
  environ : list (string * string);
  config : Config;
  (** the database file at [config.PARAMETER_DB] *)
  tkv : list row;
  (** the lines the operator types at the [getpass] prompts to come *)
  tty : list string;
  (** the system random source and how many bytes were drawn from it *)
  urandom : nat -> byte;
  drawn : nat;
  (** the OS keyring: whether a backend answers, and its entries *)
  keyring_usable : bool;
  keyring_items : list (string * string * string);
  devices : list YubiKey;
  (** AWS Systems Manager: the parameters [(Name, Type, Value)] *)
  ssm_parameters : list (string * string * string);
  (** the field [_ps] of the global [params] interceptor *)
  params_ps : option backend;
  trace : list event
}.

Definition set_tkv (w : World) (t : list row) : World :=
  {| environ := environ w; config := config w;
     tkv := t; tty := tty w; urandom := urandom w;
     drawn := drawn w; keyring_usable := keyring_usable w;
     keyring_items := keyring_items w; devices := devices w;
     ssm_parameters := ssm_parameters w; params_ps := params_ps w;
     trace := trace w |}.

Definition set_tty (w : World) (t : list string) : World :=
  {| environ := environ w; config := config w;
     tkv := tkv w; tty := t; urandom := urandom w;
     drawn := drawn w; keyring_usable := keyring_usable w;
     keyring_items := keyring_items w; devices := devices w;
     ssm_parameters := ssm_parameters w; params_ps := params_ps w;
     trace := trace w |}.

Definition set_drawn (w : World) (n : nat) : World :=
  {| environ := environ w; config := config w;
     tkv := tkv w; tty := tty w; urandom := urandom w;
     drawn := n; keyring_usable := keyring_usable w;
     keyring_items := keyring_items w; devices := devices w;
     ssm_parameters := ssm_parameters w; params_ps := params_ps w;
     trace := trace w |}.

Definition set_keyring_items (w : World) (k : list (string * string * string))
  : World :=
  {| environ := environ w; config := config w;
     tkv := tkv w; tty := tty w; urandom := urandom w;
     drawn := drawn w; keyring_usable := keyring_usable w;
     keyring_items := k; devices := devices w;
     ssm_parameters := ssm_parameters w; params_ps := params_ps w;
     trace := trace w |}.

Definition set_trace (w : World) (t : list event) : World :=
  {| environ := environ w; config := config w;
     tkv := tkv w; tty := tty w; urandom := urandom w;
     drawn := drawn w; keyring_usable := keyring_usable w;
     keyring_items := keyring_items w; devices := devices w;
     ssm_parameters := ssm_parameters w; params_ps := params_ps w;
     trace := t |}.

Definition set_config (w : World) (c : Config) : World :=
  {| environ := environ w; config := c;
     tkv := tkv w; tty := tty w; urandom := urandom w;
     drawn := drawn w; keyring_usable := keyring_usable w;
     keyring_items := keyring_items w; devices := devices w;
     ssm_parameters := ssm_parameters w; params_ps := params_ps w;
     trace := trace w |}.

Definition set_ssm_parameters (w : World) (l : list (string * string * string))
  : World :=
  {| environ := environ w; config := config w;
     tkv := tkv w; tty := tty w; urandom := urandom w;
     drawn := drawn w; keyring_usable := keyring_usable w;
     keyring_items := keyring_items w; devices := devices w;
     ssm_parameters := l; params_ps := params_ps w; trace := trace w |}.

Definition set_params_ps (w : World) (b : option backend) : World :=
  {| environ := environ w; config := config w;
     tkv := tkv w; tty := tty w; urandom := urandom w;
     drawn := drawn w; keyring_usable := keyring_usable w;
     keyring_items := keyring_items w; devices := devices w;
     ssm_parameters := ssm_parameters w; params_ps := b; trace := trace w |}.

(** ** Computations: state passing with exceptions *)

Definition M (A : Type) : Type := World -> result A * World.

Definition ret {A} (a : A) : M A := fun w => (Ok a, w).

Definition raise {A} (e : exn) : M A := fun w => (Err e, w).

Definition bind {A B} (m : M A) (f : A -> M B) : M B :=
  fun w =>
    match m w with
    | (Ok a, w') => f a w'
    | (Err e, w') => (Err e, w')
    end.

Declare Scope py_scope.
Delimit Scope py_scope with py.
Notation "x <- m ;; k" := (bind m (fun x => k))
  (at level 61, m at next level, right associativity) : py_scope.
Notation "m ;; k" := (bind m (fun _ => k))
  (at level 61, right associativity) : py_scope.
Notation "' pat <- m ;; k" := (bind m (fun x => match x with pat => k end))
  (at level 61, pat pattern, m at next level, right associativity) : py_scope.
Local Open Scope py_scope.

(** [Some x] is the value, [None] raises [e]. *)
Definition orelse {A} (o : option A) (e : exn) : M A :=
  match o with
  | Some a => ret a
  | None => raise e
  end.

(** The steps by which a computation changes the world. *)
Definition log (ev : event) (w : World) : World :=
  set_trace w (trace w ++ [ev]).

Definition advance (n : Z) (w : World) : World :=
  set_drawn w (drawn w + Z.to_nat n)%nat.

Definition update_tkv (stmt : list row -> list row) (w : World) : World :=
  set_tkv w (stmt (tkv w)).

(** [n] bytes of the random source, from position [start]. *)
Definition random_bytes (source : nat -> byte) (start : nat) (n : Z) : bytes :=
  map source (seq start (Z.to_nat n)).

Definition emit (ev : event) : M unit :=
  fun w => (Ok tt, log ev w).

(** [getpass.getpass(prompt)] *)
Definition getpass (prompt : string) : M string :=
  emit (EvGetpass prompt) ;;
  fun w =>
    match tty w with
    | line :: rest => (Ok line, set_tty w rest)
    | [] => (Err EOFError, w)
    end.

(** [nacl.utils.random(n)] *)
Definition utils_random (n : Z) : M bytes :=
  emit (EvRandom n) ;;
  fun w => (Ok (random_bytes (urandom w) (drawn w) n), advance n w).

(** [ykman.device.list_all_devices()] *)
Definition list_all_devices : M (list YubiKey) :=
  emit EvListDevices ;;
  fun w => (Ok (devices w), w).

(** [keyring.get_password] and [keyring.set_password] *)
Fixpoint keyring_lookup (service username : string)
  (items : list (string * string * string)) : option string :=
  match items with
  | [] => None
  | (s, u, p) :: rest =>
      if String.eqb s service && String.eqb u username then Some p
      else keyring_lookup service username rest
  end.

Definition keyring_replace (service username password : string)
  (items : list (string * string * string)) : list (string * string * string) :=
  (service, username, password)
  :: filter (fun '(s, u, _) =>
               negb (String.eqb s service && String.eqb u username)) items.

Definition keyring_store (service username password : string) (w : World)
  : World :=
  set_keyring_items w
    (keyring_replace service username password (keyring_items w)).

Definition keyring_get_password (service username : string)
  : M (option string) :=
  emit (EvKeyringGet service username) ;;
  fun w =>
    if keyring_usable w
    then (Ok (keyring_lookup service username (keyring_items w)), w)
    else (Err KeyringError, w).

Definition keyring_set_password (service username password : string)
  : M unit :=
  emit (EvKeyringSet service username) ;;
  fun w =>
    if keyring_usable w
    then (Ok tt, keyring_store service username password w)
    else (Err KeyringError, w).

(** ** [parci/internals/utils.py] *)

Section Utils.
Context {P : Primitives}.

Definition encode_bytes (b : bytes) : string := b64encode b.

Definition decode_bytes (s : string) : M bytes :=
orelse (b64decode s) binascii_Error.

End Utils.

(** ** [parci/internals/storage.py] *)

(** The SQL statements of [SqliteKV], as functions of the rows of [tkv]. *)

Definition row_matches (table item : string) (r : row) : bool :=
  String.eqb (table_name r) table && String.eqb (key r) item.

Definition row_in_table (table : string) (r : row) : bool :=
  String.eqb (table_name r) table.

(** [SELECT value FROM tkv WHERE table_name = ? AND key = ?] *)
Definition select_value (table item : string) (rows : list row)
  : list string :=
  map value (filter (row_matches table item) rows).

(** [SELECT key FROM tkv WHERE table_name = ? AND key = ?] *)
Definition select_key (table item : string) (rows : list row)
  : list string :=
  map key (filter (row_matches table item) rows).

(** [SELECT value FROM tkv WHERE table_name = ?] *)
Definition select_values (table : string) (rows : list row) : list string :=
  map value (filter (row_in_table table) rows).

(** [SELECT key FROM tkv WHERE table_name = ?] *)
Definition select_keys (table : string) (rows : list row) : list string :=
  map key (filter (row_in_table table) rows).

(** [SELECT key, value FROM tkv WHERE table_name = ?] *)
Definition select_items (table : string) (rows : list row)
  : list (string * string) :=
  map (fun r => (key r, value r)) (filter (row_in_table table) rows).

(** [INSERT INTO tkv VALUES (?, ?, ?) ON CONFLICT DO UPDATE SET value = ?] *)
Fixpoint insert_or_update (table item v : string) (rows : list row)
  : list row :=
  match rows with
  | [] => [{| table_name := table; key := item; value := v |}]
  | r :: rest =>
      if row_matches table item r
      then {| table_name := table; key := item; value := v |} :: rest
      else r :: insert_or_update table item v rest
  end.

(** [DELETE FROM tkv WHERE table_name = ? AND key = ?] *)
Definition delete_from (table item : string) (rows : list row) : list row :=
  filter (fun r => negb (row_matches table item r)) rows.

Definition db_query {A} (q : list row -> A) : M A :=
  fun w => (Ok (q (tkv w)), w).

Definition db_execute (stmt : list row -> list row) : M unit :=
  fun w => (Ok tt, update_tkv stmt w).

Definition db_commit : M unit := emit EvCommit.

(** What a generator hands out when it is run to its end: the items it
    yields, then the exception that stops it, if one does. *)
Definition generated (A : Type) : Type := (list A * option exn)%type.

Module SqliteKV.
Section WithPrimitives.
Context {P : Primitives}.

Definition t := SqliteKV_t.

Definition serialize_values {b : bool} (self : t b) : bool := b.

(** The type of the values of a store: decoded JSON, or the stored text
    when [serialize_values] is false. *)
Definition value_t (serialize : bool) : Type :=
  if serialize then json else string.

Definition __init__ (table : string) (serialize_values : bool)
  : M (t serialize_values) :=
  emit (EvConnect table) ;;
  db_commit ;;
  ret {| table := table |}.

Definition load (serialize : bool) (v : string) : result (value_t serialize) :=
  match serialize return result (value_t serialize) with
  | true =>
      match json_loads v with
      | Some j => Ok j
      | None => Err JSONDecodeError
      end
  | false => Ok v
  end.

Definition dump (serialize : bool) : value_t serialize -> string :=
  match serialize return value_t serialize -> string with
  | true => fun v => json_dumps v
  | false => fun v => v
  end.

Definition __getitem__ {b : bool} (self : t b) (item : string)
  : M (value_t b) :=
  rows <- db_query (select_value (table self) item) ;;
  match rows with
  | v :: _ =>
      match load (serialize_values self) v with
      | Ok x => ret x
      | Err e => raise e
      end
  | [] => raise (KeyError "Key does not exist")
  end.

Definition __setitem__ {b : bool} (self : t b) (item : string)
  (value : value_t b) : M string :=
  let value := dump (serialize_values self) value in
  db_execute (insert_or_update (table self) item value) ;;
  db_commit ;;
  ret value.

Definition __delitem__ {b : bool} (self : t b) (key : string) : M unit :=
  db_execute (delete_from (table self) key) ;;
  db_commit.

Definition __contains__ {b : bool} (self : t b) (item : string) : M bool :=
  rows <- db_query (select_key (table self) item) ;;
  match rows with
  | _ :: _ => ret true
  | [] => ret false
  end.

Definition get {b : bool} (self : t b) (item : string)
  (default : option (value_t b)) : M (option (value_t b)) :=
  fun w =>
    match __getitem__ self item w with
    | (Ok v, w') => (Ok (Some v), w')
    | (Err (KeyError _), w') => (Ok default, w')
    | (Err e, w') => (Err e, w')
    end.

Definition keys {b : bool} (self : t b) : M (generated string) :=
  ks <- db_query (select_keys (table self)) ;;
  ret (ks, None).

Fixpoint yield_loaded (serialize : bool) (rows : list string)
  : generated (value_t serialize) :=
  match rows with
  | [] => ([], None)
  | v :: rest =>
      match load serialize v with
      | Ok x =>
          let '(xs, stop) := yield_loaded serialize rest in (x :: xs, stop)
      | Err e => ([], Some e)
      end
  end.

Definition values {b : bool} (self : t b) : M (generated (value_t b)) :=
  rows <- db_query (select_values (table self)) ;;
  ret (yield_loaded (serialize_values self) rows).

Fixpoint yield_loaded_items (serialize : bool) (rows : list (string * string))
  : generated (string * value_t serialize) :=
  match rows with
  | [] => ([], None)
  | (k, v) :: rest =>
      match load serialize v with
      | Ok x =>
          let '(xs, stop) := yield_loaded_items serialize rest in
          ((k, x) :: xs, stop)
      | Err e => ([], Some e)
      end
  end.

Definition items {b : bool} (self : t b)
  : M (generated (string * value_t b)) :=
  rows <- db_query (select_items (table self)) ;;
  ret (yield_loaded_items (serialize_values self) rows).

Definition __iter__ {b : bool} (self : t b) : M (generated string) :=
  keys self.

End WithPrimitives.
End SqliteKV.

(** ** Python operations on decoded JSON *)

Fixpoint assoc (k : string) (kvs : list (string * json)) : option json :=
  match kvs with
  | [] => None
  | (k', v) :: rest => if String.eqb k k' then Some v else assoc k rest
  end.

(** [d[k]] for a string [k] *)
Definition subscript (d : json) (k : string) : M json :=
  match d with
  | JObj kvs => orelse (assoc k kvs) (KeyError k)
  | _ => raise TypeError
  end.

(** A value used where the library wants a [str]. *)
Definition as_str (v : json) : M string :=
  match v with
  | JStr s => ret s
  | _ => raise TypeError
  end.

(** A value used where the library wants an [int] ([bool] is one). *)
Definition as_int (v : json) : M Z :=
  match v with
  | JInt n => ret n
  | JBool b => ret (if b then 1 else 0)
  | _ => raise TypeError
  end.

Definition chars (s : string) : list json :=
  map (fun c => JStr (String c EmptyString)) (list_ascii_of_string s).

(** [x[1]] *)
Definition subscript_1 (x : json) : M json :=
  match x with
  | JArr xs => orelse (nth_error xs 1) IndexError
  | JStr s => orelse (nth_error (chars s) 1) IndexError
  | JObj _ => raise (KeyError "1")
  | _ => raise TypeError
  end.

(** [k, v = x] *)
Definition unpack_2 (x : json) : M (json * json) :=
  let two (xs : list json) : M (json * json) :=
    match xs with
    | [k; v] => ret (k, v)
    | _ => raise (ValueError "unpack")
    end in
  match x with
  | JArr xs => two xs
  | JStr s => two (chars s)
  | JObj kvs => two (map (fun kv => JStr (fst kv)) kvs)
  | _ => raise TypeError
  end.

(** [SLOT(n)] *)
Definition SLOT_of (v : json) : M SLOT :=
  match v with
  | JInt 1 => ret ONE
  | JInt 2 => ret TWO
  | _ => raise (ValueError "is not a valid SLOT")
  end.

(** [str(serial)], as an f-string formats it *)
Definition format_serial (serial : option Z) : string :=
  match serial with
  | Some n => NilZero.string_of_int (Z.to_int n)
  | None => "None"
  end.

(** ** [nacl.secret.SecretBox], the wrapper of PyNaCl around libsodium *)

Module SecretBox.
Section WithPrimitives.
Context {P : Primitives}.

Record t : Type := { _key : bytes }.

Definition __init__ (key : bytes) : M t :=
  if len key =? KEY_SIZE
  then ret {| _key := key |}
  else raise (ValueError "The key must be exactly 32 bytes long").

(** The result is the nonce followed by the ciphertext. *)
Definition encrypt (self : t) (plaintext nonce : bytes) : M bytes :=
  if len nonce =? NONCE_SIZE
  then ret (nonce ++ crypto_secretbox plaintext nonce (_key self))
  else raise (ValueError "The nonce must be exactly 24 bytes long").

(** Without a [nonce] argument the nonce is the head of the message. *)
Definition decrypt (self : t) (ciphertext : bytes) : M bytes :=
  let nonce := firstn (Z.to_nat NONCE_SIZE) ciphertext in
  let ciphertext := skipn (Z.to_nat NONCE_SIZE) ciphertext in
  if len nonce =? NONCE_SIZE
  then orelse (crypto_secretbox_open ciphertext nonce (_key self)) CryptoError
  else raise (ValueError "The nonce must be exactly 24 bytes long").

End WithPrimitives.
End SecretBox.

(** ** [parci/internals/parameter_store/local/encrypt/password.py] *)

Section Password.
Context {P : Primitives}.

Definition get_user_decrypt_key (password salt : bytes)
  (keysize opslimit memlimit : Z) : M bytes :=
  orelse (argon2id_kdf keysize password salt opslimit memlimit)
         (ValueError "argon2id.kdf").

(** [d[key]], base64-decoded *)
Definition decoded (d : json) (key : string) : M bytes :=
  v <- subscript d key ;;
  s <- as_str v ;;
  decode_bytes s.

(** [d[key]], passed as an integer argument *)
Definition int_field (d : json) (key : string) : M Z :=
  v <- subscript d key ;;
  as_int v.

Definition get_keys_by_password (password : option string)
  : M (bytes * bytes) :=
  config_db <- SqliteKV.__init__ "config" true ;;
  password_config <- SqliteKV.__getitem__ config_db "password" ;;
  salt <- decoded password_config "salt" ;;
  name_key <- decoded password_config "name_key" ;;
  value_key <- decoded password_config "value_key" ;;
  password <- match password with
              | None => getpass "Password: "
              | Some p => ret p
              end ;;
  keysize <- int_field password_config "keysize" ;;
  opslimit <- int_field password_config "opslimit" ;;
  memlimit <- int_field password_config "memlimit" ;;
  decrypt_key <- get_user_decrypt_key
                   (list_byte_of_string (NFKC password))
                   salt keysize opslimit memlimit ;;
  box <- SecretBox.__init__ decrypt_key ;;
  nk <- SecretBox.decrypt box name_key ;;
  vk <- SecretBox.decrypt box value_key ;;
  ret (nk, vk).

End Password.

(** ** [parci/internals/parameter_store/local/encrypt/yubikey.py] *)

Section Yubikey.
Context {P : Primitives}.

Definition get_yubikey_decrypt_key (device : YubiKey) (slot : SLOT)
  (challenge salt : bytes) (keysize opslimit memlimit : Z) : M bytes :=
  emit (EvChallenge slot) ;;
  response <- orelse (calculate_hmac_sha1 device slot challenge)
                     YubikeyError ;;
  orelse (argon2id_kdf keysize response salt opslimit memlimit)
         (ValueError "argon2id.kdf").

(** [ykman.device.list_all_devices()[0]] *)
Definition first_device : M YubiKey :=
  found <- list_all_devices ;;
  orelse (nth_error found 0) IndexError.

Definition register_yubikey (slot : SLOT) : M unit :=
  '(name_key, value_key) <- get_keys_by_password None ;;
  device <- first_device ;;
  let serial := serial device in
  challenge <- utils_random 64 ;;
  salt <- utils_random SALTBYTES ;;
  let keysize := KEY_SIZE in
  let opslimit := OPSLIMIT_SENSITIVE in
  let memlimit := MEMLIMIT_SENSITIVE in
  key <- get_yubikey_decrypt_key device slot challenge salt
           keysize opslimit memlimit ;;
  name_nonce <- utils_random NONCE_SIZE ;;
  value_nonce <- utils_random NONCE_SIZE ;;
  box <- SecretBox.__init__ key ;;
  enc_name_key <- SecretBox.encrypt box name_key name_nonce ;;
  enc_value_key <- SecretBox.encrypt box value_key value_nonce ;;
  config_db <- SqliteKV.__init__ "config" true ;;
  SqliteKV.__setitem__ config_db ("yubikey:" ++ format_serial serial)%string
    (JObj [ ("slot", JInt (SLOT_value slot));
            ("challenge", JStr (encode_bytes challenge));
            ("salt", JStr (encode_bytes salt));
            ("keysize", JInt keysize);
            ("opslimit", JInt opslimit);
            ("memlimit", JInt memlimit);
            ("name_key", JStr (encode_bytes enc_name_key));
            ("value_key", JStr (encode_bytes enc_value_key)) ]) ;;
  SqliteKV.__setitem__ config_db "default-open-method" (JStr "yubikey") ;;
  ret tt.

Definition get_keys_by_yubikey : M (bytes * bytes) :=
  config_db <- SqliteKV.__init__ "config" true ;;
  device <- first_device ;;
  let serial := serial device in
  yk_config <- SqliteKV.__getitem__ config_db
                 ("yubikey:" ++ format_serial serial)%string ;;
  challenge <- decoded yk_config "challenge" ;;
  salt <- decoded yk_config "salt" ;;
  name_key <- decoded yk_config "name_key" ;;
  value_key <- decoded yk_config "value_key" ;;
  slot <- (v <- subscript yk_config "slot" ;; SLOT_of v) ;;
  keysize <- int_field yk_config "keysize" ;;
  opslimit <- int_field yk_config "opslimit" ;;
  memlimit <- int_field yk_config "memlimit" ;;
  decrypt_key <- get_yubikey_decrypt_key device slot challenge salt
                   keysize opslimit memlimit ;;
  box <- SecretBox.__init__ decrypt_key ;;
  nk <- SecretBox.decrypt box name_key ;;
  vk <- SecretBox.decrypt box value_key ;;
  ret (nk, vk).

End Yubikey.

(** ** [parci/internals/parameter_store/local/__init__.py] *)

Section Local.
Context {P : Primitives}.

Definition init : M unit :=
  emit EvMakedirs ;;
  config_db <- SqliteKV.__init__ "config" true ;;
  initialized <- SqliteKV.__contains__ config_db "password" ;;
  if initialized : bool then raise (ValueError "Database already initialized")
  else
  password1 <- getpass "Password: " ;;
  password2 <- getpass "Password (again): " ;;
  if negb (String.eqb password1 password2)
  then raise (ValueError "Passwords do not match")
  else
  let keysize := KEY_SIZE in
  salt <- utils_random SALTBYTES ;;
  let opslimit := OPSLIMIT_SENSITIVE in
  let memlimit := MEMLIMIT_SENSITIVE in
  key <- get_user_decrypt_key (list_byte_of_string (NFKC password1))
           salt keysize opslimit memlimit ;;
  box <- SecretBox.__init__ key ;;
  params_name_key <- utils_random keysize ;;
  params_name_nonce <- utils_random NONCE_SIZE ;;
  params_value_key <- utils_random keysize ;;
  params_value_nonce <- utils_random NONCE_SIZE ;;
  enc_name_key <- SecretBox.encrypt box params_name_key params_name_nonce ;;
  enc_value_key <- SecretBox.encrypt box params_value_key params_value_nonce ;;
  SqliteKV.__setitem__ config_db "password"
    (JObj [ ("salt", JStr (encode_bytes salt));
            ("keysize", JInt keysize);
            ("opslimit", JInt opslimit);
            ("memlimit", JInt memlimit);
            ("name_key", JStr (encode_bytes enc_name_key));
            ("value_key", JStr (encode_bytes enc_value_key)) ]) ;;
  SqliteKV.__setitem__ config_db "default-open-method" (JStr "password") ;;
  ret tt.

Definition register_keyring : M unit :=
  '(name_key, value_key) <- get_keys_by_password None ;;
  key <- utils_random KEY_SIZE ;;
  let keystr := b64encode key in
  box <- SecretBox.__init__ key ;;
  name_nonce <- utils_random NONCE_SIZE ;;
  enc_name_key <- SecretBox.encrypt box name_key name_nonce ;;
  value_nonce <- utils_random NONCE_SIZE ;;
  enc_value_key <- SecretBox.encrypt box value_key value_nonce ;;
  config_db <- SqliteKV.__init__ "config" true ;;
  SqliteKV.__setitem__ config_db "keyring"
    (JObj [ ("name_key", JStr (encode_bytes enc_name_key));
            ("value_key", JStr (encode_bytes enc_value_key)) ]) ;;
  keyring_set_password "parci" "parci" keystr ;;
  SqliteKV.__setitem__ config_db "default-open-method" (JStr "keyring") ;;
  ret tt.

Definition get_keys_by_keyring : M (bytes * bytes) :=
  config_db <- SqliteKV.__init__ "config" true ;;
  kr_config <- SqliteKV.__getitem__ config_db "keyring" ;;
  name_key <- decoded kr_config "name_key" ;;
  value_key <- decoded kr_config "value_key" ;;
  decrypt_keystr <- keyring_get_password "parci" "parci" ;;
  decrypt_key <- match decrypt_keystr with
                 | Some s => orelse (b64decode s) binascii_Error
                 | None => raise TypeError
                 end ;;
  box <- SecretBox.__init__ decrypt_key ;;
  nk <- SecretBox.decrypt box name_key ;;
  vk <- SecretBox.decrypt box value_key ;;
  ret (nk, vk).

End Local.

(** Running a [for] loop over what a generator hands out, inside another
    generator: [body] computes the item yielded for each element, and an
    exception in it ends the outer generator. *)
Fixpoint for_each {A B} (body : A -> M B) (xs : list A) : M (generated B) :=
  match xs with
  | [] => ret ([], None)
  | x :: rest =>
      fun w =>
        match body x w with
        | (Ok y, w') =>
            match for_each body rest w' with
            | (Ok (ys, stop), w'') => (Ok (y :: ys, stop), w'')
            | (Err e, w'') => (Err e, w'')
            end
        | (Err e, w') => (Ok ([], Some e), w')
        end
  end.

Definition for_in {A B} (source : generated A) (body : A -> M B)
  : M (generated B) :=
  '(ys, stop) <- for_each body (fst source) ;;
  match stop with
  | Some e => ret (ys, Some e)
  | None => ret (ys, snd source)
  end.

(** The body of a generator function: what it raises ends the iteration. *)
Definition generator {B} (body : M (generated B)) : M (generated B) :=
  fun w =>
    match body w with
    | (Ok g, w') => (Ok g, w')
    | (Err e, w') => (Ok ([], Some e), w')
    end.

Definition get_config : M Config := fun w => (Ok (config w), w).

Module ParameterStore.
Section WithPrimitives.
Context {P : Primitives}.

Definition t := ParameterStore_t.

Definition __init__ (name_key value_key : bytes) (table : string) : M t :=
  kv <- SqliteKV.__init__ table false ;;
  ret {| kv := kv; _name_key := name_key; _value_key := value_key |}.

Definition _calc_key (self : t) (item : json) : M string :=
  let item := list_byte_of_string (json_dumps item) in
  orelse (blake2b_hex item (_name_key self)) (ValueError "blake2b").

(** [json.loads(value)] of decrypted bytes *)
Definition loads (value : bytes) : M json :=
  orelse (json_loads (string_of_list_byte value)) JSONDecodeError.

Definition __getitem__ (self : t) (item : json) : M json :=
  db_key <- _calc_key self item ;;
  box <- SecretBox.__init__ (_value_key self) ;;
  value <- SqliteKV.__getitem__ (kv self) db_key ;;
  value <- decode_bytes value ;;
  value <- SecretBox.decrypt box value ;;
  pair <- loads value ;;
  subscript_1 pair.

Definition __setitem__ (self : t) (item value : json) : M unit :=
  cfg <- get_config ;;
  if PARAMETER_READ_ONLY cfg
  then raise (KeyError "ParameterStore is read-only")
  else
  db_key <- _calc_key self item ;;
  box <- SecretBox.__init__ (_value_key self) ;;
  nonce <- utils_random NONCE_SIZE ;;
  let value := list_byte_of_string (json_dumps (JArr [item; value])) in
  value <- SecretBox.encrypt box value nonce ;;
  let value := encode_bytes value in
  SqliteKV.__setitem__ (kv self) db_key value ;;
  ret tt.

Definition __delitem__ (self : t) (item : json) : M unit :=
  cfg <- get_config ;;
  if PARAMETER_READ_ONLY cfg
  then raise (KeyError "ParameterStore is read-only")
  else
  db_key <- _calc_key self item ;;
  SqliteKV.__delitem__ (kv self) db_key.

Definition __contains__ (self : t) (item : json) : M bool :=
  db_key <- _calc_key self item ;;
  SqliteKV.__contains__ (kv self) db_key.

Definition items (self : t) : M (generated (json * json)) :=
  generator (
    box <- SecretBox.__init__ (_value_key self) ;;
    source <- SqliteKV.values (kv self) ;;
    for_in source (fun value : string =>
      value <- decode_bytes value ;;
      value <- SecretBox.decrypt box value ;;
      pair <- loads value ;;
      unpack_2 pair)).

Definition keys (self : t) : M (generated json) :=
  generator (
    source <- items self ;;
    for_in source (fun '(k, _) => ret k)).

Definition values (self : t) : M (generated json) :=
  generator (
    source <- items self ;;
    for_in source (fun '(_, v) => ret v)).

Definition __iter__ (self : t) : M (generated json) := keys self.

End WithPrimitives.
End ParameterStore.

(** ** The objects a caller hands to the store

    [json.dumps] accepts more than [json.loads] returns: a tuple, which
    it writes as an array, and a dict whose keys are ints, bools or
    [None], which it writes as strings (floats are left out, as they are
    of [json]). *)







Section Caller.
Context {P : Primitives}.



End Caller.

Section Open.
Context {P : Primitives}.

Definition open_parameter_store (method : option string)
  : M ParameterStore.t :=
  config_db <- SqliteKV.__init__ "config" true ;;
  method <- match method with
            | None => SqliteKV.__getitem__ config_db "default-open-method"
            | Some m => ret (JStr m)
            end ;;
  '(name_key, value_key) <-
    match method with
    | JStr "password" =>
        cfg <- get_config ;;
        get_keys_by_password (PARAMETER_DB_PASSWORD cfg)
    | JStr "yubikey" => get_keys_by_yubikey
    | JStr "keyring" => get_keys_by_keyring
    | _ => raise (ValueError "invalid encryption security method")
    end ;;
  ParameterStore.__init__ name_key value_key "params".

End Open.

(** ** [parci/internals/parameter_store/aws.py] *)

Fixpoint drop_slashes (cs : list ascii) : list ascii :=
  match cs with
  | c :: rest => if Ascii.eqb c "/" then drop_slashes rest else cs
  | [] => []
  end.

(** [while s.endswith("/"): s = s[:-1]] *)
Definition rstrip_slashes (s : string) : string :=
  string_of_list_ascii (rev (drop_slashes (rev (list_ascii_of_string s)))).

(** [s.split(",")] *)
Fixpoint split_commas (s : string) : list string :=
  match s with
  | EmptyString => [EmptyString]
  | String c rest =>
      if Ascii.eqb c ","
      then EmptyString :: split_commas rest
      else match split_commas rest with
           | first :: others => String c first :: others
           | [] => [String c EmptyString]
           end
  end.

Fixpoint ssm_lookup (name : string) (ps : list (string * string * string))
  : option (string * string) :=
  match ps with
  | [] => None
  | (n, ty, v) :: rest =>
      if String.eqb n name then Some (ty, v) else ssm_lookup name rest
  end.

Fixpoint ssm_put (name ty v : string) (ps : list (string * string * string))
  : list (string * string * string) :=
  match ps with
  | [] => [(name, ty, v)]
  | (n, ty', v') :: rest =>
      if String.eqb n name then (name, ty, v) :: rest
      else (n, ty', v') :: ssm_put name ty v rest
  end.

Module SSMParameterStore.
Section WithPrimitives.
Context {P : Primitives}.

Definition t := SSMParameterStore_t.

Definition __init__ : M t :=
  fun w =>
    let parameter_prefix :=
      match environ_get (environ w) "PARCI_PARAMETER_STORE_SSM_PREFIX" with
      | Some p => p
      | None => "/parci"
      end in
    let prefix := rstrip_slashes parameter_prefix in
    let prefix := if String.prefix "/" prefix then prefix
                  else ("/" ++ prefix)%string in
    (emit EvSSM ;; ret {| prefix := prefix |}) w.

Definition __getitem__ (self : t) (name : json) : M json :=
  emit EvSSM ;;
  found <- (fun w =>
              (Ok (ssm_lookup (prefix self ++ "/" ++ py_str name)%string
                     (ssm_parameters w)), w)) ;;
  '(ty, v) <- orelse found ClientError ;;
  if String.eqb ty "StringList"
  then ret (JArr (map JStr (split_commas v)))
  else match json_loads v with
       | Some j => ret j
       | None => ret (JStr v)
       end.

Definition __setitem__ (self : t) (name value : json) : M unit :=
  cfg <- get_config ;;
  if PARAMETER_READ_ONLY cfg
  then raise (SSMParameterStoreException
                "Cannot write to AWS SSM parameter store")
  else
  name <- match name with
          | JStr n => ret n
          | _ => raise AttributeError
          end ;;
  let name := if String.prefix "/" name then name
              else (prefix self ++ "/" ++ name)%string in
  emit EvSSM ;;
  fun w =>
    (Ok tt, set_ssm_parameters w
              (ssm_put name "SecureString" (json_dumps value)
                 (ssm_parameters w))).

Definition keys (self : t) : M (generated json) :=
  let prefix := (prefix self ++ "/")%string in
  emit EvSSM ;;
  fun w =>
    let names :=
      filter (String.prefix prefix)
             (map (fun '(n, _, _) => n) (ssm_parameters w)) in
    (Ok (map (fun name =>
                JStr (substring (String.length prefix)
                        (String.length name - String.length prefix) name))
             names, None), w).

End WithPrimitives.
End SSMParameterStore.

(** ** [parci/internals/parameter_store/__init__.py]

    [params = ParameterStoreInterceptor()] is the one instance; its field
    [_ps] is [params_ps] of the world. *)

Module ParameterStoreInterceptor.
Section WithPrimitives.
Context {P : Primitives}.

Definition get_ps : M (option backend) := fun w => (Ok (params_ps w), w).

Definition set_ps (b : backend) : M unit :=
  fun w => (Ok tt, set_params_ps w (Some b)).

Definition _load_store : M unit :=
  cfg <- get_config ;;
  if String.eqb (PARAMETER_DRIVER cfg) "local" then
    ps <- open_parameter_store None ;;
    set_ps (LocalStore ps)
  else if String.eqb (PARAMETER_DRIVER cfg) "aws-ssm" then
    ps <- SSMParameterStore.__init__ ;;
    set_ps (SSMStore ps)
  else raise (ValueError "config.PARAMETER_DRIVER is not a valid driver type").

(** [if self._ps is None: self._load_store()], then [self._ps] *)
Definition loaded : M backend :=
  ps <- get_ps ;;
  match ps with
  | Some b => ret b
  | None =>
      _load_store ;;
      ps <- get_ps ;;
      orelse ps AttributeError
  end.

Definition __contains__ (item : json) : M bool :=
  ps <- loaded ;;
  match ps with
  | LocalStore ps => ParameterStore.__contains__ ps item
  | SSMStore _ => raise AttributeError
  end.

Definition __getitem__ (item : json) : M json :=
  ps <- loaded ;;
  match ps with
  | LocalStore ps => ParameterStore.__getitem__ ps item
  | SSMStore ps => SSMParameterStore.__getitem__ ps item
  end.

Definition __setitem__ (key value : json) : M unit :=
  cfg <- get_config ;;
  if PARAMETER_READ_ONLY cfg
  then raise (ParameterStoreException
                "config.PARAMETER_READ_ONLY is set to true")
  else
  ps <- loaded ;;
  match ps with
  | LocalStore ps => ParameterStore.__setitem__ ps key value
  | SSMStore ps => SSMParameterStore.__setitem__ ps key value
  end.

Definition __delitem__ (key : json) : M unit :=
  cfg <- get_config ;;
  if PARAMETER_READ_ONLY cfg
  then raise (ParameterStoreException
                "config.PARAMETER_READ_ONLY is set to true")
  else
  ps <- loaded ;;
  match ps with
  | LocalStore ps => ParameterStore.__delitem__ ps key
  | SSMStore _ => raise AttributeError
  end.

Definition keys : M (generated json) :=
  ps <- loaded ;;
  match ps with
  | LocalStore ps => ParameterStore.keys ps
  | SSMStore ps => SSMParameterStore.keys ps
  end.

Definition items : M (generated (json * json)) :=
  ps <- loaded ;;
  match ps with
  | LocalStore ps => ParameterStore.items ps
  | SSMStore _ => raise AttributeError
  end.

Definition values : M (generated json) :=
  ps <- loaded ;;
  match ps with
  | LocalStore ps => ParameterStore.values ps
  | SSMStore _ => raise AttributeError
  end.

End WithPrimitives.
End ParameterStoreInterceptor.

(** ** [parci/cli/param.py]

    A command of the command line also reads the standard input and
    prints; what it printed stays printed when it raises. *)

Record Console : Type := {
  stdin_isatty : bool;
  stdin : string;
  stdout : list string;
  stderr : list string
}.

Definition CLI (A : Type) : Type :=
  Console -> World -> result A * Console * World.

Definition cli_ret {A} (a : A) : CLI A := fun c w => (Ok a, c, w).

Definition cli_raise {A} (e : exn) : CLI A := fun c w => (Err e, c, w).

Definition cli_bind {A B} (m : CLI A) (k : A -> CLI B) : CLI B :=
  fun c w =>
    match m c w with
    | (Ok a, c', w') => k a c' w'
    | (Err e, c', w') => (Err e, c', w')
    end.

Declare Scope cli_scope.
Delimit Scope cli_scope with cli.
Notation "x <- m ;; k" := (cli_bind m (fun x => k))
  (at level 61, m at next level, right associativity) : cli_scope.
Notation "m ;; k" := (cli_bind m (fun _ => k))
  (at level 61, right associativity) : cli_scope.

(** A computation of the store, run by a command. *)
Definition lift {A} (m : M A) : CLI A :=
  fun c w => let '(r, w') := m w in (r, c, w').

(** [print(line)] and [print(line, file=sys.stderr)] *)
Definition print (line : string) : CLI unit :=
  fun c w =>
    (Ok tt, {| stdin_isatty := stdin_isatty c; stdin := stdin c;
               stdout := stdout c ++ [line]; stderr := stderr c |}, w).

Definition eprint (line : string) : CLI unit :=
  fun c w =>
    (Ok tt, {| stdin_isatty := stdin_isatty c; stdin := stdin c;
               stdout := stdout c; stderr := stderr c ++ [line] |}, w).

(** [sys.stdin.isatty()] and [sys.stdin.read()] *)
Definition isatty : CLI bool := fun c w => (Ok (stdin_isatty c), c, w).

Definition stdin_read : CLI string :=
  fun c w =>
    (Ok (stdin c), {| stdin_isatty := stdin_isatty c; stdin := "";
                      stdout := stdout c; stderr := stderr c |}, w).

(** [config.PARAMETER_READ_ONLY = b] *)
Definition assign_PARAMETER_READ_ONLY (b : bool) : M unit :=
  fun w =>
    (Ok tt, set_config w {| PARAMETER_DRIVER := PARAMETER_DRIVER (config w);
                            PARAMETER_DB_PASSWORD :=
                              PARAMETER_DB_PASSWORD (config w);
                            PARAMETER_READ_ONLY := b |}).

(** The [argparse] namespace a command is handed. *)
Record Namespace : Type := {
  args_name : string;
  args_value : option string;
  args_json : bool;
  args_slot : SLOT
}.

Module param.
Section WithPrimitives.
Context {P : Primitives}.
(** [repr(v)] *)
Variable repr : json -> string.

Local Open Scope cli_scope.

Definition local_init (_args : Namespace) : CLI unit := lift init.

Definition local_register_yubikey (args : Namespace) : CLI unit :=
  lift (register_yubikey (args_slot args)).

Definition local_register_keyring (_args : Namespace) : CLI unit :=
  lift register_keyring.

(** The branch of [set_param] that reads the secret from the standard
    input. *)
Definition read_secret_from_stdin : CLI string :=
  tty <- isatty ;;
  (if tty : bool
   then eprint "Tell me your secrets (type ^D when done)..."
   else cli_ret tt) ;;
  stdin_read.

Definition set_param (args : Namespace) : CLI unit :=
  lift (assign_PARAMETER_READ_ONLY false) ;;
  secret <- match args_value args with
            | None => read_secret_from_stdin
            | Some v => if String.eqb v "-" then read_secret_from_stdin
                        else cli_ret v
            end ;;
  secret <- (if args_json args
             then lift (orelse (json_loads secret) JSONDecodeError)
             else cli_ret (JStr secret)) ;;
  lift (ParameterStoreInterceptor.__setitem__ (JStr (args_name args)) secret).

Fixpoint print_each (lines : list string) : CLI unit :=
  match lines with
  | [] => cli_ret tt
  | line :: rest => print line ;; print_each rest
  end.

Definition list_params (_args : Namespace) : CLI unit :=
  g <- lift ParameterStoreInterceptor.keys ;;
  print_each (map py_str (fst g)) ;;
  match snd g with
  | Some e => cli_raise e
  | None => cli_ret tt
  end.

Definition get_param (args : Namespace) : CLI unit :=
  v <- lift (ParameterStoreInterceptor.__getitem__ (JStr (args_name args))) ;;
  print (repr v).

Definition rm_param (args : Namespace) : CLI unit :=
  lift (assign_PARAMETER_READ_ONLY false) ;;
  lift (ParameterStoreInterceptor.__delitem__ (JStr (args_name args))).

End WithPrimitives.
End param.

(** ** [parci/internals/task.py]

    Tasks are objects, compared and hashed by identity: a task is known
    by its reference, the place of its object in the heap, and the sets
    [_parents] and [_children] hold references.  A Python [set] is a
    list without repetition, in some order. *)

Module task.

Record Task : Type := {
  name : string;
  _parents : list nat;
  _children : list nat;
  has_run : bool;
  succeeded : option bool
}.

(** An object of the heap: a [Task], or something else. *)
Inductive object : Type :=
| TaskObject (t : Task)
| OtherObject.

Definition heap : Type := list object.

(** How a call ends: it returns, it raises [ValueError], or the
    interpreter has no stack frame left. *)
Inductive outcome : Type :=
| Returned
| ValueError (msg : string)
| RecursionError.

(** [isinstance(ref, Task)] *)
Definition is_task (h : heap) (ref : nat) : bool :=
  match nth_error h ref with
  | Some (TaskObject _) => true
  | _ => false
  end.

(** The heap with the task at [ref] replaced by [f] of it. *)
Fixpoint update (ref : nat) (f : Task -> Task) (h : heap) : heap :=
  match h, ref with
  | [], _ => []
  | TaskObject t :: rest, O => TaskObject (f t) :: rest
  | o :: rest, O => o :: rest
  | o :: rest, S ref' => o :: update ref' f rest
  end.

(** [s.add(x)] *)
Fixpoint set_add (x : nat) (s : list nat) : list nat :=
  match s with
  | [] => [x]
  | y :: s' => if Nat.eqb x y then s else y :: set_add x s'
  end.

(** [self._children.add(child)] and [self._parents.add(parent)] *)
Definition children_add (child : nat) (t : Task) : Task :=
  {| name := name t; _parents := _parents t;
     _children := set_add child (_children t);
     has_run := has_run t; succeeded := succeeded t |}.

Definition parents_add (parent : nat) (t : Task) : Task :=
  {| name := name t; _parents := set_add parent (_parents t);
     _children := _children t;
     has_run := has_run t; succeeded := succeeded t |}.

(** [limit] is the number of stack frames the interpreter still grants
    ([sys.getrecursionlimit()] less the depth of the caller). *)
Fixpoint add_child_task (limit : nat) (self child : nat) (h : heap)
  {struct limit} : outcome * heap :=
  match limit with
  | O => (RecursionError, h)
  | S limit' =>
      if negb (is_task h child)
      then (ValueError "Child must be a Task object", h)
      else
      let h := update self (children_add child) h in
      add_parent_task limit' child self h
  end
with add_parent_task (limit : nat) (self parent : nat) (h : heap)
  {struct limit} : outcome * heap :=
  match limit with
  | O => (RecursionError, h)
  | S limit' =>
      if negb (is_task h parent)
      then (ValueError "Parent must be a Task object", h)
      else
      let h := update self (parents_add parent) h in
      add_child_task limit' parent self h
  end.

(** [self << other] and [self >> other] *)
Definition __lshift__ (limit : nat) (self other : nat) (h : heap)
  : outcome * heap :=
  match limit with
  | O => (RecursionError, h)
  | S limit' => add_child_task limit' self other h
  end.

Definition __rshift__ (limit : nat) (self other : nat) (h : heap)
  : outcome * heap :=
  match limit with
  | O => (RecursionError, h)
  | S limit' => add_parent_task limit' self other h
  end.

(** The heap in which [child] is a child of [parent] and [parent] a
    parent of [child]. *)
Definition linked (parent child : nat) (h : heap) : heap :=
  update child (parents_add parent) (update parent (children_add child) h).

(** Two tasks, not linked, and a string. *)
Definition sample : heap :=
  [ TaskObject {| name := "build"; _parents := []; _children := [];
                  has_run := false; succeeded := None |};
    TaskObject {| name := "test"; _parents := []; _children := [];
                  has_run := false; succeeded := None |};
    OtherObject ].

End task.

(** ** [parci/internals/utils.py], the tasks of a run *)

Module utils.
Import task.

(** How a search ends: it returns, it meets something that is not a task
    ([AttributeError]), or the interpreter has no stack frame left. *)
Inductive ending : Type :=
| Found
| AttributeError
| RecursionError.

(** [x in s] *)
Definition mem (x : nat) (s : list nat) : bool := existsb (Nat.eqb x) s.

(** [task.children] *)
Definition children (h : heap) (ref : nat) : option (list nat) :=
  match nth_error h ref with
  | Some (TaskObject t) => Some (_children t)
  | _ => None
  end.

(** [for x in xs: body], on the record set, as far as the first
    exception. *)
Fixpoint for_each (xs : list nat)
  (body : nat -> list nat -> ending * list nat) (recordset : list nat)
  : ending * list nat :=
  match xs with
  | [] => (Found, recordset)
  | x :: xs' =>
      match body x recordset with
      | (Found, recordset') => for_each xs' body recordset'
      | stopped => stopped
      end
  end.

(** [find_tasks(taskset, recordset)]: the record set is the caller's
    object and is what the call leaves in it.  [limit] is the number of
    stack frames the interpreter still grants; the call takes one, and
    the property [task.children] one more while it is read. *)
Fixpoint find_tasks (limit : nat) (h : heap) (taskset recordset : list nat)
  {struct limit} : ending * list nat :=
  match limit with
  | O => (RecursionError, recordset)
  | S limit' =>
      for_each taskset
        (fun task recordset =>
           let recordset := set_add task recordset in
           match children h task, limit' with
           | None, _ => (AttributeError, recordset)
           | Some _, O => (RecursionError, recordset)
           | Some cs, S _ =>
               for_each cs
                 (fun child recordset =>
                    if mem child recordset then (Found, recordset)
                    else find_tasks limit' h [child] recordset)
                 recordset
           end)
        recordset
  end.

(** [b] is [a], a child of [a], a child of a child, and so on. *)
Inductive reachable (h : heap) (a : nat) : nat -> Prop :=
| reach_here : reachable h a a
| reach_child b cs c :
    reachable h a b -> children h b = Some cs -> In c cs ->
    reachable h a c.

(** Every child of a task is a task. *)
Definition children_are_tasks (h : heap) : Prop :=
  forall r cs c, children h r = Some cs -> In c cs -> is_task h c = true.

(** [parent.has_run and parent.succeeded], as [all] tests it; [None]
    where the parent is not a task ([AttributeError]). *)
Definition ran_well (h : heap) (parent : nat) : option bool :=
  match nth_error h parent with
  | Some (TaskObject t) =>
      Some (has_run t
            && match succeeded t with Some true => true | _ => false end)
  | _ => None
  end.

(** [all(parent.has_run and parent.succeeded for parent in parents)] *)
Fixpoint all_ran_well (h : heap) (parents : list nat) : option bool :=
  match parents with
  | [] => Some true
  | parent :: rest =>
      match ran_well h parent with
      | None => None
      | Some false => Some false
      | Some true => all_ran_well h rest
      end
  end.

(** The loop of [ready_tasks] over the tasks left, [ready] being the set
    built so far. *)
Fixpoint ready_loop (h : heap) (taskset ready : list nat)
  : option (list nat) :=
  match taskset with
  | [] => Some ready
  | task :: rest =>
      match nth_error h task with
      | Some (TaskObject t) =>
          if has_run t then ready_loop h rest ready
          else
            match all_ran_well h (_parents t) with
            | None => None
            | Some true => ready_loop h rest (set_add task ready)
            | Some false => ready_loop h rest ready
            end
      | _ => None
      end
  end.

(** [ready_tasks(taskset)]; [None] is [AttributeError]. *)
Definition ready_tasks (h : heap) (taskset : list nat)
  : option (list nat) :=
  ready_loop h taskset [].

(** [task.parents] *)
Definition parents (h : heap) (ref : nat) : option (list nat) :=
  match nth_error h ref with
  | Some (TaskObject t) => Some (_parents t)
  | _ => None
  end.

(** The links go both ways, as [add_child_task] and [add_parent_task]
    leave them: a task is a parent of each of its children, and every
    parent is a task. *)
Definition linked_both_ways (h : heap) : Prop :=
  (forall p cs c ps, children h p = Some cs -> In c cs ->
                     parents h c = Some ps -> In p ps)
  /\ (forall c ps p, parents h c = Some ps -> In p ps ->
                     is_task h p = true).

(** No task has run yet. *)
Definition nothing_has_run (h : heap) : Prop :=
  forall r t, nth_error h r = Some (TaskObject t) -> has_run t = false.

Definition new_task (name : string) (parents children : list nat)
  : object :=
  TaskObject {| name := name; _parents := parents; _children := children;
                has_run := false; succeeded := None |}.

(** fetch, then build, then test and lint. *)
Definition pipeline : heap :=
  [ new_task "fetch" [] [1%nat];
    new_task "build" [0%nat] [2%nat; 3%nat];
    new_task "test" [1%nat] [];
    new_task "lint" [1%nat] [] ].

(** Three tasks in a ring, and one apart. *)
Definition ring : heap :=
  [ new_task "a" [2%nat] [1%nat];
    new_task "b" [0%nat] [2%nat];
    new_task "c" [1%nat] [0%nat];
    new_task "d" [] [] ].

End utils.

(** ** A reference implementation of the libraries

    Small stand-ins for the library entry points, simple enough to run
    the store on concrete inputs: a sealed box that carries its key and
    nonce in the clear, a digest that spells its input out, a transparent
    byte codec and a compact self-delimiting text form of JSON values.
    They meet [PrimitivesSpec]; they protect nothing. *)

Module Reference.

Definition crypto_secretbox (m n k : bytes) : bytes := k ++ n ++ m.

Fixpoint bytes_eqb (a b : bytes) : bool :=
  match a, b with
  | [], [] => true
  | x :: a', y :: b' => Byte.eqb x y && bytes_eqb a' b'
  | _, _ => false
  end.

Definition crypto_secretbox_open (c n k : bytes) : option bytes :=
  let klen := List.length k in
  let nlen := List.length n in
  if bytes_eqb (firstn klen c) k
     && bytes_eqb (firstn nlen (skipn klen c)) n
  then Some (skipn nlen (skipn klen c))
  else None.

Definition blake2b_hex (data k : bytes) : option string :=
  if len k <=? BLAKE2B_KEYBYTES_MAX
  then Some (string_of_list_byte (k ++ data))
  else None.

Definition argon2id_kdf (size : Z) (pw salt : bytes) (ops mem : Z)
  : option bytes :=
  if (0 <=? size) && (len salt =? SALTBYTES)
  then Some (firstn (Z.to_nat size)
               (pw ++ salt ++ repeat x00 (Z.to_nat size)))
  else None.

Definition b64encode (b : bytes) : string := string_of_list_byte b.

Definition b64decode (s : string) : option bytes :=
  Some (list_byte_of_string s).

Fixpoint enc_pos (p : positive) : string :=
  match p with
  | xH => "H"
  | xO q => String "O" (enc_pos q)
  | xI q => String "I" (enc_pos q)
  end.

Definition enc_Z (z : Z) : string :=
  match z with
  | Z0 => "0"
  | Zpos p => String "+" (enc_pos p)
  | Zneg p => String "-" (enc_pos p)
  end.

Fixpoint enc_str (s : string) : string :=
  match s with
  | EmptyString => "!"
  | String c r => String "." (String c (enc_str r))
  end.

Fixpoint dumps (v : json) : string :=
  match v with
  | JNull => "n"
  | JBool true => "t"
  | JBool false => "f"
  | JInt z => String "i" (enc_Z z)
  | JStr s => String "s" (enc_str s)
  | JArr xs =>
      String "["
        ((fix elems (l : list json) : string :=
            match l with
            | [] => "]"
            | x :: r => String "," (dumps x ++ elems r)
            end) xs)
  | JObj kvs =>
      String "{"
        ((fix fields (l : list (string * json)) : string :=
            match l with
            | [] => "}"
            | (k, x) :: r => String ":" (enc_str k ++ dumps x ++ fields r)
            end) kvs)
  end%string.

Fixpoint dec_pos (s : string) : option (positive * string) :=
  match s with
  | String "H" r => Some (xH, r)
  | String "O" r =>
      match dec_pos r with
      | Some (p, r') => Some (xO p, r')
      | None => None
      end
  | String "I" r =>
      match dec_pos r with
      | Some (p, r') => Some (xI p, r')
      | None => None
      end
  | _ => None
  end.

Definition dec_Z (s : string) : option (Z * string) :=
  match s with
  | String "0" r => Some (Z0, r)
  | String "+" r =>
      match dec_pos r with
      | Some (p, r') => Some (Zpos p, r')
      | None => None
      end
  | String "-" r =>
      match dec_pos r with
      | Some (p, r') => Some (Zneg p, r')
      | None => None
      end
  | _ => None
  end.

Fixpoint dec_str (s : string) : option (string * string) :=
  match s with
  | String "!" r => Some (EmptyString, r)
  | String "." (String c r) =>
      match dec_str r with
      | Some (t, r') => Some (String c t, r')
      | None => None
      end
  | _ => None
  end.

(** What the parser is reading: a value, the rest of an array or the
    rest of an object. *)
Inductive mode : Type := MValue | MElems | MFields.

Fixpoint parse (fuel : nat) (m : mode) (s : string)
  : option (json * string) :=
  match fuel with
  | O => None
  | S fuel' =>
      match m, s with
      | MValue, String "n" r => Some (JNull, r)
      | MValue, String "t" r => Some (JBool true, r)
      | MValue, String "f" r => Some (JBool false, r)
      | MValue, String "i" r =>
          match dec_Z r with
          | Some (z, r') => Some (JInt z, r')
          | None => None
          end
      | MValue, String "s" r =>
          match dec_str r with
          | Some (t, r') => Some (JStr t, r')
          | None => None
          end
      | MValue, String "[" r => parse fuel' MElems r
      | MValue, String "{" r => parse fuel' MFields r
      | MElems, String "]" r => Some (JArr [], r)
      | MElems, String "," r =>
          match parse fuel' MValue r with
          | Some (x, r1) =>
              match parse fuel' MElems r1 with
              | Some (JArr xs, r2) => Some (JArr (x :: xs), r2)
              | _ => None
              end
          | None => None
          end
      | MFields, String "}" r => Some (JObj [], r)
      | MFields, String ":" r =>
          match dec_str r with
          | Some (k, r1) =>
              match parse fuel' MValue r1 with
              | Some (x, r2) =>
                  match parse fuel' MFields r2 with
                  | Some (JObj kvs, r3) => Some (JObj ((k, x) :: kvs), r3)
                  | _ => None
                  end
              | None => None
              end
          | None => None
          end
      | _, _ => None
      end
  end.

Definition loads (s : string) : option json :=
  match parse (S (String.length s)) MValue s with
  | Some (v, EmptyString) => Some v
  | _ => None
  end.

(** The text of the elements of an array and of the fields of an
    object, as [dumps] writes them. *)
Definition elems_text (dump : json -> string) : list json -> string :=
  fix elems (l : list json) : string :=
    match l with
    | [] => "]"
    | x :: r => String "," (dump x ++ elems r)
    end.

Definition fields_text (dump : json -> string)
  : list (string * json) -> string :=
  fix fields (l : list (string * json)) : string :=
    match l with
    | [] => "}"
    | (k, x) :: r => String ":" (enc_str k ++ dump x ++ fields r)
    end.

(** [parse] reads back what [dumps] wrote, given fuel enough. *)
Definition parses (v : json) : Prop :=
  forall fuel rest,
    (String.length (dumps v) <= fuel)%nat ->
    parse fuel MValue (dumps v ++ rest) = Some (v, rest).

Definition between (lo hi : nat) (c : ascii) : bool :=
  (lo <=? nat_of_ascii c)%nat && (nat_of_ascii c <=? hi)%nat.

(** The compatibility mapping of the fullwidth forms U+FF01..U+FF5E
    (UTF-8 [EF BC 81]..[EF BD 9E]) onto ASCII; other text is kept. *)
Fixpoint NFKC (s : string) : string :=
  match s with
  | String a ((String b (String c r)) as t) =>
      if Ascii.eqb a (ascii_of_nat 239) && Ascii.eqb b (ascii_of_nat 188)
         && between 129 191 c
      then String (ascii_of_nat (nat_of_ascii c - 96)) (NFKC r)
      else if Ascii.eqb a (ascii_of_nat 239) && Ascii.eqb b (ascii_of_nat 189)
              && between 128 158 c
      then String (ascii_of_nat (nat_of_ascii c - 32)) (NFKC r)
      else String a (NFKC t)
  | String a t => String a (NFKC t)
  | EmptyString => EmptyString
  end.

Definition py_str (v : json) : string :=
  match v with
  | JStr s => s
  | JNull => "None"
  | JBool true => "True"
  | JBool false => "False"
  | JInt n => NilZero.string_of_int (Z.to_int n)
  | _ => dumps v
  end.

Definition primitives : Primitives :=
  Build_Primitives crypto_secretbox crypto_secretbox_open blake2b_hex
    argon2id_kdf b64encode b64decode dumps loads NFKC py_str.

(** [repr(v)]: a string in quotes, anything else as [str] shows it. *)
Definition repr (v : json) : string :=
  match v with
  | JStr s => ("'" ++ s ++ "'")%string
  | _ => py_str v
  end.

End Reference.

(** ** The secrets a store holds, by name

    Modelled from the words of the specification: [set] is an upsert
    (replace on conflict, last write wins), [delete] removes the secret,
    and enumeration yields the pairs that were set and not deleted. *)

Inductive op : Type :=
| SetItem (name value : json)
| DelItem (name : json).

Fixpoint json_eqb (a b : json) : bool :=
  match a, b with
  | JNull, JNull => true
  | JBool x, JBool y => Bool.eqb x y
  | JInt x, JInt y => Z.eqb x y
  | JStr x, JStr y => String.eqb x y
  | JArr xs, JArr ys =>
      (fix all2 (l1 l2 : list json) : bool :=
         match l1, l2 with
         | [], [] => true
         | x :: r1, y :: r2 => json_eqb x y && all2 r1 r2
         | _, _ => false
         end) xs ys
  | JObj xs, JObj ys =>
      (fix all2 (l1 l2 : list (string * json)) : bool :=
         match l1, l2 with
         | [], [] => true
         | (k1, x) :: r1, (k2, y) :: r2 =>
             String.eqb k1 k2 && json_eqb x y && all2 r1 r2
         | _, _ => false
         end) xs ys
  | _, _ => false
  end.

Fixpoint model_set (n v : json) (m : list (json * json))
  : list (json * json) :=
  match m with
  | [] => [(n, v)]
  | (n', v') :: rest =>
      if json_eqb n' n then (n, v) :: rest
      else (n', v') :: model_set n v rest
  end.

Definition model_del (n : json) (m : list (json * json))
  : list (json * json) :=
  filter (fun kv => negb (json_eqb (fst kv) n)) m.

Definition model_step (m : list (json * json)) (o : op)
  : list (json * json) :=
  match o with
  | SetItem n v => model_set n v m
  | DelItem n => model_del n m
  end.

Definition secrets_after (ops : list op) : list (json * json) :=
  fold_left model_step ops [].


Definition op_name (o : op) : json :=
  match o with
  | SetItem n _ => n
  | DelItem n => n
  end.

Definition op_wf (o : op) : bool :=
  match o with
  | SetItem n v => wf_json n && wf_json v
  | DelItem n => wf_json n
  end.

Section Runs.
Context {P : Primitives}.

(** A caller setting and deleting secrets, one after the other. *)
Fixpoint run_ops (self : ParameterStore.t) (ops : list op) : M unit :=
  match ops with
  | [] => ret tt
  | SetItem n v :: rest =>
      ParameterStore.__setitem__ self n v ;; run_ops self rest
  | DelItem n :: rest =>
      ParameterStore.__delitem__ self n ;; run_ops self rest
  end.

(** The digest under which a name is stored. *)
Definition digest (self : ParameterStore.t) (name : json) : option string :=
  blake2b_hex (list_byte_of_string (json_dumps name)) (_name_key self).

(** Names among which the digest tells any two apart. *)
Definition told_apart (self : ParameterStore.t) (names : list json)
  : Prop :=
  forall a b, In a names -> In b names ->
              digest self a = digest self b -> a = b.

(** The text [__setitem__] stores for a pair, given the nonce. *)
Definition blob (self : ParameterStore.t) (name value : json)
  (nonce : bytes) : string :=
  b64encode
    (nonce ++ crypto_secretbox
                (list_byte_of_string (json_dumps (JArr [name; value])))
                nonce (_value_key self)).

(** A row of the store that holds the pair [kv]. *)
Definition holds (self : ParameterStore.t) (r : row) (pair : json * json)
  : Prop :=
  table_name r = table (kv self)
  /\ digest self (fst pair) = Some (key r)
  /\ wf_json (fst pair) = true /\ wf_json (snd pair) = true
  /\ exists nonce, len nonce = NONCE_SIZE
                   /\ value r = blob self (fst pair) (snd pair) nonce.

End Runs.

(** ** Notions used to state and prove the properties *)

(** The process has called [os.makedirs] on the directory of the
    database, so the directory exists and the database can be opened. *)
Definition directory_made (w : World) : Prop := In EvMakedirs (trace w).

(** A world in which nothing is stored and nobody answers. *)
Definition nowhere : World :=
  {| environ := []; config := config_py []; tkv := []; tty := [];
     urandom := fun _ => x00; drawn := 0%nat; keyring_usable := false;
     keyring_items := []; devices := []; ssm_parameters := [];
     params_ps := None; trace := [] |}.

(** The result of a computation that does not look at the world. *)
Definition value_of {A} (m : M A) : result A := fst (m nowhere).

(** A computation that neither reads nor changes the world. *)
Definition pure {A} (m : M A) : Prop := forall w, m w = (value_of m, w).

(** The world after [SqliteKV(db, table)] was constructed. *)
Definition connected (table : string) (w : World) : World :=
  log EvCommit (log (EvConnect table) w).

(** The world after a [getpass] prompt was answered. *)
Definition prompted (prompt : string) (rest : list string) (w : World)
  : World :=
  set_tty (log (EvGetpass prompt) w) rest.

(** A computation that leaves the table [tkv] as it is. *)
Definition unchanged {A} (m : M A) : Prop :=
  forall w, tkv (snd (m w)) = tkv w.

(** A computation that, when it raises, has left [tkv] as it was. *)
Definition fails_clean {A} (m : M A) : Prop :=
  forall w e w', m w = (Err e, w') -> tkv w' = tkv w.

(** A part of the world that the trace, the terminal and the position in
    the random source have no bearing on. *)
Definition io_blind {X} (f : World -> X) : Prop :=
  (forall w t, f (set_trace w t) = f w)
  /\ (forall w t, f (set_tty w t) = f w)
  /\ (forall w n, f (set_drawn w n) = f w).

(** A computation that leaves the part [f] of the world as it is. *)
Definition keeps {X A} (f : World -> X) (m : M A) : Prop :=
  forall w, f (snd (m w)) = f w.

(** A computation that, when it raises, has left the part [f] of the
    world as it was. *)
Definition fails_keeping {X A} (f : World -> X) (m : M A) : Prop :=
  forall w e w', m w = (Err e, w') -> f w' = f w.

(** What outlives a run or configures it: the rows of the database, the
    entries of the OS keyring, the module [parci.config] and the parameters
    held by AWS. *)
Definition stored (w : World)
  : list row * list (string * string * string) * Config
    * list (string * string * string) :=
  (tkv w, keyring_items w, config w, ssm_parameters w).

(** The values that read back as they were written: any text, and with
    [serialize_values] the JSON values without a repeated key. *)
Definition storable (b : bool) : SqliteKV.value_t b -> Prop :=
  match b return SqliteKV.value_t b -> Prop with
  | true => fun v => wf_json v = true
  | false => fun _ => True
  end.

(** The constraint [UNIQUE (table_name, key)] of the table [tkv]. *)
Definition one_row_per_key (rows : list row) : Prop :=
  NoDup (map (fun r => (table_name r, key r)) rows).

(** [s.endswith("/")] *)
Definition ends_with_slash (s : string) : bool :=
  match rev (list_ascii_of_string s) with
  | c :: _ => Ascii.eqb c "/"
  | [] => false
  end.

(** The world after [open_parameter_store] opened the store with a
    password it was given: three connections, nothing else. *)
Definition opened (w : World) : World :=
  connected "params" (connected "config" (connected "config" w)).

(** The world after the backend [b] was loaded into the interceptor. *)
Definition loaded_with (b : backend) (w : World) : World :=
  set_params_ps w (Some b).

(** The console after [lines] were printed. *)
Definition printed (lines : list string) (c : Console) : Console :=
  {| stdin_isatty := stdin_isatty c; stdin := stdin c;
     stdout := stdout c ++ lines; stderr := stderr c |}.

Section Bodies.
Context {P : Primitives}.

(** How [open_parameter_store] obtains the keys for a [method]. *)
Definition keys_by_method (method : json) : M (bytes * bytes) :=
  match method with
  | JStr "password" =>
      cfg <- get_config ;;
      get_keys_by_password (PARAMETER_DB_PASSWORD cfg)
  | JStr "yubikey" => get_keys_by_yubikey
  | JStr "keyring" => get_keys_by_keyring
  | _ => raise (ValueError "invalid encryption security method")
  end.

(** A process set up to open the local store [ps] with the password of
    its configuration: the driver is the local one, no backend is loaded
    yet, the default open method is ["password"], and the password
    [config.PARAMETER_DB_PASSWORD] unlocks the keys of [ps]. *)
Definition password_access (w : World) (pw : string)
  (ps : ParameterStore.t) : Prop :=
  PARAMETER_DRIVER (config w) = "local"
  /\ PARAMETER_DB_PASSWORD (config w) = Some pw
  /\ params_ps w = None
  /\ fst (SqliteKV.__getitem__ (b := true) {| table := "config" |}
            "default-open-method" w) = Ok (JStr "password")
  /\ fst (get_keys_by_password (Some pw) w)
     = Ok (_name_key ps, _value_key ps)
  /\ table (kv ps) = "params"
  /\ len (_name_key ps) = KEY_SIZE
  /\ len (_value_key ps) = KEY_SIZE.

(** The body of [get_keys_by_password] once the record is read; [ask]
    is how the password is obtained. *)
Definition password_tail (password_config : json) (ask : M string)
  : M (bytes * bytes) :=
  salt <- decoded password_config "salt" ;;
  name_key <- decoded password_config "name_key" ;;
  value_key <- decoded password_config "value_key" ;;
  password <- ask ;;
  keysize <- int_field password_config "keysize" ;;
  opslimit <- int_field password_config "opslimit" ;;
  memlimit <- int_field password_config "memlimit" ;;
  decrypt_key <- get_user_decrypt_key
                   (list_byte_of_string (NFKC password))
                   salt keysize opslimit memlimit ;;
  box <- SecretBox.__init__ decrypt_key ;;
  nk <- SecretBox.decrypt box name_key ;;
  vk <- SecretBox.decrypt box value_key ;;
  ret (nk, vk).

Definition ask_password (password : option string) : M string :=
  match password with
  | None => getpass "Password: "
  | Some p => ret p
  end.

(** What [get_keys_by_password] makes of the rows stored under
    ["password"] and of a password. *)
Definition unlock_with_password (rows : list string) (pw : string)
  : result (bytes * bytes) :=
  match rows with
  | v :: _ =>
      match SqliteKV.load true v with
      | Ok pc => value_of (password_tail pc (ret pw))
      | Err e => Err e
      end
  | [] => Err (KeyError "Key does not exist")
  end.

(** The body of [get_keys_by_keyring] once the record is read;
    [lookup] is how the keyring is asked. *)
Definition keyring_tail (kr_config : json) (lookup : M (option string))
  : M (bytes * bytes) :=
  name_key <- decoded kr_config "name_key" ;;
  value_key <- decoded kr_config "value_key" ;;
  decrypt_keystr <- lookup ;;
  decrypt_key <- match decrypt_keystr with
                 | Some s => orelse (b64decode s) binascii_Error
                 | None => raise TypeError
                 end ;;
  box <- SecretBox.__init__ decrypt_key ;;
  nk <- SecretBox.decrypt box name_key ;;
  vk <- SecretBox.decrypt box value_key ;;
  ret (nk, vk).

(** What the keyring answers: the entry, if a backend is usable. *)
Definition answer (usable : bool) (entry : option string)
  : M (option string) :=
  if usable then ret entry else raise KeyringError.

(** What [get_keys_by_keyring] makes of the rows stored under
    ["keyring"] and of the state of the OS keyring. *)
Definition unlock_with_keyring (rows : list string) (usable : bool)
  (entry : option string) : result (bytes * bytes) :=
  match rows with
  | v :: _ =>
      match SqliteKV.load true v with
      | Ok pc => value_of (keyring_tail pc (answer usable entry))
      | Err e => Err e
      end
  | [] => Err (KeyError "Key does not exist")
  end.

(** The key a YubiKey derives, without the trace of the challenge. *)
Definition derive (device : YubiKey) (slot : SLOT) (challenge salt : bytes)
  (keysize opslimit memlimit : Z) : M bytes :=
  response <- orelse (calculate_hmac_sha1 device slot challenge)
                     YubikeyError ;;
  orelse (argon2id_kdf keysize response salt opslimit memlimit)
         (ValueError "argon2id.kdf").

(** The body of [get_keys_by_yubikey] once the record is read. *)
Definition yubikey_tail (yk_config : json)
  (derive_key : SLOT -> bytes -> bytes -> Z -> Z -> Z -> M bytes)
  : M (bytes * bytes) :=
  challenge <- decoded yk_config "challenge" ;;
  salt <- decoded yk_config "salt" ;;
  name_key <- decoded yk_config "name_key" ;;
  value_key <- decoded yk_config "value_key" ;;
  slot <- (v <- subscript yk_config "slot" ;; SLOT_of v) ;;
  keysize <- int_field yk_config "keysize" ;;
  opslimit <- int_field yk_config "opslimit" ;;
  memlimit <- int_field yk_config "memlimit" ;;
  decrypt_key <- derive_key slot challenge salt keysize opslimit memlimit ;;
  box <- SecretBox.__init__ decrypt_key ;;
  nk <- SecretBox.decrypt box name_key ;;
  vk <- SecretBox.decrypt box value_key ;;
  ret (nk, vk).

(** The key of the record of a device. *)
Definition yubikey_key (device : YubiKey) : string :=
  ("yubikey:" ++ format_serial (serial device))%string.

(** What [get_keys_by_yubikey] makes of the attached devices and of
    the rows stored for the first of them. *)
Definition unlock_with_yubikey (found : list YubiKey)
  (rows_of : string -> list string) : result (bytes * bytes) :=
  match found with
  | device :: _ =>
      match rows_of (yubikey_key device) with
      | v :: _ =>
          match SqliteKV.load true v with
          | Ok pc => value_of (yubikey_tail pc (derive device))
          | Err e => Err e
          end
      | [] => Err (KeyError "Key does not exist")
      end
  | [] => Err IndexError
  end.

(** What [ParameterStore.__getitem__] does with the text of a row. *)
Definition secret_tail (box : SecretBox.t) (value : string) : M json :=
  value <- decode_bytes value ;;
  value <- SecretBox.decrypt box value ;;
  pair <- ParameterStore.loads value ;;
  subscript_1 pair.

(** What [ParameterStore.__getitem__] makes of the rows of its table. *)
Definition read_secret (self : ParameterStore.t) (name : json)
  (rows_of : string -> list string) : result json :=
  match value_of (ParameterStore._calc_key self name) with
  | Ok d =>
      match value_of (SecretBox.__init__ (_value_key self)) with
      | Ok box =>
          match rows_of d with
          | v :: _ => value_of (secret_tail box v)
          | [] => Err (KeyError "Key does not exist")
          end
      | Err e => Err e
      end
  | Err e => Err e
  end.

(** A key sealed in a box: what [box.encrypt(key, nonce)] returns. *)
Definition sealed (kek key nonce : bytes) : bytes :=
  nonce ++ crypto_secretbox key nonce kek.

(** The record [init] stores under ["password"]. *)
Definition password_record (salt kek nk nn vk vn : bytes) : json :=
  JObj [ ("salt", JStr (encode_bytes salt));
         ("keysize", JInt KEY_SIZE);
         ("opslimit", JInt OPSLIMIT_SENSITIVE);
         ("memlimit", JInt MEMLIMIT_SENSITIVE);
         ("name_key", JStr (encode_bytes (sealed kek nk nn)));
         ("value_key", JStr (encode_bytes (sealed kek vk vn))) ].

(** The record [register_keyring] stores under ["keyring"]. *)
Definition keyring_record (kek nk nn vk vn : bytes) : json :=
  JObj [ ("name_key", JStr (encode_bytes (sealed kek nk nn)));
         ("value_key", JStr (encode_bytes (sealed kek vk vn))) ].

(** The record [register_yubikey] stores under ["yubikey:<serial>"]. *)
Definition yubikey_record (slot : SLOT) (challenge salt kek nk nn vk vn : bytes)
  : json :=
  JObj [ ("slot", JInt (SLOT_value slot));
         ("challenge", JStr (encode_bytes challenge));
         ("salt", JStr (encode_bytes salt));
         ("keysize", JInt KEY_SIZE);
         ("opslimit", JInt OPSLIMIT_SENSITIVE);
         ("memlimit", JInt MEMLIMIT_SENSITIVE);
         ("name_key", JStr (encode_bytes (sealed kek nk nn)));
         ("value_key", JStr (encode_bytes (sealed kek vk vn))) ].

(** The world after [utils.random(n)]. *)
Definition drew (n : Z) (w : World) : World :=
  advance n (log (EvRandom n) w).

(** The world after [SqliteKV.__setitem__] stored the text [v]. *)
Definition wrote (table item v : string) (w : World) : World :=
  log EvCommit (update_tkv (insert_or_update table item v) w).

End Bodies.

(** ** Sample worlds, on the reference implementation *)

Module Sample.

Definition source (n : nat) : byte :=
  match Byte.of_nat (n mod 256) with
  | Some b => b
  | None => x00
  end.

(** A YubiKey whose answer is the first twenty bytes of the challenge,
    reversed. *)
Definition token : YubiKey :=
  {| serial := Some 7654321;
     calculate_hmac_sha1 := fun _ challenge => Some (rev (firstn 20 challenge)) |}.

(** A new installation: no database yet, the default configuration,
    an operator about to type ["pw"] twice. *)
Definition fresh : World :=
  {| environ := []; config := config_py []; tkv := [];
     tty := ["pw"; "pw"]; urandom := source; drawn := 0%nat;
     keyring_usable := true; keyring_items := []; devices := [token];
     ssm_parameters := []; params_ps := None; trace := [] |}.

(** The operator will type [lines]. *)
Definition typing (lines : list string) (w : World) : World :=
  set_tty w lines.

(** [config.PARAMETER_READ_ONLY = False], as [parci param set] does. *)
Definition writable (w : World) : World :=
  set_config w {| PARAMETER_DRIVER := PARAMETER_DRIVER (config w);
                  PARAMETER_DB_PASSWORD := PARAMETER_DB_PASSWORD (config w);
                  PARAMETER_READ_ONLY := false |}.

(** The OS keyring has no usable backend. *)
Definition without_keyring (w : World) : World :=
  {| environ := environ w; config := config w;
     tkv := tkv w; tty := tty w;
     urandom := urandom w; drawn := drawn w; keyring_usable := false;
     keyring_items := keyring_items w; devices := devices w;
     ssm_parameters := ssm_parameters w; params_ps := params_ps w;
     trace := trace w |}.

(** The installation after [parci param init]. *)
Definition initialized : World :=
  snd (init (P := Reference.primitives) fresh).

(** The installation after a [parci param init] whose second password
    was mistyped: the directory and the database are there, no record
    is; the operator is about to type ["pw"]. *)
Definition init_failed : World :=
  typing ["pw"]
    (snd (init (P := Reference.primitives) (typing ["pw"; "pv"] fresh))).

(** The keys [init] drew. *)
Definition name_key : bytes := random_bytes source 16 KEY_SIZE.
Definition value_key : bytes := random_bytes source 72 KEY_SIZE.

(** The store [open_parameter_store] returns on it. *)
Definition store : ParameterStore.t :=
  {| kv := {| table := "params" |};
     _name_key := name_key; _value_key := value_key |}.

(** ["pw"] in fullwidth letters, U+FF50 U+FF57. *)
Definition fullwidth_pw : string :=
  String (ascii_of_nat 239) (String (ascii_of_nat 189)
    (String (ascii_of_nat 144)
       (String (ascii_of_nat 239) (String (ascii_of_nat 189)
          (String (ascii_of_nat 151) EmptyString))))).

Definition session : list op :=
  [ SetItem (JStr "a") (JInt 1); SetItem (JStr "b") (JInt 2);
    SetItem (JStr "c") (JInt 3); DelItem (JStr "b");
    SetItem (JStr "a") (JArr [JInt 4; JNull]) ].

(** A process started with the environment [env], on the database and
    the surroundings of [w]. *)
Definition started_with (env : list (string * string)) (w : World) : World :=
  {| environ := env; config := config_py env;
     tkv := tkv w; tty := tty w;
     urandom := urandom w; drawn := drawn w;
     keyring_usable := keyring_usable w;
     keyring_items := keyring_items w; devices := devices w;
     ssm_parameters := ssm_parameters w; params_ps := None;
     trace := [] |}.

(** The password is in [PARCI_PARAMETER_DB_PASSWORD]. *)
Definition configured : World :=
  started_with [("PARCI_PARAMETER_DB_PASSWORD", "pw")] initialized.

(** A driver that does not exist. *)
Definition misconfigured : World :=
  started_with [("PARCI_PARAMETER_DRIVER", "etcd")] initialized.

(** The AWS driver, with a prefix written carelessly. *)
Definition on_aws : World :=
  started_with [("PARCI_PARAMETER_DRIVER", "aws-ssm");
                ("PARCI_PARAMETER_STORE_SSM_PREFIX", "parci/prod//")] fresh.

(** The database with a row that somebody edited by hand. *)
Definition edited : World :=
  set_tkv initialized
    ({| table_name := "config"; key := "notes"; value := "{" |}
     :: tkv initialized).

(** A later process on the database that [w] left. *)
Definition later (w : World) : World := set_tkv configured (tkv w).

Definition console : Console :=
  {| stdin_isatty := true; stdin := "s3cret"; stdout := []; stderr := [] |}.

(** [parci param set token abc123] and [parci param set token]. *)
Definition token_given : Namespace :=
  {| args_name := "token"; args_value := Some "abc123";
     args_json := false; args_slot := TWO |}.

Definition token_piped : Namespace :=
  {| args_name := "token"; args_value := None;
     args_json := false; args_slot := TWO |}.

(** [parci param set --json limits '{'] *)
Definition limits_broken : Namespace :=
  {| args_name := "limits"; args_value := Some "{";
     args_json := true; args_slot := TWO |}.

End Sample.

(** * Properties *)

(** ** Running computations *)

Lemma bind_Ok {A B} (m : M A) (f : A -> M B) w a w' :
  m w = (Ok a, w') -> bind m f w = f a w'.
Proof. unfold bind; intros ->; reflexivity. Qed.

Lemma bind_Err {A B} (m : M A) (f : A -> M B) w e w' :
  m w = (Err e, w') -> bind m f w = (Err e, w').
Proof. unfold bind; intros ->; reflexivity. Qed.

Lemma len_nonneg {A} (l : list A) : 0 <= len l.
Proof. unfold len; lia. Qed.

Lemma len_app {A} (a b : list A) : len (a ++ b) = len a + len b.
Proof. unfold len; rewrite length_app; lia. Qed.

(** ** Reading a part of a world reached by known steps *)

Ltac world :=
  cbn [environ config tkv tty urandom drawn keyring_usable keyring_items
       devices ssm_parameters params_ps trace
       log advance update_tkv keyring_store
       set_tkv set_tty set_drawn set_keyring_items set_trace set_config
       set_ssm_parameters set_params_ps
       connected prompted drew wrote].

(** Replacing a part [t] of a later world by what it is in terms of the
    world the run started from. *)
Ltac settle t :=
  let E := fresh "E" in
  eassert (E : t = _) by (world; reflexivity);
  rewrite E; clear E.

(** ** The read-only gate of the local store *)

Section Gate.
Context {P : Primitives}.

Lemma setitem_read_only (self : ParameterStore.t) item value w :
  PARAMETER_READ_ONLY (config w) = true ->
  ParameterStore.__setitem__ self item value w
  = (Err (KeyError "ParameterStore is read-only"), w).
Proof.
  intros H. unfold ParameterStore.__setitem__, bind, get_config.
  rewrite H. reflexivity.
Qed.

Lemma delitem_read_only (self : ParameterStore.t) item w :
  PARAMETER_READ_ONLY (config w) = true ->
  ParameterStore.__delitem__ self item w
  = (Err (KeyError "ParameterStore is read-only"), w).
Proof.
  intros H. unfold ParameterStore.__delitem__, bind, get_config.
  rewrite H. reflexivity.
Qed.

End Gate.

(** C3. While [config.PARAMETER_READ_ONLY] is set, and [config.py] sets
    it whatever the environment, [__setitem__] and [__delitem__] of the
    local store raise the read-only [KeyError] for every name and value
    and leave the world as it was: no row of [tkv] is written, deleted or
    modified, and nothing else happens either. *)
Theorem read_only_rejects_writes {P : Primitives}
  (self : ParameterStore.t) (name value : json) (w : World) :
  PARAMETER_READ_ONLY (config w) = true ->
  (forall environ, PARAMETER_READ_ONLY (config_py environ) = true)
  /\ ParameterStore.__setitem__ self name value w
     = (Err (KeyError "ParameterStore is read-only"), w)
  /\ ParameterStore.__delitem__ self name w
     = (Err (KeyError "ParameterStore is read-only"), w)
  /\ tkv (snd (ParameterStore.__setitem__ self name value w)) = tkv w
  /\ tkv (snd (ParameterStore.__delitem__ self name w)) = tkv w.
Proof.
  intros H.
  rewrite (setitem_read_only self name value w H).
  rewrite (delitem_read_only self name w H).
  repeat split.
Qed.

(** ** The interceptor *)

(** C9. While [config.PARAMETER_READ_ONLY] is set, [__setitem__] and
    [__delitem__] of the interceptor raise [ParameterStoreException] and
    leave the whole world as it was: the trace gains no event (no database
    connection or commit, no password prompt, no keyring or device
    access), no row changes, and [_ps] keeps its value, so an interceptor
    that had no backend loaded still has none. *)
Theorem interceptor_rejects_before_loading {P : Primitives}
  (key value : json) (w : World) :
  PARAMETER_READ_ONLY (config w) = true ->
  ParameterStoreInterceptor.__setitem__ key value w
  = (Err (ParameterStoreException "config.PARAMETER_READ_ONLY is set to true"), w)
  /\ ParameterStoreInterceptor.__delitem__ key w
     = (Err (ParameterStoreException "config.PARAMETER_READ_ONLY is set to true"), w)
  /\ (params_ps w = None ->
      params_ps (snd (ParameterStoreInterceptor.__setitem__ key value w)) = None
      /\ params_ps (snd (ParameterStoreInterceptor.__delitem__ key w)) = None)
  /\ trace (snd (ParameterStoreInterceptor.__setitem__ key value w)) = trace w
  /\ trace (snd (ParameterStoreInterceptor.__delitem__ key w)) = trace w
  /\ tty (snd (ParameterStoreInterceptor.__setitem__ key value w)) = tty w
  /\ tty (snd (ParameterStoreInterceptor.__delitem__ key w)) = tty w.
Proof.
  intros H.
  assert (Hs : ParameterStoreInterceptor.__setitem__ key value w
               = (Err (ParameterStoreException
                         "config.PARAMETER_READ_ONLY is set to true"), w)).
  { unfold ParameterStoreInterceptor.__setitem__, bind, get_config.
    rewrite H. reflexivity. }
  assert (Hd : ParameterStoreInterceptor.__delitem__ key w
               = (Err (ParameterStoreException
                         "config.PARAMETER_READ_ONLY is set to true"), w)).
  { unfold ParameterStoreInterceptor.__delitem__, bind, get_config.
    rewrite H. reflexivity. }
  rewrite Hs, Hd. cbn. tauto.
Qed.

(** ** Lookups *)

Section Lookup.
Context {P : Primitives} {PS : PrimitivesSpec P}.

Lemma calc_key_defined (self : ParameterStore.t) (item : json) w :
  len (_name_key self) <= BLAKE2B_KEYBYTES_MAX ->
  exists d,
    blake2b_hex (list_byte_of_string (json_dumps item)) (_name_key self)
    = Some d
    /\ ParameterStore._calc_key self item w = (Ok d, w).
Proof.
  intros H. unfold ParameterStore._calc_key.
  destruct (blake2b_hex _ _) as [d|] eqn:E.
  - exists d. split; reflexivity.
  - exfalso. eapply blake2b_accepts; eauto.
Qed.

Lemma SecretBox_init (k : bytes) w :
  len k = KEY_SIZE ->
  SecretBox.__init__ k w = (Ok {| SecretBox._key := k |}, w).
Proof.
  intros H. unfold SecretBox.__init__. rewrite H. reflexivity.
Qed.

Lemma getitem_missing (self : ParameterStore.t) (name : json) d w :
  ParameterStore._calc_key self name w = (Ok d, w) ->
  len (_value_key self) = KEY_SIZE ->
  select_value (table (kv self)) d (tkv w) = [] ->
  ParameterStore.__getitem__ self name w
  = (Err (KeyError "Key does not exist"), w).
Proof.
  intros Hd Hk Hrow. unfold ParameterStore.__getitem__.
  rewrite (bind_Ok _ _ _ _ _ Hd).
  rewrite (bind_Ok _ _ _ _ _ (SecretBox_init _ w Hk)).
  unfold SqliteKV.__getitem__, bind, db_query. rewrite Hrow. reflexivity.
Qed.

End Lookup.

(** C4. With keys of the sizes the libraries accept, looking up a name
    under whose digest the table of the store holds no row raises
    [KeyError "Key does not exist"], no other exception, and changes
    nothing. *)
Theorem get_of_unset_name_is_KeyError {P : Primitives} {PS : PrimitivesSpec P}
  (self : ParameterStore.t) (name : json) (w : World) :
  len (_name_key self) = KEY_SIZE ->
  len (_value_key self) = KEY_SIZE ->
  (forall d, ParameterStore._calc_key self name w = (Ok d, w) ->
             select_value (table (kv self)) d (tkv w) = []) ->
  ParameterStore.__getitem__ self name w
  = (Err (KeyError "Key does not exist"), w).
Proof.
  intros Hn Hv Hrow.
  destruct (calc_key_defined self name w) as (d & _ & Hd).
  { rewrite Hn. discriminate. }
  apply getitem_missing with d; auto.
Qed.

(** C10. The rejection of a write by the read-only gate of the local
    store and the lookup of a name that has no row raise exceptions of
    one class, [KeyError]; only the message tells them apart. *)
Theorem read_only_and_missing_are_both_KeyError
  {P : Primitives} {PS : PrimitivesSpec P}
  (self : ParameterStore.t) (name value missing : json) (w w' : World) :
  PARAMETER_READ_ONLY (config w) = true ->
  len (_name_key self) = KEY_SIZE ->
  len (_value_key self) = KEY_SIZE ->
  (forall d, ParameterStore._calc_key self missing w' = (Ok d, w') ->
             select_value (table (kv self)) d (tkv w') = []) ->
  exists e_set e_del e_get,
    fst (ParameterStore.__setitem__ self name value w) = Err e_set
    /\ fst (ParameterStore.__delitem__ self name w) = Err e_del
    /\ fst (ParameterStore.__getitem__ self missing w') = Err e_get
    /\ type_of e_set = cKeyError
    /\ type_of e_del = cKeyError
    /\ type_of e_get = type_of e_set.
Proof.
  intros Hro Hn Hv Hrow.
  rewrite (setitem_read_only self name value w Hro).
  rewrite (delitem_read_only self name w Hro).
  destruct (calc_key_defined self missing w') as (d & _ & Hd).
  { rewrite Hn. discriminate. }
  rewrite (getitem_missing self missing d w' Hd Hv (Hrow d Hd)).
  do 3 eexists. cbn. repeat split; reflexivity.
Qed.

(** ** Sealed boxes and codecs *)

Lemma firstn_exact {A} (a b : list A) : firstn (List.length a) (a ++ b) = a.
Proof. induction a; cbn; congruence. Qed.

Lemma skipn_exact {A} (a b : list A) : skipn (List.length a) (a ++ b) = b.
Proof. induction a; cbn; congruence. Qed.

Lemma len_to_nat {A} (l : list A) n : len l = n -> Z.to_nat n = List.length l.
Proof. unfold len; intros <-; lia. Qed.

Lemma utils_random_run (n : Z) w :
  utils_random n w = (Ok (random_bytes (urandom w) (drawn w) n), drew n w).
Proof. reflexivity. Qed.

Lemma len_random (f : nat -> byte) (start : nat) (n : Z) :
  0 <= n -> len (random_bytes f start n) = n.
Proof.
  intros H. unfold len, random_bytes. rewrite length_map, length_seq. lia.
Qed.

Section Sealing.
Context {P : Primitives} {PS : PrimitivesSpec P}.

Lemma SecretBox_encrypt (k m n : bytes) w :
  len n = NONCE_SIZE ->
  SecretBox.encrypt {| SecretBox._key := k |} m n w
  = (Ok (n ++ crypto_secretbox m n k), w).
Proof. intros H. unfold SecretBox.encrypt. rewrite H. reflexivity. Qed.

Lemma SecretBox_decrypt_encrypt (k m n : bytes) w :
  len k = KEY_SIZE -> len n = NONCE_SIZE ->
  SecretBox.decrypt {| SecretBox._key := k |}
    (n ++ crypto_secretbox m n k) w
  = (Ok m, w).
Proof.
  intros Hk Hn. unfold SecretBox.decrypt.
  rewrite (len_to_nat n NONCE_SIZE Hn), firstn_exact, skipn_exact, Hn.
  cbn. rewrite secretbox_open_seal by assumption. reflexivity.
Qed.

Lemma decode_encode_bytes (b : bytes) w :
  decode_bytes (encode_bytes b) w = (Ok b, w).
Proof.
  unfold decode_bytes, encode_bytes. rewrite b64decode_b64encode.
  reflexivity.
Qed.

Lemma loads_dumps (v : json) w :
  wf_json v = true ->
  ParameterStore.loads (list_byte_of_string (json_dumps v)) w = (Ok v, w).
Proof.
  intros H. unfold ParameterStore.loads.
  rewrite string_of_list_byte_of_string, json_loads_dumps by assumption.
  reflexivity.
Qed.

End Sealing.

(** ** The table [tkv] *)

Lemma select_value_insert_same table item v rows :
  exists others,
    select_value table item (insert_or_update table item v rows)
    = v :: others.
Proof.
  unfold select_value. induction rows as [|r rows IH]; cbn.
  - unfold row_matches; cbn. rewrite !String.eqb_refl. cbn. eauto.
  - destruct (row_matches table item r) eqn:E; cbn.
    + unfold row_matches at 1; cbn. rewrite !String.eqb_refl. cbn. eauto.
    + rewrite E. exact IH.
Qed.

Lemma row_matches_new table item v table' item' :
  row_matches table' item'
    {| table_name := table; key := item; value := v |}
  = String.eqb table table' && String.eqb item item'.
Proof. reflexivity. Qed.

Lemma row_matches_other table item table' item' r :
  String.eqb table table' && String.eqb item item' = false ->
  row_matches table item r = true ->
  row_matches table' item' r = false.
Proof.
  unfold row_matches. intros Hne Hm.
  apply andb_true_iff in Hm. destruct Hm as [Ht Hk].
  apply String.eqb_eq in Ht, Hk. subst. exact Hne.
Qed.

Lemma filter_insert_other table item v table' item' rows :
  String.eqb table table' && String.eqb item item' = false ->
  filter (row_matches table' item') (insert_or_update table item v rows)
  = filter (row_matches table' item') rows.
Proof.
  intros Hne. induction rows as [|r rows IH]; cbn.
  - rewrite row_matches_new, Hne. reflexivity.
  - destruct (row_matches table item r) eqn:E; cbn.
    + rewrite row_matches_new, Hne.
      rewrite (row_matches_other _ _ _ _ r Hne E). reflexivity.
    + rewrite IH. reflexivity.
Qed.

Lemma select_value_insert_other table item v table' item' rows :
  String.eqb table table' && String.eqb item item' = false ->
  select_value table' item' (insert_or_update table item v rows)
  = select_value table' item' rows.
Proof.
  intros H. unfold select_value. rewrite filter_insert_other; auto.
Qed.

Lemma select_key_insert_other table item v table' item' rows :
  String.eqb table table' && String.eqb item item' = false ->
  select_key table' item' (insert_or_update table item v rows)
  = select_key table' item' rows.
Proof.
  intros H. unfold select_key. rewrite filter_insert_other; auto.
Qed.

(** ** Writing, then reading *)




(** ** Computations that neither read nor change the world *)

Lemma pure_ret {A} (a : A) : pure (ret a).
Proof. intro w; reflexivity. Qed.

Lemma pure_raise {A} (e : exn) : pure (@raise A e).
Proof. intro w; reflexivity. Qed.

Lemma pure_orelse {A} (o : option A) e : pure (orelse o e).
Proof. destruct o; intro w; reflexivity. Qed.

Lemma pure_bind {A B} (m : M A) (f : A -> M B) :
  pure m -> (forall a, pure (f a)) -> pure (bind m f).
Proof.
  intros Hm Hf w. unfold value_of, bind. rewrite (Hm w), (Hm nowhere).
  destruct (value_of m) as [a|e]; [|reflexivity].
  rewrite (Hf a w), (Hf a nowhere). reflexivity.
Qed.

Lemma bind_pure {A B} (m : M A) (f : A -> M B) w :
  pure m ->
  bind m f w = match value_of m with
               | Ok a => f a w
               | Err e => (Err e, w)
               end.
Proof. intros Hm. unfold bind. rewrite (Hm w). reflexivity. Qed.

Lemma value_of_bind {A B} (m : M A) (f : A -> M B) :
  pure m ->
  value_of (bind m f) = match value_of m with
                        | Ok a => value_of (f a)
                        | Err e => Err e
                        end.
Proof.
  intros Hm. unfold value_of at 1. rewrite bind_pure by assumption.
  destruct (value_of m); reflexivity.
Qed.

Ltac pure_tac :=
  repeat first
    [ apply pure_ret
    | apply pure_raise
    | apply pure_orelse
    | apply pure_bind
    | match goal with |- forall _, _ => intro end
    | match goal with
      | |- pure (match ?x with _ => _ end) => destruct x
      | |- pure (if ?x then _ else _) => destruct x
      end ].

Section PureSteps.
Context {P : Primitives}.

Lemma pure_decode_bytes s : pure (decode_bytes s).
Proof. unfold decode_bytes. pure_tac. Qed.

Lemma pure_subscript d k : pure (subscript d k).
Proof. unfold subscript. pure_tac. Qed.

Lemma pure_as_str v : pure (as_str v).
Proof. unfold as_str. pure_tac. Qed.

Lemma pure_as_int v : pure (as_int v).
Proof. unfold as_int. pure_tac. Qed.

Lemma pure_decoded d k : pure (decoded d k).
Proof.
  unfold decoded.
  repeat first [apply pure_bind | apply pure_subscript
               | apply pure_as_str | apply pure_decode_bytes
               | match goal with |- forall _, _ => intro end].
Qed.

Lemma pure_int_field d k : pure (int_field d k).
Proof.
  unfold int_field.
  repeat first [apply pure_bind | apply pure_subscript
               | apply pure_as_int
               | match goal with |- forall _, _ => intro end].
Qed.

Lemma pure_get_user_decrypt_key pw salt ks ops mem :
  pure (get_user_decrypt_key pw salt ks ops mem).
Proof. unfold get_user_decrypt_key. pure_tac. Qed.

Lemma pure_SecretBox_init k : pure (SecretBox.__init__ k).
Proof. unfold SecretBox.__init__. pure_tac. Qed.

Lemma pure_SecretBox_encrypt b m n : pure (SecretBox.encrypt b m n).
Proof. unfold SecretBox.encrypt. pure_tac. Qed.

Lemma pure_SecretBox_decrypt b c : pure (SecretBox.decrypt b c).
Proof. unfold SecretBox.decrypt. cbv zeta. pure_tac. Qed.

Lemma pure_loads b : pure (ParameterStore.loads b).
Proof. unfold ParameterStore.loads. pure_tac. Qed.

Lemma pure_subscript_1 x : pure (subscript_1 x).
Proof. unfold subscript_1. pure_tac. Qed.

Lemma pure_unpack_2 x : pure (unpack_2 x).
Proof. unfold unpack_2. cbv zeta. pure_tac. Qed.

Lemma pure_SLOT_of v : pure (SLOT_of v).
Proof. unfold SLOT_of. pure_tac. Qed.

Lemma pure_calc_key self item : pure (ParameterStore._calc_key self item).
Proof. unfold ParameterStore._calc_key. cbv zeta. pure_tac. Qed.

End PureSteps.

Ltac pure_step :=
  first [ apply pure_bind | apply pure_ret | apply pure_raise
        | apply pure_orelse | apply pure_decoded | apply pure_int_field
        | apply pure_get_user_decrypt_key | apply pure_SecretBox_init
        | apply pure_SecretBox_decrypt | apply pure_SecretBox_encrypt
        | apply pure_decode_bytes | apply pure_subscript
        | apply pure_SLOT_of | apply pure_as_int | apply pure_as_str
        | match goal with |- forall _, _ => intro end ].

Section PasswordFacts.
Context {P : Primitives}.

Lemma get_keys_by_password_body password :
  get_keys_by_password password
  = (config_db <- SqliteKV.__init__ "config" true ;;
     password_config <- SqliteKV.__getitem__ config_db "password" ;;
     password_tail password_config (ask_password password)).
Proof. reflexivity. Qed.

Lemma pure_password_tail pc pw : pure (password_tail pc (ret pw)).
Proof. unfold password_tail. repeat pure_step. Qed.

Lemma SqliteKV_init_run table b w :
  SqliteKV.__init__ table b w = (Ok {| table := table |}, connected table w).
Proof. reflexivity. Qed.

Lemma SqliteKV_getitem_run {b} (self : SqliteKV.t b) item w :
  SqliteKV.__getitem__ self item w
  = (match select_value (table self) item (tkv w) with
     | v :: _ => SqliteKV.load b v
     | [] => Err (KeyError "Key does not exist")
     end, w).
Proof.
  unfold SqliteKV.__getitem__, bind, db_query.
  destruct (select_value _ _ _); [reflexivity|].
  unfold SqliteKV.serialize_values.
  destruct (SqliteKV.load b s); reflexivity.
Qed.

Lemma get_keys_by_password_given pw w :
  get_keys_by_password (Some pw) w
  = (unlock_with_password (select_value "config" "password" (tkv w)) pw,
     connected "config" w).
Proof.
  rewrite get_keys_by_password_body.
  rewrite (bind_Ok _ _ _ _ _ (SqliteKV_init_run _ _ w)).
  unfold bind at 1. rewrite SqliteKV_getitem_run.
  cbn [table tkv connected set_trace]. unfold unlock_with_password.
  destruct (select_value _ _ _) as [|v ?]; [reflexivity|].
  destruct (SqliteKV.load true v) as [pc|e]; [|reflexivity].
  apply pure_password_tail.
Qed.

Lemma getpass_run prompt w line rest :
  tty w = line :: rest ->
  getpass prompt w = (Ok line, prompted prompt rest w).
Proof.
  intros H. unfold getpass, bind, emit. world. rewrite H. reflexivity.
Qed.

End PasswordFacts.

(** ** Records and what unlocks them *)

Lemma value_of_run {A} (m : M A) r w' : m nowhere = (r, w') -> value_of m = r.
Proof. unfold value_of. intros ->. reflexivity. Qed.

Ltac side := first [reflexivity | assumption | solve [repeat pure_step]].

Section Records.
Context {P : Primitives} {PS : PrimitivesSpec P}.

Lemma value_of_decoded kvs k b :
  assoc k kvs = Some (JStr (encode_bytes b)) ->
  value_of (decoded (JObj kvs) k) = Ok b.
Proof.
  intros H. unfold decoded, value_of, bind, subscript. rewrite H. cbn.
  rewrite decode_encode_bytes. reflexivity.
Qed.

Lemma value_of_int_field kvs k n :
  assoc k kvs = Some (JInt n) ->
  value_of (int_field (JObj kvs) k) = Ok n.
Proof.
  intros H. unfold int_field, value_of, bind, subscript. rewrite H.
  reflexivity.
Qed.

Lemma value_of_kdf pw salt ks ops mem kek :
  argon2id_kdf ks pw salt ops mem = Some kek ->
  value_of (get_user_decrypt_key pw salt ks ops mem) = Ok kek.
Proof.
  intros H. unfold get_user_decrypt_key, value_of. rewrite H. reflexivity.
Qed.

Lemma value_of_SecretBox_init k :
  len k = KEY_SIZE ->
  value_of (SecretBox.__init__ k) = Ok {| SecretBox._key := k |}.
Proof. intros H. eapply value_of_run, SecretBox_init, H. Qed.

Lemma value_of_unseal kek key nonce :
  len kek = KEY_SIZE -> len nonce = NONCE_SIZE ->
  value_of (SecretBox.decrypt {| SecretBox._key := kek |}
              (sealed kek key nonce)) = Ok key.
Proof.
  intros Hk Hn. eapply value_of_run.
  apply SecretBox_decrypt_encrypt; assumption.
Qed.

Lemma load_dumps (v : json) :
  wf_json v = true -> SqliteKV.load true (json_dumps v) = Ok v.
Proof.
  intros H. unfold SqliteKV.load. rewrite json_loads_dumps by assumption.
  reflexivity.
Qed.

(** The record [init] writes is unlocked by every password whose NFKC
    form derives the key it was sealed with. *)
Lemma unlock_password_record salt kek nk nn vk vn others pw :
  argon2id_kdf KEY_SIZE (list_byte_of_string (NFKC pw)) salt
    OPSLIMIT_SENSITIVE MEMLIMIT_SENSITIVE = Some kek ->
  len nn = NONCE_SIZE -> len vn = NONCE_SIZE ->
  unlock_with_password
    (json_dumps (password_record salt kek nk nn vk vn) :: others) pw
  = Ok (nk, vk).
Proof.
  intros Hkdf Hnn Hvn.
  assert (Hkek : len kek = KEY_SIZE) by (eapply argon2id_kdf_size; eauto).
  unfold unlock_with_password. rewrite load_dumps by reflexivity.
  unfold password_tail, password_record.
  rewrite value_of_bind, (value_of_decoded _ "salt" salt)
    by side.
  rewrite value_of_bind, (value_of_decoded _ "name_key" (sealed kek nk nn))
    by side.
  rewrite value_of_bind, (value_of_decoded _ "value_key" (sealed kek vk vn))
    by side.
  rewrite value_of_bind by side. cbn [value_of ret fst].
  rewrite value_of_bind, (value_of_int_field _ "keysize" KEY_SIZE)
    by side.
  rewrite value_of_bind,
    (value_of_int_field _ "opslimit" OPSLIMIT_SENSITIVE)
    by side.
  rewrite value_of_bind,
    (value_of_int_field _ "memlimit" MEMLIMIT_SENSITIVE)
    by side.
  rewrite value_of_bind, (value_of_kdf _ _ _ _ _ kek Hkdf)
    by side.
  rewrite value_of_bind, value_of_SecretBox_init
    by side.
  rewrite value_of_bind, value_of_unseal
    by side.
  rewrite value_of_bind, value_of_unseal
    by side.
  reflexivity.
Qed.

End Records.

(** ** Initialization *)

(** After [utils.random]: the bytes drawn, in terms of the first world. *)
Ltac settled :=
  match goal with
  | |- context [random_bytes (urandom ?W) (drawn ?W) ?n] =>
      settle (random_bytes (urandom W) (drawn W) n)
  end.

Section Init.
Context {P : Primitives} {PS : PrimitivesSpec P}.

Lemma SqliteKV_contains_run {b} (self : SqliteKV.t b) item w :
  SqliteKV.__contains__ self item w
  = (Ok (match select_key (table self) item (tkv w) with
         | [] => false
         | _ :: _ => true
         end), w).
Proof.
  unfold SqliteKV.__contains__, bind, db_query.
  destruct (select_key _ _ _); reflexivity.
Qed.

Lemma SqliteKV_setitem_run {b} (self : SqliteKV.t b) item v w :
  SqliteKV.__setitem__ self item v w
  = (Ok (SqliteKV.dump b v),
     wrote (table self) item (SqliteKV.dump b v) w).
Proof. reflexivity. Qed.

Lemma SqliteKV_contains_absent {b} (self : SqliteKV.t b) item w :
  select_key (table self) item (tkv w) = [] ->
  SqliteKV.__contains__ self item w = (Ok false, w).
Proof. intros H. rewrite SqliteKV_contains_run, H. reflexivity. Qed.

Lemma SqliteKV_contains_present {b} (self : SqliteKV.t b) item w :
  select_key (table self) item (tkv w) <> [] ->
  SqliteKV.__contains__ self item w = (Ok true, w).
Proof.
  intros H. rewrite SqliteKV_contains_run.
  destruct (select_key _ _ _); [congruence|reflexivity].
Qed.

Lemma emit_run ev w : emit ev w = (Ok tt, log ev w).
Proof. reflexivity. Qed.

Lemma init_already_initialized w :
  select_key "config" "password" (tkv w) <> [] ->
  exists w',
    init w = (Err (ValueError "Database already initialized"), w')
    /\ tkv w' = tkv w /\ drawn w' = drawn w /\ tty w' = tty w
    /\ keyring_items w' = keyring_items w.
Proof.
  intros H. unfold init.
  rewrite (bind_Ok _ _ _ _ _ (emit_run _ w)).
  rewrite (bind_Ok _ _ _ _ _ (SqliteKV_init_run _ _ _)).
  erewrite bind_Ok
    by (apply SqliteKV_contains_present; cbn [table]; world; exact H).
  cbv iota.
  eexists. split; [reflexivity|]. world. repeat split.
Qed.

Lemma init_mismatch w p1 p2 rest :
  select_key "config" "password" (tkv w) = [] ->
  tty w = p1 :: p2 :: rest ->
  p1 <> p2 ->
  exists w',
    init w = (Err (ValueError "Passwords do not match"), w')
    /\ tkv w' = tkv w /\ drawn w' = drawn w
    /\ keyring_items w' = keyring_items w.
Proof.
  intros H Htty Hne. unfold init.
  rewrite (bind_Ok _ _ _ _ _ (emit_run _ w)).
  rewrite (bind_Ok _ _ _ _ _ (SqliteKV_init_run _ _ _)).
  erewrite bind_Ok
    by (apply SqliteKV_contains_absent; cbn [table]; world; exact H).
  cbv iota.
  erewrite bind_Ok by (apply getpass_run; world; exact Htty).
  erewrite bind_Ok by (apply getpass_run; world; reflexivity).
  apply String.eqb_neq in Hne. rewrite Hne. cbn [negb].
  eexists. split; [reflexivity|]. world. repeat split.
Qed.

Lemma init_fresh w p rest :
  select_key "config" "password" (tkv w) = [] ->
  tty w = p :: p :: rest ->
  exists kek w',
    let salt := random_bytes (urandom w) (drawn w) SALTBYTES in
    let nk := random_bytes (urandom w) (drawn w + 16) KEY_SIZE in
    let nn := random_bytes (urandom w) (drawn w + 48) NONCE_SIZE in
    let vk := random_bytes (urandom w) (drawn w + 72) KEY_SIZE in
    let vn := random_bytes (urandom w) (drawn w + 104) NONCE_SIZE in
    init w = (Ok tt, w')
    /\ argon2id_kdf KEY_SIZE (list_byte_of_string (NFKC p)) salt
         OPSLIMIT_SENSITIVE MEMLIMIT_SENSITIVE = Some kek
    /\ tkv w'
       = insert_or_update "config" "default-open-method"
           (json_dumps (JStr "password"))
           (insert_or_update "config" "password"
              (json_dumps (password_record salt kek nk nn vk vn))
              (tkv w))
    /\ tty w' = rest
    /\ drawn w' = (drawn w + 128)%nat
    /\ keyring_items w' = keyring_items w.
Proof.
  intros H Htty. unfold init.
  rewrite (bind_Ok _ _ _ _ _ (emit_run _ w)).
  rewrite (bind_Ok _ _ _ _ _ (SqliteKV_init_run _ _ _)).
  erewrite bind_Ok
    by (apply SqliteKV_contains_absent; cbn [table]; world; exact H).
  cbv iota.
  erewrite bind_Ok by (apply getpass_run; world; exact Htty).
  erewrite bind_Ok by (apply getpass_run; world; reflexivity).
  rewrite String.eqb_refl. cbn [negb].
  rewrite (bind_Ok _ _ _ _ _ (utils_random_run _ _)).
  settled.
  destruct (argon2id_kdf KEY_SIZE (list_byte_of_string (NFKC p))
              (random_bytes (urandom w) (drawn w) SALTBYTES)
              OPSLIMIT_SENSITIVE MEMLIMIT_SENSITIVE) as [kek|] eqn:Hkdf.
  2:{ exfalso. eapply argon2id_kdf_accepts; [|exact Hkdf].
      apply len_random. discriminate. }
  assert (Hkek : len kek = KEY_SIZE) by (eapply argon2id_kdf_size; eauto).
  rewrite bind_pure, (value_of_kdf _ _ _ _ _ kek Hkdf) by side.
  rewrite bind_pure, value_of_SecretBox_init by side.
  rewrite (bind_Ok _ _ _ _ _ (utils_random_run _ _)). settled.
  rewrite (bind_Ok _ _ _ _ _ (utils_random_run _ _)). settled.
  rewrite (bind_Ok _ _ _ _ _ (utils_random_run _ _)). settled.
  rewrite (bind_Ok _ _ _ _ _ (utils_random_run _ _)). settled.
  erewrite bind_Ok by (apply SecretBox_encrypt, len_random; discriminate).
  erewrite bind_Ok by (apply SecretBox_encrypt, len_random; discriminate).
  rewrite (bind_Ok _ _ _ _ _ (SqliteKV_setitem_run _ _ _ _)).
  rewrite (bind_Ok _ _ _ _ _ (SqliteKV_setitem_run _ _ _ _)).
  exists kek. eexists. cbv zeta. split; [reflexivity|].
  split; [first [exact Hkdf | reflexivity]|].
  world. cbn [table SqliteKV.dump].
  replace (drawn w + Z.to_nat SALTBYTES)%nat with (drawn w + 16)%nat
    by reflexivity.
  replace (drawn w + 16 + Z.to_nat KEY_SIZE)%nat with (drawn w + 48)%nat
    by (cbn; lia).
  replace (drawn w + 48 + Z.to_nat NONCE_SIZE)%nat with (drawn w + 72)%nat
    by (cbn; lia).
  replace (drawn w + 72 + Z.to_nat KEY_SIZE)%nat with (drawn w + 104)%nat
    by (cbn; lia).
  repeat split. cbn. lia.
Qed.

End Init.

(** ** Asking for the password *)

Section Asking.
Context {P : Primitives}.

(** Typing [pw] at the prompt unlocks what giving [pw] unlocks; the
    prompt only consumes the line, when it is reached. *)
Lemma get_keys_by_password_asked pw rest w :
  tty w = pw :: rest ->
  exists w',
    get_keys_by_password None w
    = (unlock_with_password (select_value "config" "password" (tkv w)) pw,
       w')
    /\ tkv w' = tkv w /\ drawn w' = drawn w /\ urandom w' = urandom w
    /\ keyring_usable w' = keyring_usable w
    /\ keyring_items w' = keyring_items w
    /\ devices w' = devices w /\ config w' = config w
    /\ (forall keys,
          unlock_with_password
            (select_value "config" "password" (tkv w)) pw = Ok keys ->
          tty w' = rest).
Proof.
  intros Htty.
  rewrite get_keys_by_password_body.
  rewrite (bind_Ok _ _ _ _ _ (SqliteKV_init_run _ _ w)).
  unfold bind at 1. rewrite SqliteKV_getitem_run.
  cbn [table]. settle (tkv (connected "config" w)).
  unfold unlock_with_password.
  destruct (select_value _ _ _) as [|v ?].
  { eexists. split; [reflexivity|]. world. repeat split. discriminate. }
  destruct (SqliteKV.load true v) as [pc|e].
  2:{ eexists. split; [reflexivity|]. world. repeat split. discriminate. }
  unfold password_tail. cbn [ask_password].
  do 3 (rewrite value_of_bind by apply pure_decoded;
        rewrite bind_pure by apply pure_decoded;
        destruct (value_of (decoded pc _));
        [|eexists; split; [reflexivity|]; world; repeat split;
          discriminate]).
  rewrite value_of_bind by apply pure_ret. cbn [value_of ret fst].
  erewrite bind_Ok by (apply getpass_run; world; exact Htty).
  match goal with
  | |- exists w', ?m ?W = _ /\ _ =>
      assert (Hp : pure m) by (repeat pure_step); rewrite (Hp W)
  end.
  eexists. split; [reflexivity|]. world. repeat split.
Qed.

End Asking.

Lemma select_key_insert_same table item v rows :
  select_key table item (insert_or_update table item v rows) <> [].
Proof.
  unfold select_key. induction rows as [|r rows IH]; cbn.
  - unfold row_matches; cbn. rewrite !String.eqb_refl. discriminate.
  - destruct (row_matches table item r) eqn:E; cbn.
    + unfold row_matches at 1; cbn. rewrite !String.eqb_refl. discriminate.
    + rewrite E. exact IH.
Qed.

Section AfterInit.
Context {P : Primitives} {PS : PrimitivesSpec P}.

(** In the table [init] leaves, the record under ["password"] is the
    one just written, and the default method is ["password"]. *)
Lemma select_password_after_init record rows :
  exists others,
    select_value "config" "password"
      (insert_or_update "config" "default-open-method"
         (json_dumps (JStr "password"))
         (insert_or_update "config" "password" record rows))
    = record :: others.
Proof.
  rewrite select_value_insert_other by reflexivity.
  apply select_value_insert_same.
Qed.

Lemma default_method_stored method w rows :
  tkv w = insert_or_update "config" "default-open-method"
            (json_dumps (JStr method)) rows ->
  SqliteKV.__getitem__ (b:=true) {| table := "config" |}
    "default-open-method" w
  = (Ok (JStr method), w).
Proof.
  intros H. rewrite SqliteKV_getitem_run. cbn [table]. rewrite H.
  destruct (select_value_insert_same "config" "default-open-method"
              (json_dumps (JStr method)) rows) as (others & ->).
  rewrite load_dumps by reflexivity. reflexivity.
Qed.

End AfterInit.

(** C6. [init] raises [ValueError "Database already initialized"] when
    the config table has a ["password"] record, and [ValueError "Passwords
    do not match"] when the two passwords typed differ; in both cases no
    row changes and no random byte is drawn.  When there is no record and
    the same password is typed twice it succeeds: the name key and the
    value key are 32 fresh random bytes each, the record written under
    ["password"] gives them back to that password, and the default open
    method is ["password"]. *)
Theorem init_checks_then_writes {P : Primitives} {PS : PrimitivesSpec P}
  (w : World) :
  (select_key "config" "password" (tkv w) <> [] ->
   exists w',
     init w = (Err (ValueError "Database already initialized"), w')
     /\ tkv w' = tkv w /\ drawn w' = drawn w)
  /\ (forall p1 p2 rest,
        select_key "config" "password" (tkv w) = [] ->
        tty w = p1 :: p2 :: rest ->
        p1 <> p2 ->
        exists w',
          init w = (Err (ValueError "Passwords do not match"), w')
          /\ tkv w' = tkv w /\ drawn w' = drawn w)
  /\ (forall p rest,
        select_key "config" "password" (tkv w) = [] ->
        tty w = p :: p :: rest ->
        exists w',
          let nk := random_bytes (urandom w) (drawn w + 16) KEY_SIZE in
          let vk := random_bytes (urandom w) (drawn w + 72) KEY_SIZE in
          init w = (Ok tt, w')
          /\ len nk = KEY_SIZE /\ len vk = KEY_SIZE
          /\ select_key "config" "password" (tkv w') <> []
          /\ fst (get_keys_by_password (Some p) w') = Ok (nk, vk)
          /\ fst (SqliteKV.__getitem__ (b:=true) {| table := "config" |}
                    "default-open-method" w') = Ok (JStr "password")).
Proof.
  split; [|split].
  - intros H. destruct (init_already_initialized w H) as (w' & ? & ? & ? & _).
    eauto.
  - intros p1 p2 rest H Htty Hne.
    destruct (init_mismatch w p1 p2 rest H Htty Hne) as (w' & ? & ? & ? & _).
    eauto.
  - intros p rest H Htty.
    destruct (init_fresh w p rest H Htty)
      as (kek & w' & Hrun & Hkdf & Htkv & _).
    cbv zeta in *. exists w'. split; [exact Hrun|].
    split; [apply len_random; discriminate|].
    split; [apply len_random; discriminate|].
    split.
    { rewrite Htkv. rewrite select_key_insert_other by reflexivity.
      apply select_key_insert_same. }
    split.
    { rewrite get_keys_by_password_given. cbn [fst].
      rewrite Htkv.
      match goal with
      | |- context [select_value _ _ (insert_or_update _ _ _
                                        (insert_or_update _ _ ?r ?rows))] =>
          destruct (select_password_after_init r rows) as (others & ->)
      end.
      apply unlock_password_record;
        [exact Hkdf | apply len_random; discriminate
        | apply len_random; discriminate]. }
    { erewrite default_method_stored by exact Htkv. reflexivity. }
Qed.

(** C7. [init] and [get_keys_by_password] both derive the key from the
    NFKC form of the password.  So two passwords with one NFKC form are
    treated alike: an unlock with either gives the same result, success
    or exception, whether the password is given or typed at the prompt;
    and a store initialized with one is sealed under the very key the
    other derives from the stored salt, and opens for both. *)
Theorem nfkc_equivalent_passwords_unlock_alike
  {P : Primitives} {PS : PrimitivesSpec P} (p1 p2 : string) :
  NFKC p1 = NFKC p2 ->
  (forall w, get_keys_by_password (Some p1) w
             = get_keys_by_password (Some p2) w)
  /\ (forall w rest,
        fst (get_keys_by_password None (set_tty w (p1 :: rest)))
        = fst (get_keys_by_password None (set_tty w (p2 :: rest))))
  /\ (forall w rest,
        select_key "config" "password" (tkv w) = [] ->
        tty w = p1 :: p1 :: rest ->
        exists salt kek nk nn vk vn others w',
          init w = (Ok tt, w')
          /\ select_value "config" "password" (tkv w')
             = json_dumps (password_record salt kek nk nn vk vn) :: others
          /\ argon2id_kdf KEY_SIZE (list_byte_of_string (NFKC p1)) salt
               OPSLIMIT_SENSITIVE MEMLIMIT_SENSITIVE = Some kek
          /\ argon2id_kdf KEY_SIZE (list_byte_of_string (NFKC p2)) salt
               OPSLIMIT_SENSITIVE MEMLIMIT_SENSITIVE = Some kek
          /\ fst (get_keys_by_password (Some p1) w') = Ok (nk, vk)
          /\ fst (get_keys_by_password (Some p2) w') = Ok (nk, vk)).
Proof.
  intros Heq.
  assert (Hunlock : forall rows,
             unlock_with_password rows p1 = unlock_with_password rows p2).
  { intros [|v rows]; [reflexivity|]. unfold unlock_with_password.
    destruct (SqliteKV.load true v) as [pc|e]; [|reflexivity].
    unfold password_tail.
    do 3 (rewrite !(value_of_bind (decoded pc _)) by apply pure_decoded;
          destruct (value_of (decoded pc _)); [|reflexivity]).
    rewrite !(value_of_bind (ret _)) by apply pure_ret.
    cbn [value_of ret fst]. rewrite Heq. reflexivity. }
  split; [|split].
  - intros w. rewrite !get_keys_by_password_given, Hunlock. reflexivity.
  - intros w rest.
    destruct (get_keys_by_password_asked p1 rest (set_tty w (p1 :: rest)))
      as (w1 & -> & _); [reflexivity|].
    destruct (get_keys_by_password_asked p2 rest (set_tty w (p2 :: rest)))
      as (w2 & -> & _); [reflexivity|].
    cbn [fst]. world. apply Hunlock.
  - intros w rest H Htty.
    destruct (init_fresh w p1 rest H Htty)
      as (kek & w' & Hrun & Hkdf & Htkv & _).
    cbv zeta in *.
    match type of Htkv with
    | _ = insert_or_update _ _ _ (insert_or_update _ _ ?r ?rows) =>
        destruct (select_password_after_init r rows) as (others & Hsel)
    end.
    rewrite <- Htkv in Hsel.
    do 6 eexists. exists others, w'.
    split; [exact Hrun|]. split; [exact Hsel|]. split; [exact Hkdf|].
    split; [rewrite <- Heq; exact Hkdf|].
    rewrite !get_keys_by_password_given. cbn [fst]. rewrite Hsel.
    split; apply unlock_password_record;
      first [ exact Hkdf | rewrite <- Heq; exact Hkdf
            | apply len_random; discriminate ].
Qed.

(** ** Unlocking by keyring and by YubiKey *)

Section OtherMethods.
Context {P : Primitives}.

Lemma get_keys_by_keyring_body :
  get_keys_by_keyring
  = (config_db <- SqliteKV.__init__ "config" true ;;
     kr_config <- SqliteKV.__getitem__ config_db "keyring" ;;
     keyring_tail kr_config (keyring_get_password "parci" "parci")).
Proof. reflexivity. Qed.

Lemma get_keys_by_yubikey_body :
  get_keys_by_yubikey
  = (config_db <- SqliteKV.__init__ "config" true ;;
     device <- first_device ;;
     yk_config <- SqliteKV.__getitem__ config_db (yubikey_key device) ;;
     yubikey_tail yk_config (get_yubikey_decrypt_key device)).
Proof. reflexivity. Qed.

Lemma pure_answer usable entry : pure (answer usable entry).
Proof. unfold answer. destruct usable; repeat pure_step. Qed.

Lemma pure_derive device slot challenge salt ks ops mem :
  pure (derive device slot challenge salt ks ops mem).
Proof. unfold derive. repeat pure_step. Qed.

Lemma keyring_get_password_run service username w :
  keyring_get_password service username w
  = (value_of (answer (keyring_usable w)
                 (keyring_lookup service username (keyring_items w))),
     log (EvKeyringGet service username) w).
Proof.
  unfold keyring_get_password, bind, emit, answer. world.
  destruct (keyring_usable w); reflexivity.
Qed.

Lemma get_yubikey_decrypt_key_run device slot challenge salt ks ops mem w :
  get_yubikey_decrypt_key device slot challenge salt ks ops mem w
  = (value_of (derive device slot challenge salt ks ops mem),
     log (EvChallenge slot) w).
Proof.
  unfold get_yubikey_decrypt_key.
  rewrite (bind_Ok _ _ _ _ _ (emit_run _ w)).
  apply (pure_derive device slot challenge salt ks ops mem).
Qed.

Lemma first_device_run w :
  first_device w
  = (match devices w with
     | d :: _ => Ok d
     | [] => Err IndexError
     end, log EvListDevices w).
Proof.
  unfold first_device, list_all_devices, bind, emit. world.
  destruct (devices w); reflexivity.
Qed.

Ltac done_here :=
  eexists; split; [reflexivity|]; world; repeat split.

Lemma get_keys_by_keyring_result w :
  exists w',
    get_keys_by_keyring w
    = (unlock_with_keyring (select_value "config" "keyring" (tkv w))
         (keyring_usable w)
         (keyring_lookup "parci" "parci" (keyring_items w)), w')
    /\ tkv w' = tkv w /\ tty w' = tty w /\ drawn w' = drawn w.
Proof.
  rewrite get_keys_by_keyring_body.
  rewrite (bind_Ok _ _ _ _ _ (SqliteKV_init_run _ _ w)).
  unfold bind at 1. rewrite SqliteKV_getitem_run.
  cbn [table]. settle (tkv (connected "config" w)).
  unfold unlock_with_keyring.
  destruct (select_value _ _ _) as [|v ?]; [done_here|].
  destruct (SqliteKV.load true v) as [pc|e]; [|done_here].
  unfold keyring_tail.
  do 2 (rewrite value_of_bind by apply pure_decoded;
        rewrite bind_pure by apply pure_decoded;
        destruct (value_of (decoded pc _)); [|done_here]).
  rewrite value_of_bind by apply pure_answer.
  unfold bind at 1. rewrite keyring_get_password_run.
  settle (keyring_usable (connected "config" w)).
  settle (keyring_items (connected "config" w)).
  destruct (value_of (answer _ _)) as [entry|e]; [|done_here].
  match goal with
  | |- exists w', ?m ?W = _ /\ _ =>
      assert (Hp : pure m)
        by (repeat first [pure_step
                         | match goal with
                           | |- pure (match ?x with _ => _ end) =>
                               destruct x
                           end]);
      rewrite (Hp W)
  end.
  done_here.
Qed.

Lemma get_keys_by_yubikey_result w :
  exists w',
    get_keys_by_yubikey w
    = (unlock_with_yubikey (devices w)
         (fun key => select_value "config" key (tkv w)), w')
    /\ tkv w' = tkv w /\ tty w' = tty w /\ drawn w' = drawn w.
Proof.
  rewrite get_keys_by_yubikey_body.
  rewrite (bind_Ok _ _ _ _ _ (SqliteKV_init_run _ _ w)).
  unfold bind at 1. rewrite first_device_run.
  settle (devices (connected "config" w)).
  unfold unlock_with_yubikey.
  destruct (devices w) as [|device ?]; [done_here|].
  unfold bind at 1. rewrite SqliteKV_getitem_run.
  cbn [table]. settle (tkv (log EvListDevices (connected "config" w))).
  destruct (select_value _ _ _) as [|v ?]; [done_here|].
  destruct (SqliteKV.load true v) as [pc|e]; [|done_here].
  unfold yubikey_tail.
  do 4 (rewrite value_of_bind by apply pure_decoded;
        rewrite bind_pure by apply pure_decoded;
        destruct (value_of (decoded pc _)); [|done_here]).
  rewrite value_of_bind by (repeat pure_step).
  rewrite bind_pure by (repeat pure_step).
  destruct (value_of (v0 <- subscript pc "slot";; SLOT_of v0));
    [|done_here].
  do 3 (rewrite value_of_bind by apply pure_int_field;
        rewrite bind_pure by apply pure_int_field;
        destruct (value_of (int_field pc _)); [|done_here]).
  rewrite value_of_bind by apply pure_derive.
  unfold bind at 1. rewrite get_yubikey_decrypt_key_run.
  destruct (value_of (derive _ _ _ _ _ _ _)) as [kek|e]; [|done_here].
  match goal with
  | |- exists w', ?m ?W = _ /\ _ =>
      assert (Hp : pure m) by (repeat pure_step); rewrite (Hp W)
  end.
  done_here.
Qed.

End OtherMethods.

(** ** Records of the other methods *)

Section OtherRecords.
Context {P : Primitives} {PS : PrimitivesSpec P}.

Lemma unlock_keyring_record kek nk nn vk vn others :
  len kek = KEY_SIZE -> len nn = NONCE_SIZE -> len vn = NONCE_SIZE ->
  unlock_with_keyring
    (json_dumps (keyring_record kek nk nn vk vn) :: others)
    true (Some (b64encode kek))
  = Ok (nk, vk).
Proof.
  intros Hkek Hnn Hvn.
  unfold unlock_with_keyring. rewrite load_dumps by reflexivity.
  unfold keyring_tail, keyring_record, answer.
  rewrite value_of_bind, (value_of_decoded _ "name_key" (sealed kek nk nn))
    by side.
  rewrite value_of_bind, (value_of_decoded _ "value_key" (sealed kek vk vn))
    by side.
  rewrite value_of_bind by side. cbn [value_of ret fst].
  rewrite value_of_bind by side.
  unfold value_of at 1, orelse. rewrite b64decode_b64encode. cbn [ret fst].
  rewrite value_of_bind, value_of_SecretBox_init by side.
  rewrite value_of_bind, value_of_unseal by side.
  rewrite value_of_bind, value_of_unseal by side.
  reflexivity.
Qed.

Lemma value_of_slot kvs slot :
  assoc "slot" kvs = Some (JInt (SLOT_value slot)) ->
  value_of (v <- subscript (JObj kvs) "slot" ;; SLOT_of v) = Ok slot.
Proof.
  intros H. unfold value_of, bind, subscript. rewrite H.
  destruct slot; reflexivity.
Qed.

Lemma value_of_derive device slot challenge salt response kek :
  calculate_hmac_sha1 device slot challenge = Some response ->
  argon2id_kdf KEY_SIZE response salt OPSLIMIT_SENSITIVE MEMLIMIT_SENSITIVE
  = Some kek ->
  value_of (derive device slot challenge salt KEY_SIZE
              OPSLIMIT_SENSITIVE MEMLIMIT_SENSITIVE) = Ok kek.
Proof.
  intros Hresp Hkdf. unfold value_of, derive, bind, orelse.
  rewrite Hresp. cbn [ret]. rewrite Hkdf. reflexivity.
Qed.

Lemma unlock_yubikey_record device slot challenge salt response kek
  nk nn vk vn others found rows_of :
  rows_of (yubikey_key device)
  = json_dumps (yubikey_record slot challenge salt kek nk nn vk vn)
    :: others ->
  calculate_hmac_sha1 device slot challenge = Some response ->
  argon2id_kdf KEY_SIZE response salt OPSLIMIT_SENSITIVE MEMLIMIT_SENSITIVE
  = Some kek ->
  len nn = NONCE_SIZE -> len vn = NONCE_SIZE ->
  unlock_with_yubikey (device :: found) rows_of = Ok (nk, vk).
Proof.
  intros Hrows Hresp Hkdf Hnn Hvn.
  assert (Hkek : len kek = KEY_SIZE) by (eapply argon2id_kdf_size; eauto).
  unfold unlock_with_yubikey. rewrite Hrows, load_dumps by reflexivity.
  unfold yubikey_tail, yubikey_record.
  rewrite value_of_bind, (value_of_decoded _ "challenge" challenge) by side.
  rewrite value_of_bind, (value_of_decoded _ "salt" salt) by side.
  rewrite value_of_bind, (value_of_decoded _ "name_key" (sealed kek nk nn))
    by side.
  rewrite value_of_bind, (value_of_decoded _ "value_key" (sealed kek vk vn))
    by side.
  rewrite value_of_bind, (value_of_slot _ slot) by side.
  rewrite value_of_bind, (value_of_int_field _ "keysize" KEY_SIZE) by side.
  rewrite value_of_bind,
    (value_of_int_field _ "opslimit" OPSLIMIT_SENSITIVE) by side.
  rewrite value_of_bind,
    (value_of_int_field _ "memlimit" MEMLIMIT_SENSITIVE) by side.
  rewrite value_of_bind, (value_of_derive _ _ _ _ response kek)
    by first [assumption | apply pure_derive].
  rewrite value_of_bind, value_of_SecretBox_init by side.
  rewrite value_of_bind, value_of_unseal by side.
  rewrite value_of_bind, value_of_unseal by side.
  reflexivity.
Qed.

Lemma pure_secret_tail box v : pure (secret_tail box v).
Proof.
  unfold secret_tail.
  repeat first [pure_step | apply pure_loads | apply pure_subscript_1].
Qed.

(** [__getitem__] of the local store reads nothing but the rows of its
    table, and changes nothing. *)
Lemma ParameterStore_getitem_run (self : ParameterStore.t) name w :
  ParameterStore.__getitem__ self name w
  = (read_secret self name
       (fun d => select_value (table (kv self)) d (tkv w)), w).
Proof.
  unfold ParameterStore.__getitem__, read_secret.
  rewrite bind_pure by apply pure_calc_key.
  destruct (value_of (ParameterStore._calc_key self name)) as [d|e];
    [|reflexivity].
  rewrite bind_pure by apply pure_SecretBox_init.
  destruct (value_of (SecretBox.__init__ _)) as [box|e]; [|reflexivity].
  unfold bind at 1. rewrite SqliteKV_getitem_run.
  destruct (select_value _ _ _) as [|v ?]; [reflexivity|].
  cbn [SqliteKV.load]. apply (pure_secret_tail box v).
Qed.

Lemma getitem_reads_its_table (self : ParameterStore.t) name w w' :
  (forall d, select_value (table (kv self)) d (tkv w')
             = select_value (table (kv self)) d (tkv w)) ->
  fst (ParameterStore.__getitem__ self name w')
  = fst (ParameterStore.__getitem__ self name w).
Proof.
  intros H. rewrite !ParameterStore_getitem_run. cbn [fst].
  unfold read_secret.
  destruct (value_of (ParameterStore._calc_key self name)) as [d|e];
    [|reflexivity].
  rewrite H. reflexivity.
Qed.

End OtherRecords.

(** ** Registering the keyring and a YubiKey *)

Section Registering.
Context {P : Primitives} {PS : PrimitivesSpec P}.

Lemma keyring_set_password_run service username password w :
  keyring_set_password service username password w
  = (if keyring_usable w then Ok tt else Err KeyringError,
     if keyring_usable w
     then keyring_store service username password
            (log (EvKeyringSet service username) w)
     else log (EvKeyringSet service username) w).
Proof.
  unfold keyring_set_password, bind, emit. world.
  destruct (keyring_usable w); reflexivity.
Qed.

(** [register_keyring] when the password typed unlocks the store: up
    to the call of the OS keyring nothing can fail, and the record is
    stored before that call. *)
Lemma register_keyring_run w pw rest nk vk :
  tty w = pw :: rest ->
  unlock_with_password (select_value "config" "password" (tkv w)) pw
  = Ok (nk, vk) ->
  exists w',
    let kek := random_bytes (urandom w) (drawn w) KEY_SIZE in
    let nn := random_bytes (urandom w) (drawn w + 32) NONCE_SIZE in
    let vn := random_bytes (urandom w) (drawn w + 56) NONCE_SIZE in
    let stored :=
      insert_or_update "config" "keyring"
        (json_dumps (keyring_record kek nk nn vk vn)) (tkv w) in
    register_keyring w
    = (if keyring_usable w then Ok tt else Err KeyringError, w')
    /\ tkv w'
       = (if keyring_usable w
          then insert_or_update "config" "default-open-method"
                 (json_dumps (JStr "keyring")) stored
          else stored)
    /\ keyring_items w'
       = (if keyring_usable w
          then keyring_replace "parci" "parci" (b64encode kek)
                 (keyring_items w)
          else keyring_items w)
    /\ keyring_usable w' = keyring_usable w
    /\ devices w' = devices w
    /\ config w' = config w.
Proof.
  intros Htty Hunlock.
  destruct (get_keys_by_password_asked pw rest w Htty)
    as (w1 & Hrun & Htkv & Hdrawn & Hurandom & Husable & Hitems & Hdev
        & Hcfg & _).
  rewrite Hunlock in Hrun.
  unfold register_keyring.
  rewrite (bind_Ok _ _ _ _ _ Hrun).
  rewrite (bind_Ok _ _ _ _ _ (utils_random_run _ _)).
  rewrite bind_pure, value_of_SecretBox_init
    by first [apply len_random; discriminate | side].
  rewrite (bind_Ok _ _ _ _ _ (utils_random_run _ _)). settled.
  erewrite bind_Ok by (apply SecretBox_encrypt, len_random; discriminate).
  rewrite (bind_Ok _ _ _ _ _ (utils_random_run _ _)). settled.
  erewrite bind_Ok by (apply SecretBox_encrypt, len_random; discriminate).
  rewrite (bind_Ok _ _ _ _ _ (SqliteKV_init_run _ _ _)).
  rewrite (bind_Ok _ _ _ _ _ (SqliteKV_setitem_run _ _ _ _)).
  unfold bind at 1. rewrite keyring_set_password_run.
  match goal with
  | |- context [keyring_usable ?W] =>
      lazymatch W with
      | w => fail
      | _ => replace (keyring_usable W) with (keyring_usable w)
               by (world; congruence)
      end
  end.
  rewrite Hurandom, Hdrawn. cbn [table SqliteKV.dump].
  replace (drawn w + Z.to_nat KEY_SIZE)%nat with (drawn w + 32)%nat
    by reflexivity.
  replace (drawn w + 32 + Z.to_nat NONCE_SIZE)%nat with (drawn w + 56)%nat
    by (cbn; lia).
  destruct (keyring_usable w) eqn:Hu.
  - rewrite (bind_Ok _ _ _ _ _ (SqliteKV_setitem_run _ _ _ _)).
    eexists. split; [reflexivity|]. world. rewrite Htkv, Hitems.
    repeat split; assumption.
  - eexists. split; [reflexivity|]. world. rewrite Htkv.
    repeat split; assumption.
Qed.

End Registering.

Section RegisteringYubikey.
Context {P : Primitives} {PS : PrimitivesSpec P}.

(** [register_yubikey] when the password typed unlocks the store and
    the first device answers the challenge. *)
Lemma register_yubikey_run slot w pw rest nk vk device others response :
  tty w = pw :: rest ->
  unlock_with_password (select_value "config" "password" (tkv w)) pw
  = Ok (nk, vk) ->
  devices w = device :: others ->
  calculate_hmac_sha1 device slot (random_bytes (urandom w) (drawn w) 64)
  = Some response ->
  exists kek w',
    let challenge := random_bytes (urandom w) (drawn w) 64 in
    let salt := random_bytes (urandom w) (drawn w + 64) SALTBYTES in
    let nn := random_bytes (urandom w) (drawn w + 80) NONCE_SIZE in
    let vn := random_bytes (urandom w) (drawn w + 104) NONCE_SIZE in
    register_yubikey slot w = (Ok tt, w')
    /\ argon2id_kdf KEY_SIZE response salt OPSLIMIT_SENSITIVE
         MEMLIMIT_SENSITIVE = Some kek
    /\ tkv w'
       = insert_or_update "config" "default-open-method"
           (json_dumps (JStr "yubikey"))
           (insert_or_update "config" (yubikey_key device)
              (json_dumps
                 (yubikey_record slot challenge salt kek nk nn vk vn))
              (tkv w))
    /\ keyring_items w' = keyring_items w
    /\ keyring_usable w' = keyring_usable w
    /\ devices w' = devices w
    /\ config w' = config w.
Proof.
  intros Htty Hunlock Hdev Hresp.
  destruct (get_keys_by_password_asked pw rest w Htty)
    as (w1 & Hrun & Htkv & Hdrawn & Hurandom & Husable & Hitems & Hdev1
        & Hcfg & _).
  rewrite Hunlock in Hrun.
  unfold register_yubikey.
  rewrite (bind_Ok _ _ _ _ _ Hrun).
  unfold bind at 1. rewrite first_device_run, Hdev1, Hdev.
  rewrite (bind_Ok _ _ _ _ _ (utils_random_run _ _)). settled.
  rewrite (bind_Ok _ _ _ _ _ (utils_random_run _ _)). settled.
  rewrite Hurandom, Hdrawn.
  replace (drawn w + Z.to_nat 64)%nat with (drawn w + 64)%nat
    by reflexivity.
  destruct (argon2id_kdf KEY_SIZE response
              (random_bytes (urandom w) (drawn w + 64) SALTBYTES)
              OPSLIMIT_SENSITIVE MEMLIMIT_SENSITIVE) as [kek|] eqn:Hkdf.
  2:{ exfalso. eapply argon2id_kdf_accepts; [|exact Hkdf].
      apply len_random. discriminate. }
  assert (Hkek : len kek = KEY_SIZE) by (eapply argon2id_kdf_size; eauto).
  unfold bind at 1. rewrite get_yubikey_decrypt_key_run.
  rewrite (value_of_derive _ _ _ _ response kek) by assumption.
  rewrite (bind_Ok _ _ _ _ _ (utils_random_run _ _)). settled.
  rewrite (bind_Ok _ _ _ _ _ (utils_random_run _ _)). settled.
  rewrite Hurandom, Hdrawn.
  rewrite bind_pure, value_of_SecretBox_init by side.
  erewrite bind_Ok by (apply SecretBox_encrypt, len_random; discriminate).
  erewrite bind_Ok by (apply SecretBox_encrypt, len_random; discriminate).
  rewrite (bind_Ok _ _ _ _ _ (SqliteKV_init_run _ _ _)).
  rewrite (bind_Ok _ _ _ _ _ (SqliteKV_setitem_run _ _ _ _)).
  rewrite (bind_Ok _ _ _ _ _ (SqliteKV_setitem_run _ _ _ _)).
  exists kek. eexists. cbv zeta. split; [reflexivity|].
  split; [reflexivity|].
  world. cbn [table SqliteKV.dump]. rewrite Htkv.
  replace (drawn w + Z.to_nat 64 + Z.to_nat SALTBYTES)%nat
    with (drawn w + 80)%nat by (cbn; lia).
  replace (drawn w + 80 + Z.to_nat NONCE_SIZE)%nat with (drawn w + 104)%nat
    by (cbn; lia).
  repeat split; first [assumption | reflexivity | congruence].
Qed.

End RegisteringYubikey.

(** ** Opening the store *)

Section Opening.
Context {P : Primitives} {PS : PrimitivesSpec P}.

Lemma ParameterStore_init_run nk vk name w :
  ParameterStore.__init__ nk vk name w
  = (Ok {| kv := {| table := name |};
           _name_key := nk; _value_key := vk |},
     connected name w).
Proof. reflexivity. Qed.

(** With ["keyring"] as default method, [open_parameter_store()] is
    [get_keys_by_keyring]. *)
Lemma open_default_keyring w rows nk vk :
  tkv w = insert_or_update "config" "default-open-method"
            (json_dumps (JStr "keyring")) rows ->
  fst (get_keys_by_keyring w) = Ok (nk, vk) ->
  exists w',
    open_parameter_store None w
    = (Ok {| kv := {| table := "params" |};
             _name_key := nk; _value_key := vk |}, w').
Proof.
  intros Htkv Hkeys. unfold open_parameter_store.
  rewrite (bind_Ok _ _ _ _ _ (SqliteKV_init_run _ _ w)).
  erewrite bind_Ok by (eapply default_method_stored; world; exact Htkv).
  destruct (get_keys_by_keyring_result (connected "config" w))
    as (w1 & Hrun & _).
  destruct (get_keys_by_keyring_result w) as (w2 & Hrun2 & _).
  rewrite Hrun2 in Hkeys. cbn [fst] in Hkeys.
  revert Hrun. world. rewrite Hkeys. intros Hrun.
  cbv iota beta.
  rewrite (bind_Ok _ _ _ _ _ Hrun).
  rewrite ParameterStore_init_run. eauto.
Qed.

Lemma open_default_yubikey w rows nk vk :
  tkv w = insert_or_update "config" "default-open-method"
            (json_dumps (JStr "yubikey")) rows ->
  fst (get_keys_by_yubikey w) = Ok (nk, vk) ->
  exists w',
    open_parameter_store None w
    = (Ok {| kv := {| table := "params" |};
             _name_key := nk; _value_key := vk |}, w').
Proof.
  intros Htkv Hkeys. unfold open_parameter_store.
  rewrite (bind_Ok _ _ _ _ _ (SqliteKV_init_run _ _ w)).
  erewrite bind_Ok by (eapply default_method_stored; world; exact Htkv).
  destruct (get_keys_by_yubikey_result (connected "config" w))
    as (w1 & Hrun & _).
  destruct (get_keys_by_yubikey_result w) as (w2 & Hrun2 & _).
  rewrite Hrun2 in Hkeys. cbn [fst] in Hkeys.
  revert Hrun. world. rewrite Hkeys. intros Hrun.
  cbv iota beta.
  rewrite (bind_Ok _ _ _ _ _ Hrun).
  rewrite ParameterStore_init_run. eauto.
Qed.

End Opening.

(** ** Every method gives the same keys *)

Section SameKeys.
Context {P : Primitives} {PS : PrimitivesSpec P}.

Lemma keys_after_register_keyring w pw rest nk vk :
  tty w = pw :: rest ->
  fst (get_keys_by_password (Some pw) w) = Ok (nk, vk) ->
  keyring_usable w = true ->
  exists w',
    register_keyring w = (Ok tt, w')
    /\ fst (get_keys_by_password (Some pw) w') = Ok (nk, vk)
    /\ fst (get_keys_by_keyring w') = Ok (nk, vk)
    /\ (forall keys, fst (get_keys_by_yubikey w) = Ok keys ->
                     fst (get_keys_by_yubikey w') = Ok keys)
    /\ (exists w'',
          open_parameter_store None w'
          = (Ok {| kv := {| table := "params" |};
                   _name_key := nk; _value_key := vk |}, w''))
    /\ (forall (self : ParameterStore.t) name,
          table (kv self) = "params" ->
          fst (ParameterStore.__getitem__ self name w')
          = fst (ParameterStore.__getitem__ self name w)).
Proof.
  intros Htty Hpw Hu.
  rewrite get_keys_by_password_given in Hpw. cbn [fst] in Hpw.
  destruct (register_keyring_run w pw rest nk vk Htty Hpw)
    as (w' & Hrun & Htkv & Hitems & Husable & Hdev & _).
  cbv zeta in *. rewrite Hu in *.
  assert (Hkeyring : fst (get_keys_by_keyring w') = Ok (nk, vk)).
  { destruct (get_keys_by_keyring_result w') as (w1 & -> & _). cbn [fst].
    rewrite Htkv, Hitems, Husable.
    rewrite select_value_insert_other by reflexivity.
    match goal with
    | |- context [select_value _ _ (insert_or_update ?t ?k ?v ?rows)] =>
        destruct (select_value_insert_same t k v rows) as (others & ->)
    end.
    cbn [keyring_replace keyring_lookup]. rewrite !String.eqb_refl.
    cbn [andb].
    apply unlock_keyring_record; apply len_random; discriminate. }
  exists w'. split; [exact Hrun|]. split; [|split; [exact Hkeyring|split;
    [|split]]].
  - rewrite get_keys_by_password_given. cbn [fst]. rewrite Htkv.
    rewrite !select_value_insert_other by reflexivity. exact Hpw.
  - intros keys.
    destruct (get_keys_by_yubikey_result w) as (w1 & -> & _).
    destruct (get_keys_by_yubikey_result w') as (w2 & -> & _).
    cbn [fst]. rewrite Hdev, Htkv. unfold unlock_with_yubikey.
    destruct (devices w) as [|device ?]; [trivial|].
    rewrite !select_value_insert_other by reflexivity. trivial.
  - eapply open_default_keyring; eassumption.
  - intros self name Ht. apply getitem_reads_its_table.
    intros d. rewrite Htkv, Ht.
    rewrite !select_value_insert_other by reflexivity. reflexivity.
Qed.

Lemma keys_after_register_yubikey slot w pw rest nk vk device others :
  tty w = pw :: rest ->
  fst (get_keys_by_password (Some pw) w) = Ok (nk, vk) ->
  devices w = device :: others ->
  calculate_hmac_sha1 device slot (random_bytes (urandom w) (drawn w) 64)
  <> None ->
  exists w',
    register_yubikey slot w = (Ok tt, w')
    /\ fst (get_keys_by_password (Some pw) w') = Ok (nk, vk)
    /\ fst (get_keys_by_yubikey w') = Ok (nk, vk)
    /\ (forall keys, fst (get_keys_by_keyring w) = Ok keys ->
                     fst (get_keys_by_keyring w') = Ok keys)
    /\ (exists w'',
          open_parameter_store None w'
          = (Ok {| kv := {| table := "params" |};
                   _name_key := nk; _value_key := vk |}, w''))
    /\ (forall (self : ParameterStore.t) name,
          table (kv self) = "params" ->
          fst (ParameterStore.__getitem__ self name w')
          = fst (ParameterStore.__getitem__ self name w)).
Proof.
  intros Htty Hpw Hdevs Hanswer.
  rewrite get_keys_by_password_given in Hpw. cbn [fst] in Hpw.
  destruct (calculate_hmac_sha1 device slot
              (random_bytes (urandom w) (drawn w) 64))
    as [response|] eqn:Hresp; [|congruence].
  destruct (register_yubikey_run slot w pw rest nk vk device others
              response Htty Hpw Hdevs Hresp)
    as (kek & w' & Hrun & Hkdf & Htkv & Hitems & Husable & Hdev & _).
  cbv zeta in *.
  assert (Hyubikey : fst (get_keys_by_yubikey w') = Ok (nk, vk)).
  { destruct (get_keys_by_yubikey_result w') as (w1 & -> & _). cbn [fst].
    rewrite Hdev, Hdevs, Htkv.
    match goal with
    | |- context [insert_or_update "config" (yubikey_key device) ?v ?rows] =>
        destruct (select_value_insert_same "config" (yubikey_key device)
                    v rows) as (more & Hsel)
    end.
    eapply unlock_yubikey_record;
      [ rewrite select_value_insert_other by reflexivity; exact Hsel
      | exact Hresp | exact Hkdf
      | apply len_random; discriminate
      | apply len_random; discriminate ]. }
  exists w'. split; [exact Hrun|]. split; [|split; [exact Hyubikey|split;
    [|split]]].
  - rewrite get_keys_by_password_given. cbn [fst]. rewrite Htkv.
    rewrite !select_value_insert_other by reflexivity. exact Hpw.
  - intros keys.
    destruct (get_keys_by_keyring_result w) as (w1 & -> & _).
    destruct (get_keys_by_keyring_result w') as (w2 & -> & _).
    cbn [fst]. rewrite Htkv, Hitems, Husable.
    rewrite !select_value_insert_other by reflexivity. trivial.
  - eapply open_default_yubikey; eassumption.
  - intros self name Ht. apply getitem_reads_its_table.
    intros d. rewrite Htkv, Ht.
    rewrite !select_value_insert_other by reflexivity. reflexivity.
Qed.

End SameKeys.

(** C2. On a store that the password [pw] unlocks to the keys
    [(nk, vk)], with [pw] typed at the prompt: [register_keyring] (with a
    usable OS keyring) and [register_yubikey] (with a first device that
    answers the challenge) succeed, and afterwards the password, the
    newly registered method and the method registered earlier, if it
    unlocked the store, all give [(nk, vk)]; [open_parameter_store()]
    opens the store with these keys through the new default method; and
    every lookup in the ["params"] table gives what it gave before. *)
Theorem registering_a_method_keeps_the_keys
  {P : Primitives} {PS : PrimitivesSpec P}
  (w : World) (pw : string) (rest : list string) (nk vk : bytes) :
  tty w = pw :: rest ->
  fst (get_keys_by_password (Some pw) w) = Ok (nk, vk) ->
  (keyring_usable w = true ->
   exists w',
     register_keyring w = (Ok tt, w')
     /\ fst (get_keys_by_password (Some pw) w') = Ok (nk, vk)
     /\ fst (get_keys_by_keyring w') = Ok (nk, vk)
     /\ (forall keys, fst (get_keys_by_yubikey w) = Ok keys ->
                      fst (get_keys_by_yubikey w') = Ok keys)
     /\ (exists w'',
           open_parameter_store None w'
           = (Ok {| kv := {| table := "params" |};
                    _name_key := nk; _value_key := vk |}, w''))
     /\ (forall (self : ParameterStore.t) name,
           table (kv self) = "params" ->
           fst (ParameterStore.__getitem__ self name w')
           = fst (ParameterStore.__getitem__ self name w)))
  /\ (forall slot device others,
        devices w = device :: others ->
        calculate_hmac_sha1 device slot
          (random_bytes (urandom w) (drawn w) 64) <> None ->
        exists w',
          register_yubikey slot w = (Ok tt, w')
          /\ fst (get_keys_by_password (Some pw) w') = Ok (nk, vk)
          /\ fst (get_keys_by_yubikey w') = Ok (nk, vk)
          /\ (forall keys, fst (get_keys_by_keyring w) = Ok keys ->
                           fst (get_keys_by_keyring w') = Ok keys)
          /\ (exists w'',
                open_parameter_store None w'
                = (Ok {| kv := {| table := "params" |};
                         _name_key := nk; _value_key := vk |}, w''))
          /\ (forall (self : ParameterStore.t) name,
                table (kv self) = "params" ->
                fst (ParameterStore.__getitem__ self name w')
                = fst (ParameterStore.__getitem__ self name w))).
Proof.
  intros Htty Hpw. split.
  - intros Hu. eapply keys_after_register_keyring; eassumption.
  - intros slot device others Hdev Hanswer.
    eapply keys_after_register_yubikey; eassumption.
Qed.

(** ** What a failed registration leaves behind *)

Lemma unchanged_pure {A} (m : M A) : pure m -> unchanged m.
Proof. intros H w. rewrite (H w). reflexivity. Qed.

Lemma unchanged_bind {A B} (m : M A) (f : A -> M B) :
  unchanged m -> (forall a, unchanged (f a)) -> unchanged (bind m f).
Proof.
  intros Hm Hf w. unfold bind. specialize (Hm w).
  destruct (m w) as [[a|e] w1]; cbn [snd] in *.
  - rewrite (Hf a w1). exact Hm.
  - exact Hm.
Qed.

Lemma unchanged_fails_clean {A} (m : M A) : unchanged m -> fails_clean m.
Proof. intros H w e w' E. specialize (H w). rewrite E in H. exact H. Qed.

Lemma fails_clean_bind {A B} (m : M A) (f : A -> M B) :
  unchanged m -> (forall a, fails_clean (f a)) -> fails_clean (bind m f).
Proof.
  intros Hm Hf w e w'. unfold bind. specialize (Hm w).
  destruct (m w) as [[a|e1] w1]; cbn [snd] in *; intros E.
  - rewrite (Hf a w1 e w' E). exact Hm.
  - inversion E; subst. exact Hm.
Qed.

Lemma fails_clean_never {A} (m : M A) :
  (forall w, exists a w', m w = (Ok a, w')) -> fails_clean m.
Proof. intros H w e w' E. destruct (H w) as (a & w1 & E1). congruence. Qed.

Section Clean.
Context {P : Primitives}.

Lemma unchanged_emit ev : unchanged (emit ev).
Proof. intro w. reflexivity. Qed.

Lemma unchanged_getpass prompt : unchanged (getpass prompt).
Proof.
  intro w. unfold getpass, bind, emit. world.
  destruct (tty w); reflexivity.
Qed.

Lemma unchanged_utils_random n : unchanged (utils_random n).
Proof. intro w. reflexivity. Qed.

Lemma unchanged_first_device : unchanged first_device.
Proof. intro w. rewrite first_device_run. reflexivity. Qed.

Lemma unchanged_get_yubikey_decrypt_key device slot c salt ks ops mem :
  unchanged (get_yubikey_decrypt_key device slot c salt ks ops mem).
Proof. intro w. rewrite get_yubikey_decrypt_key_run. reflexivity. Qed.

Lemma unchanged_SqliteKV_init name b : unchanged (SqliteKV.__init__ name b).
Proof. intro w. reflexivity. Qed.

Lemma unchanged_SqliteKV_getitem {b} (self : SqliteKV.t b) item :
  unchanged (SqliteKV.__getitem__ self item).
Proof. intro w. rewrite SqliteKV_getitem_run. reflexivity. Qed.

Lemma unchanged_get_keys_by_password password :
  unchanged (get_keys_by_password password).
Proof.
  rewrite get_keys_by_password_body. unfold password_tail.
  repeat first
    [ apply unchanged_SqliteKV_init
    | apply unchanged_SqliteKV_getitem
    | match goal with |- forall _, _ => intro end
    | match goal with
      | |- unchanged (ask_password ?p) =>
          destruct p; [apply unchanged_pure, pure_ret
                      |apply unchanged_getpass]
      end
    | apply unchanged_pure; solve [repeat pure_step]
    | apply unchanged_bind ].
Qed.

(** [register_yubikey] writes only once nothing can fail any more: when
    it raises, no row has changed. *)
Lemma failed_register_yubikey_writes_nothing slot :
  fails_clean (register_yubikey slot).
Proof.
  unfold register_yubikey.
  apply fails_clean_bind; [apply unchanged_get_keys_by_password|].
  intros [name_key value_key].
  apply fails_clean_bind; [apply unchanged_first_device|]. intros device.
  cbv zeta.
  do 2 (apply fails_clean_bind; [apply unchanged_utils_random|]; intro).
  apply fails_clean_bind; [apply unchanged_get_yubikey_decrypt_key|].
  intro key.
  do 2 (apply fails_clean_bind; [apply unchanged_utils_random|]; intro).
  do 3 (apply fails_clean_bind;
        [apply unchanged_pure; solve [repeat pure_step]|]; intro).
  apply fails_clean_never. intro w.
  rewrite (bind_Ok _ _ _ _ _ (SqliteKV_init_run _ _ _)).
  rewrite (bind_Ok _ _ _ _ _ (SqliteKV_setitem_run _ _ _ _)).
  rewrite (bind_Ok _ _ _ _ _ (SqliteKV_setitem_run _ _ _ _)).
  do 2 eexists. reflexivity.
Qed.

End Clean.

(** C5. When the OS keyring refuses the key, [register_keyring] raises
    after it has stored the new record: the config table has a
    ["keyring"] record it did not have, sealed under a key that was
    stored nowhere, so that no later state of the keyring opens it; only
    the default method is left as it was. *)
Theorem failed_register_keyring_leaves_a_record
  {P : Primitives} {PS : PrimitivesSpec P}
  (w : World) (pw : string) (rest : list string) (nk vk : bytes) :
  tty w = pw :: rest ->
  fst (get_keys_by_password (Some pw) w) = Ok (nk, vk) ->
  keyring_usable w = false ->
  select_key "config" "keyring" (tkv w) = [] ->
  keyring_lookup "parci" "parci" (keyring_items w) = None ->
  exists w',
    register_keyring w = (Err KeyringError, w')
    /\ select_key "config" "keyring" (tkv w') <> []
    /\ tkv w' <> tkv w
    /\ keyring_items w' = keyring_items w
    /\ select_value "config" "default-open-method" (tkv w')
       = select_value "config" "default-open-method" (tkv w)
    /\ (forall w'',
          tkv w'' = tkv w' -> keyring_items w'' = keyring_items w' ->
          keyring_usable w'' = true ->
          fst (get_keys_by_keyring w'') = Err TypeError).
Proof.
  intros Htty Hpw Hu Hnone Hentry.
  rewrite get_keys_by_password_given in Hpw. cbn [fst] in Hpw.
  destruct (register_keyring_run w pw rest nk vk Htty Hpw)
    as (w' & Hrun & Htkv & Hitems & _).
  cbv zeta in *. rewrite Hu in *.
  exists w'. split; [exact Hrun|].
  assert (Hrec : select_key "config" "keyring" (tkv w') <> []).
  { rewrite Htkv. apply select_key_insert_same. }
  split; [exact Hrec|]. split; [congruence|]. split; [exact Hitems|].
  split.
  { rewrite Htkv. apply select_value_insert_other. reflexivity. }
  intros w'' Ht Hi Hu''.
  destruct (get_keys_by_keyring_result w'') as (w1 & -> & _). cbn [fst].
  rewrite Ht, Hi, Hu'', Hitems, Hentry, Htkv.
  match goal with
  | |- context [select_value _ _ (insert_or_update ?t ?k ?v ?rows)] =>
      destruct (select_value_insert_same t k v rows) as (others & ->)
  end.
  unfold unlock_with_keyring. rewrite load_dumps by reflexivity.
  unfold keyring_tail, keyring_record, answer.
  rewrite value_of_bind, (value_of_decoded _ "name_key" _) by side.
  rewrite value_of_bind, (value_of_decoded _ "value_key" _) by side.
  rewrite value_of_bind by side. cbn [value_of ret fst].
  rewrite value_of_bind by side. reflexivity.
Qed.

(** ** Equality of names *)

Lemma json_induction (Q : json -> Prop) :
  Q JNull -> (forall b, Q (JBool b)) -> (forall n, Q (JInt n)) ->
  (forall s, Q (JStr s)) ->
  (forall xs, Forall Q xs -> Q (JArr xs)) ->
  (forall kvs, Forall (fun kv => Q (snd kv)) kvs -> Q (JObj kvs)) ->
  forall v, Q v.
Proof.
  intros Hnull Hbool Hint Hstr Harr Hobj.
  fix IH 1. intros [| b | n | s | xs | kvs].
  - exact Hnull.
  - apply Hbool.
  - apply Hint.
  - apply Hstr.
  - apply Harr. induction xs as [|x xs IHxs]; constructor.
    + apply IH.
    + exact IHxs.
  - apply Hobj. induction kvs as [|[k x] kvs IHkvs]; constructor.
    + apply IH.
    + exact IHkvs.
Qed.

Lemma json_eqb_eq (a b : json) : json_eqb a b = true <-> a = b.
Proof.
  revert b.
  induction a as [| x | x | x | xs IH | kvs IH] using json_induction;
    intros [| y | y | y | ys | ys]; cbn [json_eqb];
    try (split; [discriminate | congruence]);
    try (split; [discriminate | discriminate]).
  - tauto.
  - rewrite Bool.eqb_true_iff. split; congruence.
  - rewrite Z.eqb_eq. split; congruence.
  - rewrite String.eqb_eq. split; congruence.
  - revert ys. induction IH as [|x xs Hx Hxs IHl]; intros [|y ys].
    + tauto.
    + split; [discriminate | congruence].
    + split; [discriminate | congruence].
    + rewrite andb_true_iff, Hx, IHl. split.
      * intros [-> E]. congruence.
      * intros E. inversion E. split; reflexivity.
  - revert ys. induction IH as [|[k x] xs Hx Hxs IHl]; intros [|[k' y] ys].
    + tauto.
    + split; [discriminate | congruence].
    + split; [discriminate | congruence].
    + cbn [snd] in Hx.
      rewrite !andb_true_iff, String.eqb_eq, Hx, IHl. split.
      * intros [[-> ->] E]. congruence.
      * intros E. inversion E. repeat split; reflexivity.
Qed.

Lemma json_eqb_refl (a : json) : json_eqb a a = true.
Proof. apply json_eqb_eq. reflexivity. Qed.

Lemma json_eqb_neq (a b : json) : json_eqb a b = false <-> a <> b.
Proof.
  rewrite <- json_eqb_eq. destruct (json_eqb a b); split; congruence.
Qed.

(** ** The reference implementation meets the specification *)

Module ReferenceFacts.
Import Reference.

Lemma bytes_eqb_refl (a : bytes) : bytes_eqb a a = true.
Proof.
  induction a as [|x a IH]; [reflexivity|]. cbn.
  rewrite IH, andb_true_r. destruct (Byte.eqb x x) eqn:E; [reflexivity|].
  apply Byte.byte_dec_bl in E || idtac.
  exfalso. revert E. destruct x; discriminate.
Qed.

Lemma open_seal (m n k : bytes) :
  crypto_secretbox_open (crypto_secretbox m n k) n k = Some m.
Proof.
  unfold crypto_secretbox_open, crypto_secretbox.
  rewrite firstn_exact, skipn_exact, firstn_exact, skipn_exact.
  rewrite !bytes_eqb_refl. reflexivity.
Qed.

Lemma string_length_append (a b : string) :
  String.length (a ++ b) = (String.length a + String.length b)%nat.
Proof. induction a; cbn; congruence. Qed.

Lemma append_assoc (a b c : string) : ((a ++ b) ++ c = a ++ (b ++ c))%string.
Proof. induction a; cbn; congruence. Qed.

Lemma append_nil_r (a : string) : (a ++ "" = a)%string.
Proof. induction a; cbn; congruence. Qed.

Lemma dec_pos_enc (p : positive) (rest : string) :
  dec_pos (enc_pos p ++ rest) = Some (p, rest).
Proof. induction p; cbn; rewrite ?IHp; reflexivity. Qed.

Lemma dec_Z_enc (z : Z) (rest : string) :
  dec_Z (enc_Z z ++ rest) = Some (z, rest).
Proof. destruct z; cbn; rewrite ?dec_pos_enc; reflexivity. Qed.

Lemma dec_str_enc (s rest : string) :
  dec_str (enc_str s ++ rest) = Some (s, rest).
Proof. induction s; cbn; rewrite ?IHs; reflexivity. Qed.

Lemma dumps_JArr xs : dumps (JArr xs) = String "[" (elems_text dumps xs).
Proof. reflexivity. Qed.

Lemma dumps_JObj kvs : dumps (JObj kvs) = String "{" (fields_text dumps kvs).
Proof. reflexivity. Qed.

Lemma parse_elems xs :
  Forall parses xs ->
  forall fuel rest,
    (String.length (elems_text dumps xs) <= fuel)%nat ->
    parse fuel MElems (elems_text dumps xs ++ rest) = Some (JArr xs, rest).
Proof.
  induction 1 as [|x xs Hx Hxs IH]; intros fuel rest Hfuel.
  - destruct fuel; [cbn in Hfuel; lia|]. reflexivity.
  - cbn [elems_text] in *. cbn [String.length] in Hfuel.
    rewrite string_length_append in Hfuel.
    destruct fuel as [|fuel]; [lia|].
    cbn [append]. rewrite append_assoc.
    change (parse (S fuel) MElems
              (String "," (dumps x ++ elems_text dumps xs ++ rest)))
      with (match parse fuel MValue
                    (dumps x ++ elems_text dumps xs ++ rest) with
            | Some (y, r1) =>
                match parse fuel MElems r1 with
                | Some (JArr ys, r2) => Some (JArr (y :: ys), r2)
                | _ => None
                end
            | None => None
            end).
    rewrite Hx by lia. rewrite IH by lia. reflexivity.
Qed.

Lemma parse_fields kvs :
  Forall (fun kv => parses (snd kv)) kvs ->
  forall fuel rest,
    (String.length (fields_text dumps kvs) <= fuel)%nat ->
    parse fuel MFields (fields_text dumps kvs ++ rest)
    = Some (JObj kvs, rest).
Proof.
  induction 1 as [|[k x] kvs Hx Hkvs IH]; intros fuel rest Hfuel.
  - destruct fuel; [cbn in Hfuel; lia|]. reflexivity.
  - cbn [fields_text snd] in *. cbn [String.length] in Hfuel.
    rewrite !string_length_append in Hfuel.
    destruct fuel as [|fuel]; [lia|].
    cbn [append]. rewrite !append_assoc.
    change (parse (S fuel) MFields
              (String ":" (enc_str k ++ dumps x
                           ++ fields_text dumps kvs ++ rest)))
      with (match dec_str (enc_str k ++ dumps x
                           ++ fields_text dumps kvs ++ rest) with
            | Some (k', r1) =>
                match parse fuel MValue r1 with
                | Some (y, r2) =>
                    match parse fuel MFields r2 with
                    | Some (JObj ys, r3) => Some (JObj ((k', y) :: ys), r3)
                    | _ => None
                    end
                | None => None
                end
            | None => None
            end).
    rewrite dec_str_enc. rewrite Hx by lia. rewrite IH by lia.
    reflexivity.
Qed.

Lemma parse_dumps (v : json) : parses v.
Proof.
  induction v as [| b | n | s | xs IH | kvs IH] using json_induction;
    intros fuel rest Hfuel;
    (destruct fuel as [|fuel]; [cbn in Hfuel; try destruct b; cbn in Hfuel; lia|]).
  - reflexivity.
  - destruct b; reflexivity.
  - cbn [dumps append].
    change (parse (S fuel) MValue (String "i" (enc_Z n ++ rest)))
      with (match dec_Z (enc_Z n ++ rest) with
            | Some (z, r') => Some (JInt z, r')
            | None => None
            end).
    rewrite dec_Z_enc. reflexivity.
  - cbn [dumps append].
    change (parse (S fuel) MValue (String "s" (enc_str s ++ rest)))
      with (match dec_str (enc_str s ++ rest) with
            | Some (t, r') => Some (JStr t, r')
            | None => None
            end).
    rewrite dec_str_enc. reflexivity.
  - rewrite dumps_JArr in *. cbn [String.length] in Hfuel. cbn [append].
    change (parse (S fuel) MValue
              (String "[" (elems_text dumps xs ++ rest)))
      with (parse fuel MElems (elems_text dumps xs ++ rest)).
    apply parse_elems; [exact IH | lia].
  - rewrite dumps_JObj in *. cbn [String.length] in Hfuel. cbn [append].
    change (parse (S fuel) MValue
              (String "{" (fields_text dumps kvs ++ rest)))
      with (parse fuel MFields (fields_text dumps kvs ++ rest)).
    apply parse_fields; [exact IH | lia].
Qed.

Lemma reference_loads_dumps (v : json) : loads (dumps v) = Some v.
Proof.
  unfold loads.
  rewrite <- (append_nil_r (dumps v)) at 2.
  rewrite parse_dumps by lia. reflexivity.
Qed.

Lemma meets_spec : PrimitivesSpec primitives.
Proof.
  constructor; cbn.
  - intros. apply open_seal.
  - intros data k H. unfold blake2b_hex.
    apply Z.leb_le in H. rewrite H. discriminate.
  - intros size pw salt ops mem k. unfold argon2id_kdf.
    destruct (0 <=? size) eqn:E; [|discriminate].
    destruct (len salt =? SALTBYTES); [|discriminate]. cbn.
    intros [= <-]. apply Z.leb_le in E. unfold len.
    rewrite length_firstn, !length_app, repeat_length. lia.
  - intros pw salt H. unfold argon2id_kdf.
    rewrite H. discriminate.
  - intros b. unfold b64decode, b64encode.
    rewrite list_byte_of_string_of_list_byte. reflexivity.
  - intros v _. apply reference_loads_dumps.
Qed.

End ReferenceFacts.

(** ** The secrets by name *)

Lemma model_set_holds n v m : In (n, v) (model_set n v m).
Proof.
  induction m as [|[n' v'] m IH]; cbn; [left; reflexivity|].
  destruct (json_eqb n' n); [left; reflexivity | right; exact IH].
Qed.

Lemma model_set_others n v m n' v' :
  n' <> n -> In (n', v') (model_set n v m) <-> In (n', v') m.
Proof.
  intros Hne. induction m as [|[a b] m IH]; cbn.
  - split; [intros [E|[]]; congruence | intros []].
  - destruct (json_eqb a n) eqn:E; cbn.
    + apply json_eqb_eq in E. subst a.
      split; (intros [H|H]; [congruence | right; exact H]).
    + rewrite IH. reflexivity.
Qed.

Lemma model_del_gone n m : ~ In n (map fst (model_del n m)).
Proof.
  unfold model_del. intros H. apply in_map_iff in H.
  destruct H as ([a b] & E & H). apply filter_In in H. cbn in *. subst a.
  rewrite json_eqb_refl in H. destruct H; discriminate.
Qed.

Lemma model_del_others n m n' v' :
  n' <> n -> In (n', v') (model_del n m) <-> In (n', v') m.
Proof.
  intros Hne. unfold model_del. rewrite filter_In. cbn.
  apply json_eqb_neq in Hne. rewrite Hne. tauto.
Qed.

Lemma model_set_incl n v m :
  incl (map fst (model_set n v m)) (n :: map fst m).
Proof.
  induction m as [|[n' v'] m IH]; cbn.
  - apply incl_refl.
  - destruct (json_eqb n' n); cbn.
    + intros x [<-|Hx]; [left; reflexivity | right; right; exact Hx].
    + intros x [<-|Hx]; [right; left; reflexivity|].
      destruct (IH x Hx) as [<-|Hy];
        [left; reflexivity | right; right; exact Hy].
Qed.

Lemma model_del_incl n m : incl (map fst (model_del n m)) (map fst m).
Proof.
  unfold model_del. induction m as [|[n' v'] m IH]; cbn; [apply incl_refl|].
  destruct (json_eqb n' n); cbn.
  - intros x Hx. right. apply IH, Hx.
  - intros x [<-|Hx]; [left; reflexivity | right; apply IH, Hx].
Qed.




(** ** Enumeration *)

Lemma row_in_table_new t d v :
  row_in_table t {| table_name := t; key := d; value := v |} = true.
Proof. unfold row_in_table; cbn. apply String.eqb_refl. Qed.

Lemma row_matches_split t d r :
  row_matches t d r = row_in_table t r && String.eqb (key r) d.
Proof. reflexivity. Qed.

Lemma filter_table_insert t d v rows :
  filter (row_in_table t) (insert_or_update t d v rows)
  = insert_or_update t d v (filter (row_in_table t) rows).
Proof.
  induction rows as [|r rows IH]; cbn [insert_or_update filter].
  - rewrite row_in_table_new. reflexivity.
  - rewrite row_matches_split.
    destruct (row_in_table t r) eqn:Et; cbn [andb].
    + destruct (String.eqb (key r) d) eqn:Ek;
        cbn [filter insert_or_update];
        rewrite ?row_in_table_new, ?row_matches_split, ?Et, ?Ek;
        cbn [andb]; rewrite ?IH; reflexivity.
    + cbn [filter]. rewrite Et. exact IH.
Qed.

Lemma filter_table_delete t d rows :
  filter (row_in_table t) (delete_from t d rows)
  = delete_from t d (filter (row_in_table t) rows).
Proof.
  unfold delete_from. induction rows as [|r rows IH]; [reflexivity|].
  cbn. destruct (row_matches t d r) eqn:Em; cbn;
    destruct (row_in_table t r) eqn:Et; cbn; rewrite ?Em; cbn;
    rewrite ?IH; reflexivity.
Qed.

Lemma for_in_map {A B} (body : A -> M B) (f : A -> B)
  (source : generated A) w :
  (forall x w0, body x w0 = (Ok (f x), w0)) ->
  for_in source body w = (Ok (map f (fst source), snd source), w).
Proof.
  intros Hbody. destruct source as [xs stop]. unfold for_in. cbn [fst snd].
  assert (H : for_each body xs w = (Ok (map f xs, None), w)).
  { induction xs as [|x xs IH]; [reflexivity|].
    cbn [for_each map]. rewrite Hbody, IH. reflexivity. }
  unfold bind. rewrite H. reflexivity.
Qed.

Section Enumeration.
Context {P : Primitives} {PS : PrimitivesSpec P}.
Variable self : ParameterStore.t.
Hypothesis name_key_size : len (_name_key self) = KEY_SIZE.
Hypothesis value_key_size : len (_value_key self) = KEY_SIZE.

Lemma digest_defined (n : json) : exists d, digest self n = Some d.
Proof.
  unfold digest.
  destruct (blake2b_hex _ _) as [d|] eqn:E; [eauto|].
  exfalso. eapply blake2b_accepts; [|exact E].
  rewrite name_key_size. discriminate.
Qed.

Lemma calc_key_digest n d w :
  digest self n = Some d ->
  ParameterStore._calc_key self n w = (Ok d, w).
Proof.
  unfold digest, ParameterStore._calc_key. intros ->. reflexivity.
Qed.

Lemma setitem_run n v w d :
  PARAMETER_READ_ONLY (config w) = false ->
  digest self n = Some d ->
  exists w',
    ParameterStore.__setitem__ self n v w = (Ok tt, w')
    /\ tkv w'
       = insert_or_update (table (kv self)) d
           (blob self n v (random_bytes (urandom w) (drawn w) NONCE_SIZE))
           (tkv w)
    /\ config w' = config w.
Proof.
  intros Hro Hd. unfold ParameterStore.__setitem__.
  unfold get_config at 1. unfold bind at 1. rewrite Hro.
  rewrite (bind_Ok _ _ _ _ _ (calc_key_digest n d w Hd)).
  rewrite (bind_Ok _ _ _ _ _ (SecretBox_init _ w value_key_size)).
  rewrite (bind_Ok _ _ _ _ _ (utils_random_run _ w)).
  erewrite bind_Ok by (apply SecretBox_encrypt, len_random; discriminate).
  rewrite (bind_Ok _ _ _ _ _ (SqliteKV_setitem_run _ _ _ _)).
  eexists. split; [reflexivity|]. world. split; reflexivity.
Qed.

Lemma delitem_run n w d :
  PARAMETER_READ_ONLY (config w) = false ->
  digest self n = Some d ->
  exists w',
    ParameterStore.__delitem__ self n w = (Ok tt, w')
    /\ tkv w' = delete_from (table (kv self)) d (tkv w)
    /\ config w' = config w.
Proof.
  intros Hro Hd. unfold ParameterStore.__delitem__.
  unfold get_config at 1. unfold bind at 1. rewrite Hro.
  rewrite (bind_Ok _ _ _ _ _ (calc_key_digest n d w Hd)).
  eexists. split; [reflexivity|]. split; reflexivity.
Qed.

Lemma holds_row_matches r pair n d names :
  holds self r pair -> digest self n = Some d ->
  told_apart self names -> In (fst pair) names -> In n names ->
  row_matches (table (kv self)) d r = json_eqb (fst pair) n.
Proof.
  intros (Ht & Hk & _) Hd Hinj Hin1 Hin2.
  unfold row_matches. rewrite Ht, String.eqb_refl. cbn [andb].
  destruct (json_eqb (fst pair) n) eqn:E.
  - apply json_eqb_eq in E. rewrite E in Hk.
    apply String.eqb_eq. congruence.
  - apply String.eqb_neq. intros Heq. apply json_eqb_neq in E. apply E.
    apply Hinj; [assumption|assumption|]. congruence.
Qed.

Lemma holds_insert rs m n v d nonce names :
  Forall2 (holds self) rs m ->
  digest self n = Some d ->
  wf_json n = true -> wf_json v = true -> len nonce = NONCE_SIZE ->
  told_apart self names -> incl (map fst m) names -> In n names ->
  Forall2 (holds self)
    (insert_or_update (table (kv self)) d (blob self n v nonce) rs)
    (model_set n v m).
Proof.
  intros H Hd Hwn Hwv Hnonce Hinj.
  assert (Hnew : holds self
                   {| table_name := table (kv self); key := d;
                      value := blob self n v nonce |} (n, v)).
  { repeat split; cbn; try assumption. eauto. }
  induction H as [|r [n' v'] rs m Hr Hrs IH]; intros Hincl Hin.
  - constructor; [exact Hnew | constructor].
  - cbn [insert_or_update model_set].
    rewrite (holds_row_matches r (n', v') n d names Hr Hd Hinj);
      [|apply Hincl; left; reflexivity | exact Hin].
    cbn [fst]. destruct (json_eqb n' n).
    + constructor; assumption.
    + constructor; [assumption|]. apply IH; [|exact Hin].
      intros x Hx. apply Hincl. right. exact Hx.
Qed.

Lemma holds_delete rs m n d names :
  Forall2 (holds self) rs m ->
  digest self n = Some d ->
  told_apart self names -> incl (map fst m) names -> In n names ->
  Forall2 (holds self) (delete_from (table (kv self)) d rs)
    (model_del n m).
Proof.
  intros H Hd Hinj.
  induction H as [|r [n' v'] rs m Hr Hrs IH]; intros Hincl Hin.
  - constructor.
  - unfold delete_from, model_del in *. cbn [filter].
    rewrite (holds_row_matches r (n', v') n d names Hr Hd Hinj);
      [|apply Hincl; left; reflexivity | exact Hin].
    cbn [fst]. destruct (json_eqb n' n); cbn [negb].
    + apply IH; [|exact Hin]. intros x Hx. apply Hincl. right. exact Hx.
    + constructor; [assumption|]. apply IH; [|exact Hin].
      intros x Hx. apply Hincl. right. exact Hx.
Qed.

(** Running the operations keeps the rows of the table in step with
    the secrets by name. *)
Lemma run_ops_holds ops : forall w m names,
  PARAMETER_READ_ONLY (config w) = false ->
  Forall2 (holds self) (filter (row_in_table (table (kv self))) (tkv w)) m ->
  forallb op_wf ops = true ->
  told_apart self names -> incl (map fst m) names ->
  incl (map op_name ops) names ->
  exists w',
    run_ops self ops w = (Ok tt, w')
    /\ Forall2 (holds self)
         (filter (row_in_table (table (kv self))) (tkv w'))
         (fold_left model_step ops m).
Proof.
  induction ops as [|[n v|n] ops IH]; intros w m names Hro Hrep Hwf Hinj
    Hm Hops.
  - exists w. split; [reflexivity | exact Hrep].
  - cbn [forallb op_wf] in Hwf.
    apply andb_true_iff in Hwf. destruct Hwf as [Hwf Hwfs].
    apply andb_true_iff in Hwf. destruct Hwf as [Hwn Hwv].
    destruct (digest_defined n) as (d & Hd).
    destruct (setitem_run n v w d Hro Hd) as (w1 & Hrun & Htkv & Hcfg).
    assert (Hn : In n names) by (apply Hops; left; reflexivity).
    destruct (IH w1 (model_set n v m) names) as (w' & Hrest & Hrep').
    + congruence.
    + rewrite Htkv, filter_table_insert.
      eapply holds_insert; try eassumption.
      apply len_random. discriminate.
    + exact Hwfs.
    + exact Hinj.
    + intros x Hx. destruct (model_set_incl n v m x Hx) as [<-|Hy];
        [exact Hn | apply Hm, Hy].
    + intros x Hx. apply Hops. right. exact Hx.
    + exists w'. split; [|exact Hrep'].
      cbn [run_ops]. rewrite (bind_Ok _ _ _ _ _ Hrun). exact Hrest.
  - cbn [forallb op_wf] in Hwf.
    apply andb_true_iff in Hwf. destruct Hwf as [Hwn Hwfs].
    destruct (digest_defined n) as (d & Hd).
    destruct (delitem_run n w d Hro Hd) as (w1 & Hrun & Htkv & Hcfg).
    assert (Hn : In n names) by (apply Hops; left; reflexivity).
    destruct (IH w1 (model_del n m) names) as (w' & Hrest & Hrep').
    + congruence.
    + rewrite Htkv, filter_table_delete.
      eapply holds_delete; eassumption.
    + exact Hwfs.
    + exact Hinj.
    + intros x Hx. apply Hm, (model_del_incl n m x Hx).
    + intros x Hx. apply Hops. right. exact Hx.
    + exists w'. split; [|exact Hrep'].
      cbn [run_ops]. rewrite (bind_Ok _ _ _ _ _ Hrun). exact Hrest.
Qed.

(** What the loop of [items] makes of a row that holds a pair. *)
Lemma decode_held r pair w :
  holds self r pair ->
  (value <- decode_bytes (value r) ;;
   value <- SecretBox.decrypt {| SecretBox._key := _value_key self |} value ;;
   pair <- ParameterStore.loads value ;;
   unpack_2 pair) w
  = (Ok pair, w).
Proof.
  intros (_ & _ & Hwn & Hwv & nonce & Hnonce & ->). unfold blob.
  rewrite (bind_Ok _ _ _ _ _ (decode_encode_bytes _ w)).
  erewrite bind_Ok by (apply SecretBox_decrypt_encrypt; assumption).
  erewrite bind_Ok by (apply loads_dumps; cbn; rewrite Hwn, Hwv; reflexivity).
  destruct pair; reflexivity.
Qed.

Lemma SqliteKV_values_run {b} (kvs : SqliteKV.t b) w :
  SqliteKV.values kvs w
  = (Ok (SqliteKV.yield_loaded b (select_values (table kvs) (tkv w))), w).
Proof. reflexivity. Qed.

Lemma yield_loaded_text (texts : list string) :
  SqliteKV.yield_loaded false texts = (texts, None).
Proof.
  induction texts as [|x texts IH]; [reflexivity|].
  cbn [SqliteKV.yield_loaded SqliteKV.load]. rewrite IH. reflexivity.
Qed.

Lemma items_of_held w m :
  Forall2 (holds self) (filter (row_in_table (table (kv self))) (tkv w)) m ->
  ParameterStore.items self w = (Ok (m, None), w).
Proof.
  intros Hrep. unfold ParameterStore.items, generator.
  rewrite (bind_Ok _ _ _ _ _ (SecretBox_init _ w value_key_size)).
  rewrite (bind_Ok _ _ _ _ _ (SqliteKV_values_run _ w)).
  rewrite yield_loaded_text. unfold select_values, for_in. cbn [fst snd].
  set (rows := filter (row_in_table (table (kv self))) (tkv w)) in *.
  match goal with
  | |- context [for_each ?body (map value rows)] =>
      assert (Hloop : forall w0,
                 for_each body (map value rows) w0 = (Ok (m, None), w0))
  end.
  { induction Hrep as [|r pair rows m Hr Hrs IH]; intros w0;
      [reflexivity|].
    cbn [map for_each]. rewrite (decode_held r pair w0 Hr), IH.
    reflexivity. }
  unfold bind at 1. rewrite Hloop. reflexivity.
Qed.

(** [keys] and [values] are the projections of what [items] yields,
    whatever it yields. *)
Lemma keys_values_project w :
  exists g w',
    ParameterStore.items self w = (Ok g, w')
    /\ ParameterStore.keys self w = (Ok (map fst (fst g), snd g), w')
    /\ ParameterStore.values self w = (Ok (map snd (fst g), snd g), w').
Proof.
  assert (H : exists g w', ParameterStore.items self w = (Ok g, w')).
  { unfold ParameterStore.items, generator.
    destruct (bind _ _ w) as [[g|e] w']; eauto. }
  destruct H as (g & w' & Hitems). exists g, w'.
  split; [exact Hitems|].
  unfold ParameterStore.keys, ParameterStore.values, generator.
  rewrite !(bind_Ok _ _ _ _ _ Hitems).
  split.
  - rewrite (for_in_map _ fst) by (intros [k v] w0; reflexivity).
    reflexivity.
  - rewrite (for_in_map _ snd) by (intros [k v] w0; reflexivity).
    reflexivity.
Qed.

End Enumeration.


(** * Beyond the secrets: the table, the methods, the commands *)

(** The interceptor, by the name of its one instance. *)
Module Params := ParameterStoreInterceptor.

(** ** [SqliteKV], the table behind the stores *)

Lemma load_dump {P : Primitives} {PS : PrimitivesSpec P} b
  (v : SqliteKV.value_t b) :
  storable b v -> SqliteKV.load b (SqliteKV.dump b v) = Ok v.
Proof.
  destruct b; cbn; intros H; [|reflexivity].
  now rewrite json_loads_dumps.
Qed.

Lemma SqliteKV_get_run {P : Primitives} {b} (self : SqliteKV.t b)
  item default w :
  SqliteKV.get self item default w
  = (match select_value (table self) item (tkv w) with
     | v :: _ => match SqliteKV.load b v with
                 | Ok x => Ok (Some x)
                 | Err (KeyError _) => Ok default
                 | Err e => Err e
                 end
     | [] => Ok default
     end, w).
Proof.
  unfold SqliteKV.get. rewrite SqliteKV_getitem_run.
  destruct (select_value _ _ _) as [|v ?]; [reflexivity|].
  destruct (SqliteKV.load b v) as [x|e]; [reflexivity|].
  destruct e; reflexivity.
Qed.

(** X1. After [self[item] = v], whatever the table held before,
    [self[item]] is [v], [item in self] is true and [self.get(item)] is
    [v]: for any text when the store keeps texts, and with
    [serialize_values] for any JSON value without a repeated key. *)
Theorem SqliteKV_set_then_get {P : Primitives} {PS : PrimitivesSpec P}
  {b : bool} (self : SqliteKV.t b) (item : string) (v : SqliteKV.value_t b)
  (default : option (SqliteKV.value_t b)) (w : World) :
  storable b v ->
  exists w1,
    SqliteKV.__setitem__ self item v w = (Ok (SqliteKV.dump b v), w1)
    /\ SqliteKV.__getitem__ self item w1 = (Ok v, w1)
    /\ SqliteKV.__contains__ self item w1 = (Ok true, w1)
    /\ SqliteKV.get self item default w1 = (Ok (Some v), w1).
Proof.
  intros Hv. eexists. split; [apply SqliteKV_setitem_run|].
  destruct (select_value_insert_same (table self) item (SqliteKV.dump b v)
              (tkv w)) as [others Hsel].
  assert (Ht : tkv (wrote (table self) item (SqliteKV.dump b v) w)
               = insert_or_update (table self) item (SqliteKV.dump b v) (tkv w))
    by reflexivity.
  repeat split.
  - rewrite SqliteKV_getitem_run, Ht, Hsel, (load_dump b v Hv). reflexivity.
  - apply SqliteKV_contains_present. rewrite Ht. apply select_key_insert_same.
  - rewrite SqliteKV_get_run, Ht, Hsel, (load_dump b v Hv). reflexivity.
Qed.

(** *** One key at a time *)

Lemma eqb_pair_false (t i t' i' : string) :
  t' <> t \/ i' <> i -> String.eqb t t' && String.eqb i i' = false.
Proof.
  intros [H|H].
  - destruct (String.eqb_spec t t'); [congruence|reflexivity].
  - destruct (String.eqb_spec i i'); [congruence|apply andb_false_r].
Qed.

Lemma filter_delete_other table item table' item' rows :
  String.eqb table table' && String.eqb item item' = false ->
  filter (row_matches table' item') (delete_from table item rows)
  = filter (row_matches table' item') rows.
Proof.
  intros Hne. unfold delete_from.
  induction rows as [|r rows IH]; [reflexivity|]. cbn.
  destruct (row_matches table item r) eqn:Hr; cbn.
  - rewrite (row_matches_other _ _ _ _ _ Hne Hr). exact IH.
  - destruct (row_matches table' item' r); [f_equal|]; exact IH.
Qed.

Lemma row_in_table_other t t' item r :
  t' <> t -> row_matches t item r = true -> row_in_table t' r = false.
Proof.
  unfold row_matches, row_in_table. intros Hne H.
  apply andb_true_iff in H as [H _]. apply String.eqb_eq in H.
  destruct (String.eqb_spec (table_name r) t'); [congruence|reflexivity].
Qed.

Lemma filter_table_insert_other t t' item v rows :
  t' <> t ->
  filter (row_in_table t') (insert_or_update t item v rows)
  = filter (row_in_table t') rows.
Proof.
  intros Hne. induction rows as [|r rows IH]; cbn.
  - unfold row_in_table; cbn.
    destruct (String.eqb_spec t t'); [congruence|reflexivity].
  - destruct (row_matches t item r) eqn:Hr; cbn.
    + rewrite (row_in_table_other _ _ _ _ Hne Hr).
      unfold row_in_table; cbn.
      destruct (String.eqb_spec t t'); [congruence|reflexivity].
    + destruct (row_in_table t' r); [f_equal|]; exact IH.
Qed.

Lemma filter_table_delete_other t t' item rows :
  t' <> t ->
  filter (row_in_table t') (delete_from t item rows)
  = filter (row_in_table t') rows.
Proof.
  intros Hne. unfold delete_from.
  induction rows as [|r rows IH]; [reflexivity|]. cbn.
  destruct (row_matches t item r) eqn:Hr; cbn.
  - rewrite (row_in_table_other _ _ _ _ Hne Hr). exact IH.
  - destruct (row_in_table t' r); [f_equal|]; exact IH.
Qed.

Lemma SqliteKV_delitem_run {P : Primitives} {b} (self : SqliteKV.t b) item w :
  SqliteKV.__delitem__ self item w
  = (Ok tt, log EvCommit (update_tkv (delete_from (table self) item) w)).
Proof. reflexivity. Qed.

Lemma SqliteKV_keys_run {P : Primitives} {b} (self : SqliteKV.t b) w :
  SqliteKV.keys self w = (Ok (select_keys (table self) (tkv w), None), w).
Proof. reflexivity. Qed.

Lemma SqliteKV_items_run {P : Primitives} {b} (self : SqliteKV.t b) w :
  SqliteKV.items self w
  = (Ok (SqliteKV.yield_loaded_items b (select_items (table self) (tkv w))), w).
Proof. reflexivity. Qed.

(** X2. The stores share the one SQL table [tkv], and yet a write
    ([self[item] = v] or [del self[item]]) changes nothing that is read
    under another key or through a store over another [table_name]: the
    lookup and the membership test of any other key give what they gave,
    and so do [keys()], [values()] and [items()] of any other table. *)
Theorem SqliteKV_writes_touch_one_key {P : Primitives} {b b' : bool}
  (self : SqliteKV.t b) (other : SqliteKV.t b') (item item' : string)
  (v : SqliteKV.value_t b) (w : World) :
  table other <> table self \/ item' <> item ->
  (forall w', w' = snd (SqliteKV.__setitem__ self item v w)
              \/ w' = snd (SqliteKV.__delitem__ self item w) ->
     fst (SqliteKV.__getitem__ other item' w')
     = fst (SqliteKV.__getitem__ other item' w)
     /\ fst (SqliteKV.__contains__ other item' w')
        = fst (SqliteKV.__contains__ other item' w)
     /\ (table other <> table self ->
         fst (SqliteKV.keys other w') = fst (SqliteKV.keys other w)
         /\ fst (SqliteKV.values other w') = fst (SqliteKV.values other w)
         /\ fst (SqliteKV.items other w') = fst (SqliteKV.items other w))).
Proof.
  intros Hne w' Hw'.
  pose proof (eqb_pair_false (table self) item (table other) item' Hne) as Hb.
  assert (Hrows : filter (row_matches (table other) item') (tkv w')
                  = filter (row_matches (table other) item') (tkv w)).
  { destruct Hw' as [-> | ->].
    - rewrite SqliteKV_setitem_run. apply filter_insert_other, Hb.
    - rewrite SqliteKV_delitem_run. apply filter_delete_other, Hb. }
  assert (Htab : table other <> table self ->
                 filter (row_in_table (table other)) (tkv w')
                 = filter (row_in_table (table other)) (tkv w)).
  { intros Ht. destruct Hw' as [-> | ->].
    - rewrite SqliteKV_setitem_run. now apply filter_table_insert_other.
    - rewrite SqliteKV_delitem_run. now apply filter_table_delete_other. }
  split; [|split].
  - rewrite !SqliteKV_getitem_run. cbn [fst]. unfold select_value.
    now rewrite Hrows.
  - rewrite !SqliteKV_contains_run. cbn [fst]. unfold select_key.
    now rewrite Hrows.
  - intros Ht. specialize (Htab Ht).
    rewrite !SqliteKV_keys_run, !SqliteKV_values_run, !SqliteKV_items_run.
    cbn [fst]. unfold select_keys, select_values, select_items.
    now rewrite Htab.
Qed.

(** *** Deleting *)

Lemma filter_delete_same table item rows :
  filter (row_matches table item) (delete_from table item rows) = [].
Proof.
  unfold delete_from. induction rows as [|r rows IH]; [reflexivity|]. cbn.
  destruct (row_matches table item r) eqn:Hr; cbn; [exact IH|].
  rewrite Hr. exact IH.
Qed.

Lemma delete_from_absent table item rows :
  filter (row_matches table item) rows = [] ->
  delete_from table item rows = rows.
Proof.
  unfold delete_from. induction rows as [|r rows IH]; [reflexivity|]. cbn.
  destruct (row_matches table item r) eqn:Hr; cbn; [discriminate|].
  intros H. now rewrite IH.
Qed.

(** X3. [del self[key]] never raises, not even for a key that is not
    there (then no row changes); after it [key in self] is false,
    [self[key]] raises [KeyError] and [self.get(key, default)] is
    [default]. *)
Theorem SqliteKV_delete_then_get {P : Primitives} {b : bool}
  (self : SqliteKV.t b) (key : string)
  (default : option (SqliteKV.value_t b)) (w : World) :
  exists w1,
    SqliteKV.__delitem__ self key w = (Ok tt, w1)
    /\ SqliteKV.__contains__ self key w1 = (Ok false, w1)
    /\ SqliteKV.__getitem__ self key w1
       = (Err (KeyError "Key does not exist"), w1)
    /\ SqliteKV.get self key default w1 = (Ok default, w1)
    /\ (SqliteKV.__contains__ self key w = (Ok false, w) -> tkv w1 = tkv w).
Proof.
  eexists. split; [apply SqliteKV_delitem_run|].
  assert (Ht : tkv (log EvCommit (update_tkv (delete_from (table self) key) w))
               = delete_from (table self) key (tkv w)) by reflexivity.
  repeat split.
  - apply SqliteKV_contains_absent. rewrite Ht. unfold select_key.
    now rewrite filter_delete_same.
  - rewrite SqliteKV_getitem_run, Ht. unfold select_value.
    now rewrite filter_delete_same.
  - rewrite SqliteKV_get_run, Ht. unfold select_value.
    now rewrite filter_delete_same.
  - rewrite SqliteKV_contains_run, Ht. unfold select_key. intros H.
    apply delete_from_absent.
    destruct (filter _ _); [reflexivity|discriminate].
Qed.

(** *** One row per key *)

Lemma row_matches_key table item r :
  row_matches table item r = true <-> (table_name r, key r) = (table, item).
Proof.
  unfold row_matches. rewrite andb_true_iff, !String.eqb_eq.
  split; [intros [-> ->]; reflexivity | intros [= -> ->]; auto].
Qed.

Lemma insert_or_update_keys table item v rows :
  incl (map (fun r => (table_name r, key r))
          (insert_or_update table item v rows))
       ((table, item) :: map (fun r => (table_name r, key r)) rows).
Proof.
  induction rows as [|r rows IH]; cbn.
  - intros x [<-|[]]; now left.
  - destruct (row_matches table item r) eqn:Hr; cbn.
    + intros x [<-|Hx]; [now left | right; now right].
    + intros x [<-|Hx]; [right; now left|].
      destruct (IH x Hx) as [<-|H]; [now left | right; now right].
Qed.

Lemma insert_or_update_unique table item v rows :
  one_row_per_key rows -> one_row_per_key (insert_or_update table item v rows).
Proof.
  unfold one_row_per_key. induction rows as [|r rows IH]; cbn; intros H.
  - constructor; [intros []|constructor].
  - inversion H as [|? ? Hnot Hrest]; subst.
    destruct (row_matches table item r) eqn:Hr; cbn.
    + apply row_matches_key in Hr. rewrite <- Hr. now constructor.
    + constructor; [|now apply IH].
      intros Hin. apply insert_or_update_keys in Hin as [Heq|Hin]; [|tauto].
      symmetry in Heq. apply row_matches_key in Heq. congruence.
Qed.

Lemma filter_unique (f : row -> bool) rows :
  one_row_per_key rows -> one_row_per_key (filter f rows).
Proof.
  unfold one_row_per_key. induction rows as [|r rows IH]; cbn; intros H;
    [constructor|].
  inversion H as [|? ? Hnot Hrest]; subst.
  destruct (f r); cbn; [|now apply IH].
  constructor; [|now apply IH].
  intros Hin. apply Hnot. apply in_map_iff in Hin as (r' & E & Hin).
  apply filter_In in Hin as [Hin _]. apply in_map_iff. now exists r'.
Qed.

Lemma unique_no_other_match table item r rows :
  one_row_per_key (r :: rows) -> row_matches table item r = true ->
  filter (row_matches table item) rows = [].
Proof.
  unfold one_row_per_key. cbn. intros H Hr. inversion H as [|? ? Hnot _]; subst.
  apply row_matches_key in Hr. clear H.
  induction rows as [|r' rows IH]; [reflexivity|]. cbn.
  destruct (row_matches table item r') eqn:Hr'.
  - apply row_matches_key in Hr'. exfalso. apply Hnot. left. congruence.
  - apply IH. intros Hin. apply Hnot. now right.
Qed.

Lemma insert_or_update_one table item v rows :
  one_row_per_key rows ->
  filter (row_matches table item) (insert_or_update table item v rows)
  = [{| table_name := table; key := item; value := v |}].
Proof.
  induction rows as [|r rows IH]; cbn; intros H.
  - rewrite row_matches_new, !String.eqb_refl. reflexivity.
  - destruct (row_matches table item r) eqn:Hr; cbn.
    + rewrite row_matches_new, !String.eqb_refl. cbn.
      now rewrite (unique_no_other_match _ _ _ _ H Hr).
    + rewrite Hr. apply IH. unfold one_row_per_key in *. cbn in H.
      now inversion H.
Qed.

Lemma keys_unique table rows :
  one_row_per_key rows -> NoDup (select_keys table rows).
Proof.
  unfold one_row_per_key, select_keys.
  induction rows as [|r rows IH]; cbn; intros H; [constructor|].
  inversion H as [|? ? Hnot Hrest]; subst.
  destruct (row_in_table table r) eqn:Hr; cbn; [|now apply IH].
  constructor; [|now apply IH].
  intros Hin. apply Hnot. apply in_map_iff in Hin as (r' & E & Hin).
  apply filter_In in Hin as [Hin Hr'].
  apply in_map_iff. exists r'. split; [|exact Hin].
  unfold row_in_table in *. apply String.eqb_eq in Hr, Hr'. congruence.
Qed.

(** X4. The writes keep the constraint of the table: if no two rows
    have the same table name and key, this is still so after
    [self[item] = v] and after [del self[item]]; after the assignment
    exactly one row is found under the key, the new value; and [keys()]
    yields no key twice. *)
Theorem SqliteKV_keeps_one_row_per_key {P : Primitives} {b : bool}
  (self : SqliteKV.t b) (item : string) (v : SqliteKV.value_t b) (w : World) :
  one_row_per_key (tkv w) ->
  one_row_per_key (tkv (snd (SqliteKV.__setitem__ self item v w)))
  /\ one_row_per_key (tkv (snd (SqliteKV.__delitem__ self item w)))
  /\ select_value (table self) item
       (tkv (snd (SqliteKV.__setitem__ self item v w)))
     = [SqliteKV.dump b v]
  /\ exists ks, SqliteKV.keys self w = (Ok (ks, None), w) /\ NoDup ks.
Proof.
  intros H. rewrite SqliteKV_setitem_run, SqliteKV_delitem_run.
  cbn [snd]. repeat split.
  - now apply insert_or_update_unique.
  - now apply filter_unique.
  - change (tkv (wrote (table self) item (SqliteKV.dump b v) w))
      with (insert_or_update (table self) item (SqliteKV.dump b v) (tkv w)).
    unfold select_value. now rewrite insert_or_update_one.
  - eexists. split; [apply SqliteKV_keys_run|]. now apply keys_unique.
Qed.

(** *** Enumerating *)

Lemma yield_loaded_agree {P : Primitives} b (l : list row) :
  exists its stop rest,
    SqliteKV.yield_loaded_items b (map (fun r => (key r, value r)) l)
    = (its, stop)
    /\ SqliteKV.yield_loaded b (map value l) = (map snd its, stop)
    /\ map key l = map fst its ++ rest
    /\ (stop = None -> rest = [])
    /\ (b = false -> stop = None)
    /\ (forall k v, In (k, v) its ->
          exists r, In r l /\ key r = k /\ SqliteKV.load b (value r) = Ok v).
Proof.
  induction l as [|r l (its & stop & rest & Hi & Hv & Hk & Hs & Hb & Hin)].
  - exists [], None, []. cbn. repeat split; auto. intros ? ? [].
  - cbn. destruct (SqliteKV.load b (value r)) as [x|e] eqn:Hload.
    + rewrite Hi, Hv. exists ((key r, x) :: its), stop, rest. cbn.
      repeat split; auto.
      * now rewrite Hk.
      * intros k v [[= <- <-]|H].
        -- exists r. auto.
        -- destruct (Hin k v H) as (r' & ? & ? & ?). exists r'. auto.
    + exists [], (Some e), (key r :: map key l). cbn.
      repeat split; auto; try discriminate.
      * intros ->. cbn in Hload. discriminate.
      * intros ? ? [].
Qed.

Lemma unique_row_found rows r :
  one_row_per_key rows -> In r rows ->
  filter (row_matches (table_name r) (key r)) rows = [r].
Proof.
  induction rows as [|r' rows IH]; [intros _ []|].
  intros H [->|Hin].
  - cbn. assert (Hr : row_matches (table_name r) (key r) r = true)
      by now apply row_matches_key.
    rewrite Hr. now rewrite (unique_no_other_match _ _ _ _ H Hr).
  - unfold one_row_per_key in H. cbn in H.
    inversion H as [|? ? Hnot Hrest]; subst. cbn.
    destruct (row_matches (table_name r) (key r) r') eqn:Hr'.
    + apply row_matches_key in Hr'. exfalso. apply Hnot.
      rewrite Hr'. apply in_map_iff. now exists r.
    + now apply IH.
Qed.

(** X5. The three enumerations agree: [values()] yields the second
    components of what [items()] yields and stops as it stops; [keys()]
    yields the first components, and nothing more when [items()] ran to
    its end, which it always does when the store keeps texts;
    [__iter__] is [keys()].  With one row per key, every pair [(k, v)]
    that [items()] yields satisfies [self[k] == v]. *)
Theorem SqliteKV_items_keys_values {P : Primitives} {b : bool}
  (self : SqliteKV.t b) (w : World) :
  exists its stop rest,
    SqliteKV.items self w = (Ok (its, stop), w)
    /\ SqliteKV.values self w = (Ok (map snd its, stop), w)
    /\ SqliteKV.keys self w = (Ok (map fst its ++ rest, None), w)
    /\ SqliteKV.__iter__ self w = SqliteKV.keys self w
    /\ (stop = None -> rest = [])
    /\ (b = false -> stop = None)
    /\ (one_row_per_key (tkv w) ->
        forall k v, In (k, v) its ->
                    SqliteKV.__getitem__ self k w = (Ok v, w)).
Proof.
  destruct (yield_loaded_agree b (filter (row_in_table (table self)) (tkv w)))
    as (its & stop & rest & Hi & Hv & Hk & Hs & Hb & Hin).
  exists its, stop, rest. unfold SqliteKV.__iter__.
  rewrite SqliteKV_items_run, SqliteKV_values_run, SqliteKV_keys_run.
  unfold select_items, select_values, select_keys.
  rewrite Hi, Hv, Hk.
  split; [reflexivity|]. split; [reflexivity|]. split; [reflexivity|].
  split; [reflexivity|]. split; [exact Hs|]. split; [exact Hb|].
  intros Hu k v Hkv. destruct (Hin k v Hkv) as (r & Hr & <- & Hload).
  apply filter_In in Hr as [Hr Ht].
  rewrite SqliteKV_getitem_run. unfold select_value.
  unfold row_in_table in Ht. apply String.eqb_eq in Ht. rewrite <- Ht.
  rewrite (unique_row_found _ _ Hu Hr). cbn. now rewrite Hload.
Qed.

(** *** A row that is not JSON *)

Lemma yield_loaded_stops {P : Primitives} (l : list string) text :
  In text l -> json_loads text = None ->
  snd (SqliteKV.yield_loaded true l) = Some JSONDecodeError.
Proof.
  induction l as [|v l IH]; [intros []|]. intros Hin Hload. cbn.
  destruct (json_loads v) as [x|] eqn:Hv; [|reflexivity].
  destruct Hin as [->|Hin]; [congruence|].
  specialize (IH Hin Hload).
  destruct (SqliteKV.yield_loaded true l) as [xs stop]. exact IH.
Qed.

(** X6. A row whose text is not JSON, in a store with
    [serialize_values]: [self[item]] raises [JSONDecodeError], [get] does
    not turn this into the default (it only catches [KeyError]),
    [item in self] is still true, and [values()] ends with that
    exception. *)
Theorem SqliteKV_undecodable_row {P : Primitives}
  (self : SqliteKV.t true) (item text : string) (others : list string)
  (default : option json) (w : World) :
  select_value (table self) item (tkv w) = text :: others ->
  json_loads text = None ->
  SqliteKV.__getitem__ self item w = (Err JSONDecodeError, w)
  /\ SqliteKV.get self item default w = (Err JSONDecodeError, w)
  /\ SqliteKV.__contains__ self item w = (Ok true, w)
  /\ exists stop, fst (SqliteKV.values self w) = Ok stop
                  /\ snd stop = Some JSONDecodeError.
Proof.
  intros Hsel Hload. repeat split.
  - rewrite SqliteKV_getitem_run, Hsel. cbn. now rewrite Hload.
  - rewrite SqliteKV_get_run, Hsel. cbn. now rewrite Hload.
  - apply SqliteKV_contains_present. unfold select_key.
    unfold select_value in Hsel. destruct (filter _ _); discriminate.
  - rewrite SqliteKV_values_run. eexists. split; [reflexivity|].
    apply yield_loaded_stops with (text := text); [|exact Hload].
    unfold select_value in Hsel. unfold select_values.
    assert (Hin : In text (map value (filter (row_matches (table self) item)
                                        (tkv w))))
      by (rewrite Hsel; now left).
    apply in_map_iff in Hin as (r & <- & Hr). apply in_map.
    apply filter_In in Hr as [Hr Hm]. apply filter_In. split; [exact Hr|].
    rewrite row_matches_split in Hm. now apply andb_true_iff in Hm.
Qed.

(** ** What unlocking leaves alone *)

Lemma io_blind_stored : io_blind stored.
Proof. repeat split. Qed.

Lemma io_blind_params_ps : io_blind params_ps.
Proof. repeat split. Qed.

(** The three methods and the rest, as the [match] of
    [open_parameter_store] tells them apart. *)
Lemma method_cases {T} (a b c d : T) (method : json) :
  (method = JStr "password"
   /\ match method with
      | JStr "password" => a | JStr "yubikey" => b | JStr "keyring" => c
      | _ => d
      end = a)
  \/ (method = JStr "yubikey"
      /\ match method with
         | JStr "password" => a | JStr "yubikey" => b | JStr "keyring" => c
         | _ => d
         end = b)
  \/ (method = JStr "keyring"
      /\ match method with
         | JStr "password" => a | JStr "yubikey" => b | JStr "keyring" => c
         | _ => d
         end = c)
  \/ (method <> JStr "password" /\ method <> JStr "yubikey"
      /\ method <> JStr "keyring"
      /\ match method with
         | JStr "password" => a | JStr "yubikey" => b | JStr "keyring" => c
         | _ => d
         end = d).
Proof.
  destruct method as [| | |s| |];
    try (right; right; right; repeat split; discriminate).
  repeat match goal with
         | |- context [match ?x with _ => _ end] =>
             is_var x;
             destruct x;
             try solve [ right; right; right; repeat split;
                         first [discriminate | reflexivity] ]
         end.
  all: first [ left; split; reflexivity
             | right; left; split; reflexivity
             | right; right; left; split; reflexivity ].
Qed.

Lemma method_ind {T} (Q : T -> Prop) (a b c d : T) (method : json) :
  Q a -> Q b -> Q c -> Q d ->
  Q match method with
    | JStr "password" => a | JStr "yubikey" => b | JStr "keyring" => c
    | _ => d
    end.
Proof.
  intros Ha Hb Hc Hd.
  destruct (method_cases a b c d method)
    as [[_ ->]|[[_ ->]|[[_ ->]|(_ & _ & _ & ->)]]]; assumption.
Qed.

Lemma method_default {T} (a b c d : T) (method : json) :
  method <> JStr "password" -> method <> JStr "yubikey" ->
  method <> JStr "keyring" ->
  match method with
  | JStr "password" => a | JStr "yubikey" => b | JStr "keyring" => c
  | _ => d
  end = d.
Proof.
  intros H1 H2 H3.
  destruct (method_cases a b c d method)
    as [[E _]|[[E _]|[[E _]|(_ & _ & _ & E)]]]; try contradiction.
  exact E.
Qed.

Section Keeps.
Context {P : Primitives} {X : Type} (f : World -> X).
Hypothesis blind : io_blind f.

Lemma keeps_pure {A} (m : M A) : pure m -> keeps f m.
Proof. intros H w. now rewrite H. Qed.

Lemma keeps_bind {A B} (m : M A) (k : A -> M B) :
  keeps f m -> (forall a, keeps f (k a)) -> keeps f (bind m k).
Proof.
  intros Hm Hk w. unfold bind. specialize (Hm w).
  destruct (m w) as [[a|e] w1]; cbn [snd] in *.
  - now rewrite Hk.
  - exact Hm.
Qed.

Lemma keeps_emit ev : keeps f (emit ev).
Proof. intros w. apply blind. Qed.

Lemma keeps_getpass prompt : keeps f (getpass prompt).
Proof.
  apply keeps_bind; [apply keeps_emit|]. intros _ w.
  destruct (tty w); cbn [snd]; [reflexivity|apply blind].
Qed.

Lemma keeps_utils_random n : keeps f (utils_random n).
Proof.
  apply keeps_bind; [apply keeps_emit|]. intros _ w. apply blind.
Qed.

Lemma keeps_first_device : keeps f first_device.
Proof.
  apply keeps_bind.
  - apply keeps_bind; [apply keeps_emit|]. intros _ w. reflexivity.
  - intros found. apply keeps_pure, pure_orelse.
Qed.

Lemma keeps_keyring_get_password service username :
  keeps f (keyring_get_password service username).
Proof.
  apply keeps_bind; [apply keeps_emit|]. intros _ w.
  destruct (keyring_usable w); reflexivity.
Qed.

Lemma keeps_get_yubikey_decrypt_key device slot c salt ks ops mem :
  keeps f (get_yubikey_decrypt_key device slot c salt ks ops mem).
Proof.
  apply keeps_bind; [apply keeps_emit|]. intros _.
  apply keeps_pure. repeat pure_step.
Qed.

Lemma keeps_db_query {A} (q : list row -> A) : keeps f (db_query q).
Proof. intros w. reflexivity. Qed.

Lemma keeps_SqliteKV_init name b : keeps f (SqliteKV.__init__ name b).
Proof.
  apply keeps_bind; [apply keeps_emit|]. intros _.
  apply keeps_bind; [apply keeps_emit|]. intros _. apply keeps_pure, pure_ret.
Qed.

Lemma keeps_SqliteKV_getitem {b} (self : SqliteKV.t b) item :
  keeps f (SqliteKV.__getitem__ self item).
Proof. intros w. now rewrite SqliteKV_getitem_run. Qed.

Lemma keeps_SqliteKV_contains {b} (self : SqliteKV.t b) item :
  keeps f (SqliteKV.__contains__ self item).
Proof. intros w. now rewrite SqliteKV_contains_run. Qed.

Lemma keeps_SqliteKV_values {b} (self : SqliteKV.t b) :
  keeps f (SqliteKV.values self).
Proof. intros w. now rewrite SqliteKV_values_run. Qed.

Lemma keeps_get_config : keeps f get_config.
Proof. intros w. reflexivity. Qed.

Ltac keeps_step :=
  first [ apply keeps_SqliteKV_init | apply keeps_SqliteKV_getitem
        | apply keeps_SqliteKV_contains | apply keeps_SqliteKV_values
        | apply keeps_getpass | apply keeps_utils_random
        | apply keeps_first_device | apply keeps_keyring_get_password
        | apply keeps_get_yubikey_decrypt_key | apply keeps_get_config
        | apply keeps_emit
        | apply keeps_pure; solve [repeat pure_step]
        | apply keeps_bind
        | match goal with |- forall _, _ => intro end ].

Lemma keeps_get_keys_by_password password :
  keeps f (get_keys_by_password password).
Proof.
  unfold get_keys_by_password.
  apply keeps_bind; [keeps_step|intro].
  apply keeps_bind; [keeps_step|intro].
  apply keeps_bind; [keeps_step|intro].
  apply keeps_bind; [keeps_step|intro].
  apply keeps_bind; [keeps_step|intro].
  apply keeps_bind; [destruct password; keeps_step|intro].
  apply keeps_pure. repeat pure_step.
Qed.

Lemma keeps_get_keys_by_keyring : keeps f get_keys_by_keyring.
Proof.
  unfold get_keys_by_keyring.
  apply keeps_bind; [keeps_step|intro].
  apply keeps_bind; [keeps_step|intro].
  apply keeps_bind; [keeps_step|intro].
  apply keeps_bind; [keeps_step|intro].
  apply keeps_bind; [keeps_step|intros [s|]];
    apply keeps_pure; repeat pure_step.
Qed.

Lemma keeps_get_keys_by_yubikey : keeps f get_keys_by_yubikey.
Proof.
  unfold get_keys_by_yubikey.
  apply keeps_bind; [keeps_step|intro].
  apply keeps_bind; [keeps_step|intro].
  apply keeps_bind; [keeps_step|intro].
  apply keeps_bind; [keeps_step|intro].
  apply keeps_bind; [keeps_step|intro].
  apply keeps_bind; [keeps_step|intro].
  apply keeps_bind; [keeps_step|intro].
  apply keeps_bind; [keeps_step|intro].
  apply keeps_bind; [keeps_step|intro].
  apply keeps_bind; [keeps_step|intro].
  apply keeps_bind; [keeps_step|intro].
  apply keeps_bind; [keeps_step|intro].
  apply keeps_pure. repeat pure_step.
Qed.

Lemma keeps_ParameterStore_init nk vk name :
  keeps f (ParameterStore.__init__ nk vk name).
Proof.
  apply keeps_bind; [keeps_step|intro]. apply keeps_pure, pure_ret.
Qed.

Lemma open_parameter_store_body method :
  open_parameter_store method
  = (config_db <- SqliteKV.__init__ "config" true ;;
     method <- match method with
               | None => SqliteKV.__getitem__ config_db "default-open-method"
               | Some m => ret (JStr m)
               end ;;
     '(name_key, value_key) <- keys_by_method method ;;
     ParameterStore.__init__ name_key value_key "params").
Proof. reflexivity. Qed.

Lemma keeps_keys_by_method method : keeps f (keys_by_method method).
Proof.
  unfold keys_by_method. apply (method_ind (keeps f)).
  - apply keeps_bind; [apply keeps_get_config|intro].
    apply keeps_get_keys_by_password.
  - apply keeps_get_keys_by_yubikey.
  - apply keeps_get_keys_by_keyring.
  - apply keeps_pure, pure_raise.
Qed.

Lemma keeps_open_parameter_store method :
  keeps f (open_parameter_store method).
Proof.
  rewrite open_parameter_store_body.
  apply keeps_bind; [apply keeps_SqliteKV_init|intro].
  apply keeps_bind;
    [destruct method;
       [apply keeps_pure, pure_ret|apply (keeps_SqliteKV_getitem (b:=true))]
    |intro].
  apply keeps_bind; [apply keeps_keys_by_method|intros [nk vk]].
  apply keeps_ParameterStore_init.
Qed.

End Keeps.

(** X7. Obtaining the keys, by any method, and opening the store write
    nothing: whatever they return or raise, the rows of the database, the
    entries of the OS keyring, the configuration and the backend held by
    the interceptor are as before. *)
Theorem unlocking_writes_nothing {P : Primitives}
  (password method : option string) :
  keeps stored (get_keys_by_password password)
  /\ keeps stored get_keys_by_keyring
  /\ keeps stored get_keys_by_yubikey
  /\ keeps stored (open_parameter_store method)
  /\ keeps params_ps (get_keys_by_password password)
  /\ keeps params_ps get_keys_by_keyring
  /\ keeps params_ps get_keys_by_yubikey
  /\ keeps params_ps (open_parameter_store method).
Proof.
  repeat split;
    first [ apply keeps_get_keys_by_password
          | apply keeps_get_keys_by_keyring
          | apply keeps_get_keys_by_yubikey
          | apply keeps_open_parameter_store ];
    first [apply io_blind_stored | apply io_blind_params_ps].
Qed.

(** ** A store that was never initialized *)

Section Uninitialized.
Context {P : Primitives}.

Lemma get_keys_by_password_uninitialized password w :
  select_value "config" "password" (tkv w) = [] ->
  get_keys_by_password password w
  = (Err (KeyError "Key does not exist"), connected "config" w).
Proof.
  intros H. rewrite get_keys_by_password_body.
  rewrite (bind_Ok _ _ _ _ _ (SqliteKV_init_run "config" true w)).
  apply bind_Err. rewrite SqliteKV_getitem_run.
  change (tkv (connected "config" w)) with (tkv w). cbn [table].
  now rewrite H.
Qed.

End Uninitialized.

(** X8. In a process that has made the directory of the database (as
    [init] does before anything else, so also an [init] that then fails),
    on a database with no ["password"] record, unlocking by password,
    [register_keyring], [register_yubikey] and opening the store by
    password all raise [KeyError "Key does not exist"] as soon as the
    config table is read: nobody is prompted, no random byte is drawn
    and no key store is touched.  Opening by the default method raises
    the same when no default method is stored. *)
Theorem uninitialized_store_is_KeyError {P : Primitives}
  (password : option string) (slot : SLOT) (w : World) :
  directory_made w ->
  select_value "config" "password" (tkv w) = [] ->
  get_keys_by_password password w
  = (Err (KeyError "Key does not exist"), connected "config" w)
  /\ register_keyring w
     = (Err (KeyError "Key does not exist"), connected "config" w)
  /\ register_yubikey slot w
     = (Err (KeyError "Key does not exist"), connected "config" w)
  /\ open_parameter_store (Some "password") w
     = (Err (KeyError "Key does not exist"),
        connected "config" (connected "config" w))
  /\ (select_value "config" "default-open-method" (tkv w) = [] ->
      open_parameter_store None w
      = (Err (KeyError "Key does not exist"), connected "config" w))
  /\ tty (connected "config" w) = tty w
  /\ drawn (connected "config" w) = drawn w
  /\ trace (connected "config" w)
     = trace w ++ [EvConnect "config"; EvCommit].
Proof.
  intros _ H. split; [now apply get_keys_by_password_uninitialized|].
  split; [|split; [|split; [|split]]].
  - unfold register_keyring. apply bind_Err.
    now apply get_keys_by_password_uninitialized.
  - unfold register_yubikey. apply bind_Err.
    now apply get_keys_by_password_uninitialized.
  - rewrite open_parameter_store_body.
    rewrite (bind_Ok _ _ _ _ _ (SqliteKV_init_run "config" true w)).
    cbn [bind ret]. unfold keys_by_method. apply bind_Err.
    unfold bind at 1. cbn [get_config].
    now apply get_keys_by_password_uninitialized.
  - intros Hd. rewrite open_parameter_store_body.
    rewrite (bind_Ok _ _ _ _ _ (SqliteKV_init_run "config" true w)).
    apply bind_Err. rewrite SqliteKV_getitem_run.
    change (tkv (connected "config" w)) with (tkv w). cbn [table].
    now rewrite Hd.
  - repeat split. cbn. now rewrite <- app_assoc.
Qed.

(** ** Which YubiKey is asked *)

(** X9. [get_keys_by_yubikey] looks at the first device listed and at
    no other: with no device it raises [IndexError]; when the first one
    has no record it raises [KeyError], whatever else is attached; and
    two worlds with the same rows and the same first device unlock
    alike. *)
Theorem yubikey_unlock_asks_the_first_device {P : Primitives} (w : World) :
  (devices w = [] -> fst (get_keys_by_yubikey w) = Err IndexError)
  /\ (forall device others,
        devices w = device :: others ->
        select_value "config" (yubikey_key device) (tkv w) = [] ->
        fst (get_keys_by_yubikey w) = Err (KeyError "Key does not exist"))
  /\ (forall w2,
        tkv w2 = tkv w -> hd_error (devices w2) = hd_error (devices w) ->
        fst (get_keys_by_yubikey w2) = fst (get_keys_by_yubikey w)).
Proof.
  destruct (get_keys_by_yubikey_result w) as (w' & E & _).
  rewrite E. cbn [fst]. split; [|split].
  - intros ->. reflexivity.
  - intros device others -> H. unfold unlock_with_yubikey. now rewrite H.
  - intros w2 Ht Hd.
    destruct (get_keys_by_yubikey_result w2) as (w2' & E2 & _).
    rewrite E2. cbn [fst]. rewrite Ht.
    destruct (devices w2) as [|d2 o2], (devices w) as [|d o];
      try discriminate; [reflexivity|].
    injection Hd as ->. reflexivity.
Qed.

(** ** The method [open_parameter_store] opens with *)

Section Methods.
Context {P : Primitives}.

Lemma keys_by_method_unknown method w :
  method <> JStr "password" -> method <> JStr "yubikey" ->
  method <> JStr "keyring" ->
  keys_by_method method w
  = (Err (ValueError "invalid encryption security method"), w).
Proof.
  intros H1 H2 H3. unfold keys_by_method.
  now rewrite method_default.
Qed.

End Methods.

(** X10. A method other than ["password"], ["yubikey"] and ["keyring"],
    whether passed or read from the config table (where any JSON value
    can stand), makes [open_parameter_store] raise
    [ValueError "invalid encryption security method"] before any attempt
    to unlock. *)
Theorem open_with_an_unknown_method {P : Primitives} (w : World) :
  (forall m, m <> "password" -> m <> "yubikey" -> m <> "keyring" ->
     open_parameter_store (Some m) w
     = (Err (ValueError "invalid encryption security method"),
        connected "config" w))
  /\ (forall method,
        fst (SqliteKV.__getitem__ (b := true) {| table := "config" |}
               "default-open-method" w) = Ok method ->
        method <> JStr "password" -> method <> JStr "yubikey" ->
        method <> JStr "keyring" ->
        open_parameter_store None w
        = (Err (ValueError "invalid encryption security method"),
           connected "config" w)).
Proof.
  split.
  - intros m H1 H2 H3. rewrite open_parameter_store_body.
    rewrite (bind_Ok _ _ _ _ _ (SqliteKV_init_run "config" true w)).
    cbn [bind ret]. apply bind_Err. apply keys_by_method_unknown; congruence.
  - intros method Hm H1 H2 H3. rewrite open_parameter_store_body.
    rewrite (bind_Ok _ _ _ _ _ (SqliteKV_init_run "config" true w)).
    rewrite SqliteKV_getitem_run in Hm. cbn [fst table] in Hm.
    erewrite bind_Ok.
    2:{ rewrite SqliteKV_getitem_run.
        change (tkv (connected "config" w)) with (tkv w). cbn [table].
        rewrite Hm. reflexivity. }
    apply bind_Err. now apply keys_by_method_unknown.
Qed.

Section OpeningByPassword.
Context {P : Primitives}.

Lemma keys_by_password_run w pw nk vk :
  PARAMETER_DB_PASSWORD (config w) = Some pw ->
  unlock_with_password (select_value "config" "password" (tkv w)) pw
  = Ok (nk, vk) ->
  keys_by_method (JStr "password") (connected "config" w)
  = (Ok (nk, vk), connected "config" (connected "config" w)).
Proof.
  intros Hpw Hkeys. unfold keys_by_method. unfold bind at 1.
  cbn [get_config].
  change (config (connected "config" w)) with (config w). rewrite Hpw.
  rewrite get_keys_by_password_given.
  change (tkv (connected "config" w)) with (tkv w). now rewrite Hkeys.
Qed.

Lemma open_password_given w pw nk vk :
  PARAMETER_DB_PASSWORD (config w) = Some pw ->
  unlock_with_password (select_value "config" "password" (tkv w)) pw
  = Ok (nk, vk) ->
  open_parameter_store (Some "password") w
  = (Ok {| kv := {| table := "params" |};
           _name_key := nk; _value_key := vk |}, opened w).
Proof.
  intros Hpw Hkeys. rewrite open_parameter_store_body.
  rewrite (bind_Ok _ _ _ _ _ (SqliteKV_init_run "config" true w)).
  cbn [bind ret].
  rewrite (bind_Ok _ _ _ _ _ (keys_by_password_run w pw nk vk Hpw Hkeys)).
  apply ParameterStore_init_run.
Qed.

Lemma open_password_default w pw nk vk :
  PARAMETER_DB_PASSWORD (config w) = Some pw ->
  unlock_with_password (select_value "config" "password" (tkv w)) pw
  = Ok (nk, vk) ->
  fst (SqliteKV.__getitem__ (b := true) {| table := "config" |}
         "default-open-method" w) = Ok (JStr "password") ->
  open_parameter_store None w
  = (Ok {| kv := {| table := "params" |};
           _name_key := nk; _value_key := vk |}, opened w).
Proof.
  intros Hpw Hkeys Hm. rewrite open_parameter_store_body.
  rewrite (bind_Ok _ _ _ _ _ (SqliteKV_init_run "config" true w)).
  rewrite SqliteKV_getitem_run in Hm. cbn [fst table] in Hm.
  erewrite bind_Ok.
  2:{ rewrite SqliteKV_getitem_run.
      change (tkv (connected "config" w)) with (tkv w). cbn [table].
      rewrite Hm. reflexivity. }
  rewrite (bind_Ok _ _ _ _ _ (keys_by_password_run w pw nk vk Hpw Hkeys)).
  apply ParameterStore_init_run.
Qed.

End OpeningByPassword.

(** X11. With [config.PARAMETER_DB_PASSWORD] set to a password that
    unlocks the store, [open_parameter_store("password")], and
    [open_parameter_store()] when the default method is ["password"],
    return the store with the keys of that password without prompting:
    the terminal is left alone and the trace gains three database
    connections, nothing else. *)
Theorem open_with_the_configured_password {P : Primitives}
  (w : World) (pw : string) (nk vk : bytes) :
  PARAMETER_DB_PASSWORD (config w) = Some pw ->
  fst (get_keys_by_password (Some pw) w) = Ok (nk, vk) ->
  open_parameter_store (Some "password") w
  = (Ok {| kv := {| table := "params" |};
           _name_key := nk; _value_key := vk |}, opened w)
  /\ (fst (SqliteKV.__getitem__ (b := true) {| table := "config" |}
             "default-open-method" w) = Ok (JStr "password") ->
      open_parameter_store None w
      = (Ok {| kv := {| table := "params" |};
               _name_key := nk; _value_key := vk |}, opened w))
  /\ tty (opened w) = tty w
  /\ trace (opened w)
     = trace w ++ [EvConnect "config"; EvCommit; EvConnect "config";
                   EvCommit; EvConnect "params"; EvCommit].
Proof.
  intros Hpw Hkeys.
  rewrite get_keys_by_password_given in Hkeys. cbn [fst] in Hkeys.
  split; [|split; [|split]].
  - now apply open_password_given with (pw := pw).
  - intros Hm. now apply open_password_default with (pw := pw).
  - reflexivity.
  - cbn. now rewrite <- !app_assoc.
Qed.

(** ** Loading the backend of the interceptor *)

(** X12. The interceptor loads its backend once: after a use that
    loaded or found a backend, [_ps] holds it, a further use finds it
    without loading, and a lookup through the interceptor is the lookup
    of the local store itself: no new connection, no prompt. *)
Theorem interceptor_loads_once {P : Primitives}
  (w w' : World) (b : backend) :
  Params.loaded w = (Ok b, w') ->
  params_ps w' = Some b
  /\ Params.loaded w' = (Ok b, w')
  /\ (forall ps item,
        b = LocalStore ps ->
        Params.__getitem__ item w' = ParameterStore.__getitem__ ps item w'
        /\ trace (snd (Params.__getitem__ item w')) = trace w'
        /\ tty (snd (Params.__getitem__ item w')) = tty w').
Proof.
  intros H.
  assert (Hps : params_ps w' = Some b).
  { unfold Params.loaded, bind, Params.get_ps in H.
    destruct (params_ps w) as [b0|] eqn:Hw.
    - injection H as -> ->. exact Hw.
    - destruct (Params._load_store w) as [[[]|e] w1]; [|discriminate].
      destruct (params_ps w1) as [b1|] eqn:Hw1; cbn in H; [|discriminate].
      injection H as -> ->. exact Hw1. }
  assert (Hl : Params.loaded w' = (Ok b, w')).
  { unfold Params.loaded, bind, Params.get_ps. now rewrite Hps. }
  split; [exact Hps|]. split; [exact Hl|].
  intros ps item ->.
  assert (E : Params.__getitem__ item w'
              = ParameterStore.__getitem__ ps item w').
  { unfold Params.__getitem__. now rewrite (bind_Ok _ _ _ _ _ Hl). }
  split; [exact E|]. rewrite E, ParameterStore_getitem_run. split; reflexivity.
Qed.

(** X13. When loading the backend raises, the interceptor still has
    none, so the next use tries again; and the failed attempt wrote
    nothing. *)
Theorem failed_load_leaves_the_interceptor_locked {P : Primitives}
  (w w' : World) (e : exn) :
  params_ps w = None ->
  Params.loaded w = (Err e, w') ->
  params_ps w' = None
  /\ stored w' = stored w.
Proof.
  intros Hw H. unfold Params.loaded, bind at 1, Params.get_ps in H.
  rewrite Hw in H.
  unfold bind at 1 in H.
  destruct (Params._load_store w) as [[[]|e1] w1] eqn:Hload.
  - (* the load succeeded: then [_ps] is set *)
    exfalso. unfold Params._load_store, bind at 1 in Hload.
    cbn [get_config] in Hload.
    destruct (String.eqb (PARAMETER_DRIVER (config w)) "local").
    + unfold bind in Hload.
      destruct (open_parameter_store None w) as [[ps|e2] w2];
        [|discriminate].
      unfold Params.set_ps in Hload. injection Hload as <-.
      cbn in H. discriminate.
    + destruct (String.eqb (PARAMETER_DRIVER (config w)) "aws-ssm");
        [|discriminate].
      cbn in Hload. injection Hload as <-. cbn in H. discriminate.
  - injection H as <- <-.
    unfold Params._load_store, bind at 1 in Hload. cbn [get_config] in Hload.
    destruct (String.eqb (PARAMETER_DRIVER (config w)) "local").
    + unfold bind in Hload.
      pose proof (keeps_open_parameter_store params_ps io_blind_params_ps
                    None w) as Hp.
      pose proof (keeps_open_parameter_store stored io_blind_stored
                    None w) as Hs.
      destruct (open_parameter_store None w) as [[ps|e2] w2];
        [discriminate|].
      injection Hload as <- <-. cbn [snd] in Hp, Hs. split; congruence.
    + destruct (String.eqb (PARAMETER_DRIVER (config w)) "aws-ssm").
      * cbn in Hload. discriminate.
      * injection Hload as <- <-. split; [exact Hw|reflexivity].
Qed.

(** X14. With [config.PARAMETER_DRIVER] neither ["local"] nor
    ["aws-ssm"], every use of an interceptor without a backend raises
    [ValueError "config.PARAMETER_DRIVER is not a valid driver type"] and
    leaves the world as it was; the writes do so once the read-only flag
    is off (with the flag on they are refused before). *)
Theorem unknown_driver_is_ValueError {P : Primitives}
  (item value : json) (w : World) :
  params_ps w = None ->
  PARAMETER_DRIVER (config w) <> "local" ->
  PARAMETER_DRIVER (config w) <> "aws-ssm" ->
  let e := ValueError "config.PARAMETER_DRIVER is not a valid driver type" in
  Params.__getitem__ item w = (Err e, w)
  /\ Params.__contains__ item w = (Err e, w)
  /\ Params.keys w = (Err e, w)
  /\ Params.items w = (Err e, w)
  /\ Params.values w = (Err e, w)
  /\ (PARAMETER_READ_ONLY (config w) = false ->
      Params.__setitem__ item value w = (Err e, w)
      /\ Params.__delitem__ item w = (Err e, w)).
Proof.
  intros Hps H1 H2 e.
  assert (Hl : Params.loaded w = (Err e, w)).
  { unfold Params.loaded, bind at 1, Params.get_ps. rewrite Hps.
    apply bind_Err. unfold Params._load_store, bind at 1. cbn [get_config].
    apply String.eqb_neq in H1, H2. now rewrite H1, H2. }
  repeat split; try (apply bind_Err; exact Hl).
  - unfold Params.__setitem__, bind at 1. cbn [get_config]. rewrite H.
    apply bind_Err; exact Hl.
  - unfold Params.__delitem__, bind at 1. cbn [get_config]. rewrite H.
    apply bind_Err; exact Hl.
Qed.

(** ** What reading leaves alone *)

Section Reading.
Context {P : Primitives}.

Lemma keeps_for_each {X A B} (f : World -> X) (body : A -> M B) xs :
  (forall x, keeps f (body x)) -> keeps f (for_each body xs).
Proof.
  intros Hb. induction xs as [|x xs IH]; intros w; [reflexivity|].
  cbn. specialize (Hb x w). destruct (body x w) as [[y|e] w1]; cbn [snd] in *.
  - specialize (IH w1).
    destruct (for_each body xs w1) as [[[ys stop]|e] w2]; cbn [snd] in *;
      congruence.
  - exact Hb.
Qed.

Lemma keeps_generator {X B} (f : World -> X) (body : M (generated B)) :
  keeps f body -> keeps f (generator body).
Proof.
  intros H w. unfold generator. specialize (H w).
  destruct (body w) as [[g|e] w1]; exact H.
Qed.

Section Blind.
Context {X : Type} (f : World -> X).
Hypothesis blind : io_blind f.

Lemma keeps_for_in {A B} (source : generated A) (body : A -> M B) :
  (forall x, keeps f (body x)) -> keeps f (for_in source body).
Proof.
  intros Hb. apply keeps_bind; [now apply keeps_for_each|].
  intros [ys [e|]]; apply keeps_pure, pure_ret.
Qed.

Lemma keeps_ParameterStore_getitem self item :
  keeps f (ParameterStore.__getitem__ self item).
Proof. intros w. now rewrite ParameterStore_getitem_run. Qed.

Lemma keeps_ParameterStore_contains self item :
  keeps f (ParameterStore.__contains__ self item).
Proof.
  apply keeps_bind; [apply keeps_pure, pure_calc_key|intro].
  now apply keeps_SqliteKV_contains.
Qed.

Lemma keeps_ParameterStore_items self : keeps f (ParameterStore.items self).
Proof.
  apply keeps_generator.
  apply keeps_bind; [apply keeps_pure, pure_SecretBox_init|intro].
  apply keeps_bind; [now apply keeps_SqliteKV_values|intro].
  apply keeps_for_in. intro. apply keeps_pure.
  repeat first [apply pure_loads | apply pure_unpack_2 | pure_step].
Qed.

Lemma keeps_ParameterStore_keys self : keeps f (ParameterStore.keys self).
Proof.
  apply keeps_generator.
  apply keeps_bind; [apply keeps_ParameterStore_items|intro].
  apply keeps_for_in. intros [k v]. apply keeps_pure, pure_ret.
Qed.

Lemma keeps_ParameterStore_values self :
  keeps f (ParameterStore.values self).
Proof.
  apply keeps_generator.
  apply keeps_bind; [apply keeps_ParameterStore_items|intro].
  apply keeps_for_in. intros [k v]. apply keeps_pure, pure_ret.
Qed.

Lemma keeps_SSM_getitem self name :
  keeps f (SSMParameterStore.__getitem__ self name).
Proof.
  apply keeps_bind; [now apply keeps_emit|intro].
  apply keeps_bind; [intros w; reflexivity|intro found].
  apply keeps_pure. apply pure_bind; [apply pure_orelse|].
  intros [ty v]. destruct (String.eqb ty "StringList"); [apply pure_ret|].
  destruct (json_loads v); apply pure_ret.
Qed.

Lemma keeps_SSM_keys self : keeps f (SSMParameterStore.keys self).
Proof.
  apply keeps_bind; [now apply keeps_emit|intro]. intros w. reflexivity.
Qed.

End Blind.

Lemma keeps_loaded : keeps stored Params.loaded.
Proof.
  unfold Params.loaded. apply keeps_bind; [intros w; reflexivity|].
  intros [b|]; [apply keeps_pure, pure_ret|].
  apply keeps_bind.
  - unfold Params._load_store.
    apply keeps_bind; [intros w; reflexivity|intro cfg].
    destruct (String.eqb (PARAMETER_DRIVER cfg) "local").
    + apply keeps_bind;
        [apply keeps_open_parameter_store, io_blind_stored|intro].
      intros w. reflexivity.
    + destruct (String.eqb (PARAMETER_DRIVER cfg) "aws-ssm").
      * apply keeps_bind; [|intros ? w; reflexivity].
        intros w. reflexivity.
      * apply keeps_pure, pure_raise.
  - intros _. apply keeps_bind; [intros w; reflexivity|].
    intro. apply keeps_pure, pure_orelse.
Qed.

Lemma keeps_interceptor_getitem item : keeps stored (Params.__getitem__ item).
Proof.
  apply keeps_bind; [apply keeps_loaded|]. intros [ps|ps].
  - apply keeps_ParameterStore_getitem.
  - apply keeps_SSM_getitem; try apply io_blind_stored.
Qed.

Lemma keeps_interceptor_contains item : keeps stored (Params.__contains__ item).
Proof.
  apply keeps_bind; [apply keeps_loaded|]. intros [ps|ps].
  - apply keeps_ParameterStore_contains; try apply io_blind_stored.
  - apply keeps_pure, pure_raise.
Qed.

Lemma keeps_interceptor_keys : keeps stored Params.keys.
Proof.
  apply keeps_bind; [apply keeps_loaded|]. intros [ps|ps].
  - apply keeps_ParameterStore_keys; try apply io_blind_stored.
  - apply keeps_SSM_keys; try apply io_blind_stored.
Qed.

Lemma keeps_interceptor_items : keeps stored Params.items.
Proof.
  apply keeps_bind; [apply keeps_loaded|]. intros [ps|ps].
  - apply keeps_ParameterStore_items; try apply io_blind_stored.
  - apply keeps_pure, pure_raise.
Qed.

Lemma keeps_interceptor_values : keeps stored Params.values.
Proof.
  apply keeps_bind; [apply keeps_loaded|]. intros [ps|ps].
  - apply keeps_ParameterStore_values; try apply io_blind_stored.
  - apply keeps_pure, pure_raise.
Qed.

End Reading.

(** ** What a failed [init] or [register_yubikey] leaves behind *)

Section FailsKeeping.
Context {P : Primitives} {X : Type} (f : World -> X).
Hypothesis blind : io_blind f.

Lemma keeps_fails_keeping {A} (m : M A) : keeps f m -> fails_keeping f m.
Proof. intros H w e w' E. specialize (H w). now rewrite E in H. Qed.

Lemma fails_keeping_bind {A B} (m : M A) (k : A -> M B) :
  keeps f m -> (forall a, fails_keeping f (k a)) ->
  fails_keeping f (bind m k).
Proof.
  intros Hm Hk w e w'. unfold bind. specialize (Hm w).
  destruct (m w) as [[a|e1] w1]; cbn [snd] in *; intros E.
  - rewrite (Hk a w1 e w' E). exact Hm.
  - inversion E; subst. exact Hm.
Qed.

Lemma fails_keeping_never {A} (m : M A) :
  (forall w, exists a w', m w = (Ok a, w')) -> fails_keeping f m.
Proof. intros H w e w' E. destruct (H w) as (a & w1 & E1). congruence. Qed.

Lemma register_yubikey_fails_keeping slot :
  fails_keeping f (register_yubikey slot).
Proof.
  unfold register_yubikey.
  apply fails_keeping_bind; [now apply keeps_get_keys_by_password|].
  intros [name_key value_key].
  apply fails_keeping_bind; [now apply keeps_first_device|]. intros device.
  cbv zeta.
  do 2 (apply fails_keeping_bind; [now apply keeps_utils_random|]; intro).
  apply fails_keeping_bind; [now apply keeps_get_yubikey_decrypt_key|].
  intro key.
  do 2 (apply fails_keeping_bind; [now apply keeps_utils_random|]; intro).
  do 3 (apply fails_keeping_bind;
        [apply keeps_pure; solve [repeat pure_step]|]; intro).
  apply fails_keeping_never. intro w.
  rewrite (bind_Ok _ _ _ _ _ (SqliteKV_init_run _ _ _)).
  rewrite (bind_Ok _ _ _ _ _ (SqliteKV_setitem_run _ _ _ _)).
  rewrite (bind_Ok _ _ _ _ _ (SqliteKV_setitem_run _ _ _ _)).
  do 2 eexists. reflexivity.
Qed.

Lemma init_fails_keeping : fails_keeping f init.
Proof.
  unfold init.
  apply fails_keeping_bind; [now apply keeps_emit|]. intros _.
  apply fails_keeping_bind; [now apply keeps_SqliteKV_init|]. intros db.
  apply fails_keeping_bind; [now apply keeps_SqliteKV_contains|].
  intros [|]; [apply keeps_fails_keeping, keeps_pure, pure_raise|].
  do 2 (apply fails_keeping_bind; [now apply keeps_getpass|]; intro).
  match goal with |- fails_keeping f (if ?c then _ else _) => destruct c end;
    [apply keeps_fails_keeping, keeps_pure, pure_raise|].
  cbv zeta.
  apply fails_keeping_bind; [now apply keeps_utils_random|]; intro.
  do 2 (apply fails_keeping_bind;
        [apply keeps_pure; solve [repeat pure_step]|]; intro).
  do 4 (apply fails_keeping_bind; [now apply keeps_utils_random|]; intro).
  do 2 (apply fails_keeping_bind;
        [apply keeps_pure; solve [repeat pure_step]|]; intro).
  apply fails_keeping_never. intro w.
  rewrite (bind_Ok _ _ _ _ _ (SqliteKV_setitem_run _ _ _ _)).
  rewrite (bind_Ok _ _ _ _ _ (SqliteKV_setitem_run _ _ _ _)).
  do 2 eexists. reflexivity.
Qed.

End FailsKeeping.

(** X22. [init] and [register_yubikey] write only once nothing can fail
    any more: whenever one of them raises, for whatever reason, the rows
    of the database, the OS keyring, the configuration and the interceptor
    are as before.  ([register_keyring] does not have this property.) *)
Theorem init_and_register_yubikey_fail_clean {P : Primitives}
  (slot : SLOT) (w w' : World) (e : exn) :
  init w = (Err e, w') \/ register_yubikey slot w = (Err e, w') ->
  tkv w' = tkv w /\ keyring_items w' = keyring_items w
  /\ config w' = config w /\ params_ps w' = params_ps w.
Proof.
  intros H.
  assert (Hs : stored w' = stored w /\ params_ps w' = params_ps w).
  { destruct H as [H|H]; split;
      first [ eapply init_fails_keeping; [|exact H]
            | eapply register_yubikey_fails_keeping; [|exact H] ];
      first [apply io_blind_stored | apply io_blind_params_ps]. }
  destruct Hs as [Hs Hp]. unfold stored in Hs. injection Hs as H1 H2 H3 _.
  auto.
Qed.

(** ** The prefix of the SSM store *)

Lemma drop_slashes_head cs :
  match drop_slashes cs with
  | c :: _ => Ascii.eqb c "/" = false
  | [] => True
  end.
Proof.
  induction cs as [|c cs IH]; cbn; [exact I|].
  destruct (Ascii.eqb c "/") eqn:E; [exact IH|exact E].
Qed.

Lemma rstrip_slashes_chars s :
  rev (list_ascii_of_string (rstrip_slashes s))
  = drop_slashes (rev (list_ascii_of_string s)).
Proof.
  unfold rstrip_slashes.
  now rewrite list_ascii_of_string_of_list_ascii, rev_involutive.
Qed.

Lemma rstrip_slashes_stripped s : ends_with_slash (rstrip_slashes s) = false.
Proof.
  unfold ends_with_slash. rewrite rstrip_slashes_chars.
  pose proof (drop_slashes_head (rev (list_ascii_of_string s))) as H.
  destruct (drop_slashes _); [reflexivity|exact H].
Qed.

Lemma ends_with_slash_cons c s :
  s <> "" -> ends_with_slash (String c s) = ends_with_slash s.
Proof.
  intros Hs. unfold ends_with_slash. cbn.
  destruct s as [|c' s']; [congruence|]. cbn.
  destruct (rev (list_ascii_of_string s') ++ [c']) eqn:E.
  - now apply app_eq_nil in E as [_ E].
  - reflexivity.
Qed.

(** X16. The prefix of an [SSMParameterStore]: it starts with a slash;
    it does not end with one, unless it is the single slash that an
    empty or all-slashes setting becomes; it is ["/parci"] when
    [PARCI_PARAMETER_STORE_SSM_PREFIX] is not set, and a setting that
    already has that form is kept as it is. *)
Theorem SSM_prefix_is_normalized {P : Primitives}
  (w w' : World) (self : SSMParameterStore.t) :
  SSMParameterStore.__init__ w = (Ok self, w') ->
  String.prefix "/" (prefix self) = true
  /\ (prefix self = "/" \/ ends_with_slash (prefix self) = false)
  /\ (environ_get (environ w) "PARCI_PARAMETER_STORE_SSM_PREFIX" = None ->
      prefix self = "/parci")
  /\ (forall p, environ_get (environ w) "PARCI_PARAMETER_STORE_SSM_PREFIX"
                = Some p ->
                String.prefix "/" p = true -> ends_with_slash p = false ->
                prefix self = p).
Proof.
  unfold SSMParameterStore.__init__. cbn [bind emit ret].
  intros [= <- _]. cbn [prefix].
  set (p0 := match environ_get (environ w) "PARCI_PARAMETER_STORE_SSM_PREFIX"
             with Some p => p | None => "/parci" end).
  pose proof (rstrip_slashes_stripped p0) as Hr.
  split; [|split; [|split]].
  - destruct (String.prefix "/" (rstrip_slashes p0)) eqn:E; [exact E|].
    cbn. now destruct (rstrip_slashes p0).
  - destruct (String.prefix "/" (rstrip_slashes p0)) eqn:E; [now right|].
    destruct (rstrip_slashes p0) as [|c r] eqn:Er; [now left|right].
    change ("/" ++ String c r)%string with (String "/" (String c r)).
    rewrite ends_with_slash_cons; [exact Hr|discriminate].
  - subst p0. intros ->. reflexivity.
  - subst p0. intros p -> Hp He.
    assert (Hs : rstrip_slashes p = p).
    { unfold rstrip_slashes. unfold ends_with_slash in He.
      destruct (rev (list_ascii_of_string p)) as [|c l] eqn:El.
      - cbn. apply (f_equal (@rev ascii)) in El.
        rewrite rev_involutive in El. cbn in El.
        rewrite <- (string_of_list_ascii_of_string p), El. reflexivity.
      - cbn [drop_slashes]. rewrite He, <- El, rev_involutive.
        apply string_of_list_ascii_of_string. }
    rewrite Hs, Hp. reflexivity.
Qed.

(** ** The commands of [parci param] *)

Lemma cli_bind_Ok {A B} (m : CLI A) (k : A -> CLI B) c w a c' w' :
  m c w = (Ok a, c', w') -> cli_bind m k c w = k a c' w'.
Proof. intros H. unfold cli_bind. now rewrite H. Qed.

Lemma cli_bind_Err {A B} (m : CLI A) (k : A -> CLI B) c w e c' w' :
  m c w = (Err e, c', w') -> cli_bind m k c w = (Err e, c', w').
Proof. intros H. unfold cli_bind. now rewrite H. Qed.

Lemma lift_run {A} (m : M A) c w r w' :
  m w = (r, w') -> lift m c w = (r, c, w').
Proof. intros H. unfold lift. now rewrite H. Qed.

Section Commands.
Context {P : Primitives} {PS : PrimitivesSpec P}.

Lemma password_access_store w pw ps :
  password_access w pw ps ->
  ps = {| kv := {| table := "params" |};
          _name_key := _name_key ps; _value_key := _value_key ps |}.
Proof.
  intros (_ & _ & _ & _ & _ & Ht & _). destruct ps as [[t] nk vk].
  cbn in *. now subst.
Qed.

Lemma password_access_rows w w' pw ps :
  password_access w pw ps ->
  PARAMETER_DRIVER (config w') = "local" ->
  PARAMETER_DB_PASSWORD (config w') = Some pw ->
  params_ps w' = None ->
  (forall item, select_value "config" item (tkv w')
                = select_value "config" item (tkv w)) ->
  password_access w' pw ps.
Proof.
  intros (_ & _ & _ & Hm & Hk & Ht & Hn & Hv) Hd Hp Hps Hrows.
  repeat split; try assumption.
  - rewrite SqliteKV_getitem_run in *. cbn [fst table] in *.
    now rewrite Hrows.
  - rewrite get_keys_by_password_given in *. cbn [fst] in *.
    now rewrite Hrows.
Qed.

Lemma loaded_by_password w pw ps :
  password_access w pw ps ->
  Params.loaded w
  = (Ok (LocalStore ps), loaded_with (LocalStore ps) (opened w)).
Proof.
  intros H. pose proof (password_access_store _ _ _ H) as Eps.
  destruct H as (Hd & Hp & Hps & Hm & Hk & _).
  rewrite get_keys_by_password_given in Hk. cbn [fst] in Hk.
  pose proof (open_password_default w pw _ _ Hp Hk Hm) as Ho.
  rewrite <- Eps in Ho.
  unfold Params.loaded.
  unfold bind at 1. unfold Params.get_ps at 1.
  rewrite Hps.
  assert (Hl : Params._load_store w
               = (Ok tt, loaded_with (LocalStore ps) (opened w))).
  { unfold Params._load_store. unfold bind at 1.
    cbn [get_config]. rewrite Hd. cbn [String.eqb Ascii.eqb Bool.eqb].
    now rewrite (bind_Ok _ _ _ _ _ Ho). }
  rewrite (bind_Ok _ _ _ _ _ Hl). reflexivity.
Qed.

Lemma getitem_of_blob (self : ParameterStore.t) n v d nonce others w :
  len (_value_key self) = KEY_SIZE ->
  digest self n = Some d ->
  wf_json n = true -> wf_json v = true -> len nonce = NONCE_SIZE ->
  select_value (table (kv self)) d (tkv w) = blob self n v nonce :: others ->
  ParameterStore.__getitem__ self n w = (Ok v, w).
Proof.
  intros Hv Hd Hwn Hwv Hnonce Hsel.
  unfold ParameterStore.__getitem__.
  rewrite (bind_Ok _ _ _ _ _ (calc_key_digest self n d w Hd)).
  rewrite (bind_Ok _ _ _ _ _ (SecretBox_init _ w Hv)).
  erewrite bind_Ok by (rewrite SqliteKV_getitem_run, Hsel; reflexivity).
  unfold blob.
  rewrite (bind_Ok _ _ _ _ _ (decode_encode_bytes _ w)).
  erewrite bind_Ok by (apply SecretBox_decrypt_encrypt; assumption).
  erewrite bind_Ok by (apply loads_dumps; cbn; rewrite Hwn, Hwv; reflexivity).
  reflexivity.
Qed.

Lemma interceptor_getitem_run w pw ps n :
  password_access w pw ps ->
  Params.__getitem__ n w
  = (read_secret ps n (fun d => select_value "params" d (tkv w)),
     loaded_with (LocalStore ps) (opened w)).
Proof.
  intros H. unfold Params.__getitem__.
  rewrite (bind_Ok _ _ _ _ _ (loaded_by_password _ _ _ H)).
  rewrite ParameterStore_getitem_run.
  destruct H as (_ & _ & _ & _ & _ & -> & _). reflexivity.
Qed.

Lemma interceptor_setitem_run w pw ps n v d :
  password_access w pw ps ->
  PARAMETER_READ_ONLY (config w) = false ->
  digest ps n = Some d ->
  exists w',
    Params.__setitem__ n v w = (Ok tt, w')
    /\ tkv w'
       = insert_or_update "params" d
           (blob ps n v (random_bytes (urandom w) (drawn w) NONCE_SIZE))
           (tkv w)
    /\ config w' = config w.
Proof.
  intros H Hro Hd. unfold Params.__setitem__.
  unfold bind at 1. cbn [get_config]. rewrite Hro.
  rewrite (bind_Ok _ _ _ _ _ (loaded_by_password _ _ _ H)).
  destruct H as (_ & _ & _ & _ & _ & Ht & Hn & Hv).
  destruct (setitem_run ps Hv n v
              (loaded_with (LocalStore ps) (opened w)) d Hro Hd)
    as (w' & E & Hrows & Hc).
  exists w'. rewrite Ht in Hrows. repeat split; assumption.
Qed.

Lemma interceptor_delitem_run w pw ps n d :
  password_access w pw ps ->
  PARAMETER_READ_ONLY (config w) = false ->
  digest ps n = Some d ->
  exists w',
    Params.__delitem__ n w = (Ok tt, w')
    /\ tkv w' = delete_from "params" d (tkv w)
    /\ config w' = config w.
Proof.
  intros H Hro Hd. unfold Params.__delitem__.
  unfold bind at 1. cbn [get_config]. rewrite Hro.
  rewrite (bind_Ok _ _ _ _ _ (loaded_by_password _ _ _ H)).
  destruct H as (_ & _ & _ & _ & _ & Ht & Hn & Hv).
  destruct (delitem_run ps n
              (loaded_with (LocalStore ps) (opened w)) d Hro Hd)
    as (w' & E & Hrows & Hc).
  exists w'. rewrite Ht in Hrows. repeat split; assumption.
Qed.

Lemma password_access_writable w pw ps :
  password_access w pw ps ->
  password_access (snd (assign_PARAMETER_READ_ONLY false w)) pw ps.
Proof.
  intros H. apply (password_access_rows w); try (now apply H); reflexivity.
Qed.

End Commands.

Section CommandRuns.
Context {P : Primitives} {PS : PrimitivesSpec P}.

Lemma read_secret_of_blob (ps : ParameterStore.t) n v d nonce others rows :
  table (kv ps) = "params" ->
  len (_value_key ps) = KEY_SIZE ->
  digest ps n = Some d ->
  wf_json n = true -> wf_json v = true -> len nonce = NONCE_SIZE ->
  select_value "params" d rows = blob ps n v nonce :: others ->
  read_secret ps n (fun d => select_value "params" d rows) = Ok v.
Proof.
  intros Ht Hv Hd Hwn Hwv Hnonce Hsel.
  pose proof (getitem_of_blob ps n v d nonce others (set_tkv nowhere rows)
                Hv Hd Hwn Hwv Hnonce) as H.
  rewrite Ht in H. specialize (H Hsel).
  rewrite ParameterStore_getitem_run, Ht in H. now injection H.
Qed.

Lemma config_rows_after_insert d v rows item :
  select_value "config" item (insert_or_update "params" d v rows)
  = select_value "config" item rows.
Proof. now apply select_value_insert_other. Qed.

Lemma config_rows_after_delete d rows item :
  select_value "config" item (delete_from "params" d rows)
  = select_value "config" item rows.
Proof.
  unfold select_value. now rewrite filter_delete_other.
Qed.

Lemma set_param_run (args : Namespace) text secret pw ps c w d :
  password_access w pw ps ->
  args_value args = Some text -> text <> "-" ->
  (if args_json args
   then json_loads text = Some secret
   else secret = JStr text) ->
  digest ps (JStr (args_name args)) = Some d ->
  exists w1,
    param.set_param args c w = (Ok tt, c, w1)
    /\ tkv w1
       = insert_or_update "params" d
           (blob ps (JStr (args_name args)) secret
              (random_bytes (urandom w) (drawn w) NONCE_SIZE))
           (tkv w)
    /\ PARAMETER_READ_ONLY (config w1) = false.
Proof.
  intros H Hval Hdash Hsecret Hd.
  pose proof (password_access_writable _ _ _ H) as Ha.
  destruct (interceptor_setitem_run _ pw ps (JStr (args_name args)) secret d
              Ha eq_refl Hd) as (w1 & E & Hrows & Hc).
  exists w1. split; [|split; [exact Hrows|now rewrite Hc]].
  unfold param.set_param.
  rewrite (cli_bind_Ok _ _ _ _ _ _ _
             (lift_run (assign_PARAMETER_READ_ONLY false) c w _ _ eq_refl)).
  rewrite Hval. apply String.eqb_neq in Hdash. rewrite Hdash.
  unfold cli_bind at 1, cli_ret at 1.
  destruct (args_json args).
  - erewrite cli_bind_Ok
      by (apply lift_run; rewrite Hsecret; reflexivity).
    now apply lift_run.
  - unfold cli_bind at 1, cli_ret at 1. subst secret. now apply lift_run.
Qed.

Lemma get_param_run repr (args : Namespace) pw ps c w :
  password_access w pw ps ->
  param.get_param repr args c w
  = (match read_secret ps (JStr (args_name args))
             (fun d => select_value "params" d (tkv w)) with
     | Ok v => (Ok tt, printed [repr v] c)
     | Err e => (Err e, c)
     end, loaded_with (LocalStore ps) (opened w)).
Proof.
  intros H. unfold param.get_param, cli_bind.
  rewrite (lift_run _ c w _ _ (interceptor_getitem_run w pw ps _ H)).
  destruct (read_secret _ _ _); reflexivity.
Qed.

End CommandRuns.

(** X17. [parci param set NAME VALUE], in a process that opens the
    local store by the password of its configuration, switches the
    read-only flag off, prints nothing and stores the secret: the text
    itself, or with [--json] the JSON value it denotes.  [parci param get
    NAME] in a later process on the same database then prints the [repr]
    of that secret. *)
Theorem set_param_then_get_param {P : Primitives} {PS : PrimitivesSpec P}
  (repr : json -> string) (args : Namespace) (text pw : string)
  (secret : json) (ps : ParameterStore.t) (c : Console) (w : World) :
  password_access w pw ps ->
  args_value args = Some text -> text <> "-" ->
  (if args_json args
   then json_loads text = Some secret /\ wf_json secret = true
   else secret = JStr text) ->
  exists w1,
    param.set_param args c w = (Ok tt, c, w1)
    /\ PARAMETER_READ_ONLY (config w1) = false
    /\ forall c2 w2,
         tkv w2 = tkv w1 ->
         PARAMETER_DRIVER (config w2) = "local" ->
         PARAMETER_DB_PASSWORD (config w2) = Some pw ->
         params_ps w2 = None ->
         exists w3,
           param.get_param repr args c2 w2
           = (Ok tt, printed [repr secret] c2, w3)
           /\ tkv w3 = tkv w2.
Proof.
  intros H Hval Hdash Hsecret.
  assert (Hn : len (_name_key ps) = KEY_SIZE) by apply H.
  assert (Hv : len (_value_key ps) = KEY_SIZE) by apply H.
  assert (Ht : table (kv ps) = "params") by apply H.
  destruct (digest_defined ps Hn (JStr (args_name args))) as (d & Hd).
  assert (Hwf : wf_json secret = true).
  { destruct (args_json args); [apply Hsecret|now subst]. }
  destruct (set_param_run args text secret pw ps c w d H Hval Hdash)
    as (w1 & E & Hrows & Hro); [|exact Hd|].
  { destruct (args_json args); [apply Hsecret|exact Hsecret]. }
  exists w1. split; [exact E|]. split; [exact Hro|].
  intros c2 w2 Htkv Hdr Hpw Hps.
  assert (H2 : password_access w2 pw ps).
  { apply (password_access_rows w); try assumption.
    intros item. rewrite Htkv, Hrows. apply config_rows_after_insert. }
  eexists. rewrite (get_param_run repr args pw ps c2 w2 H2).
  destruct (select_value_insert_same "params" d
              (blob ps (JStr (args_name args)) secret
                 (random_bytes (urandom w) (drawn w) NONCE_SIZE)) (tkv w))
    as (others & Hsel).
  erewrite read_secret_of_blob; try eassumption; try reflexivity.
  - split; reflexivity.
  - apply len_random. discriminate.
  - rewrite Htkv, Hrows. exact Hsel.
Qed.

(** X18. With no value, or with [-] for the value, [set_param] takes
    the whole standard input as the value and leaves it empty; the hint
    goes to the standard error, and only when the input is a terminal.
    Apart from that it does what it does when handed that text. *)
Theorem set_param_reads_the_standard_input {P : Primitives}
  (args : Namespace) (c : Console) (w : World) :
  args_value args = None \/ args_value args = Some "-" ->
  stdin c <> "-" ->
  let given := {| args_name := args_name args;
                  args_value := Some (stdin c);
                  args_json := args_json args;
                  args_slot := args_slot args |} in
  let hint := "Tell me your secrets (type ^D when done)..." in
  let read := {| stdin_isatty := stdin_isatty c; stdin := "";
                 stdout := stdout c;
                 stderr := if stdin_isatty c then stderr c ++ [hint]
                           else stderr c |} in
  param.set_param args c w = param.set_param given read w.
Proof.
  intros Hval Hdash given hint read.
  unfold param.set_param.
  rewrite !(cli_bind_Ok _ _ _ _ _ _ _
              (lift_run (assign_PARAMETER_READ_ONLY false) _ w _ _ eq_refl)).
  cbn [args_value args_json args_name given].
  apply String.eqb_neq in Hdash. rewrite Hdash.
  assert (Hread : forall w0,
            param.read_secret_from_stdin c w0 = (Ok (stdin c), read, w0)).
  { intros w0. unfold param.read_secret_from_stdin, cli_bind, isatty.
    subst read. destruct c as [[|] i o e]; reflexivity. }
  unfold cli_bind at 1. unfold cli_bind at 3. unfold cli_ret at 2.
  destruct Hval as [-> | ->]; cbn [String.eqb Ascii.eqb Bool.eqb];
    now rewrite Hread.
Qed.

(** X19. [parci param set --json] with a text that is not JSON raises
    [JSONDecodeError] before the store is loaded: no row changes, nothing
    is opened or prompted for; only the read-only flag is already off. *)
Theorem set_param_rejects_invalid_json {P : Primitives}
  (args : Namespace) (text : string) (c : Console) (w : World) :
  args_value args = Some text -> text <> "-" ->
  args_json args = true -> json_loads text = None ->
  exists w',
    param.set_param args c w = (Err JSONDecodeError, c, w')
    /\ tkv w' = tkv w /\ params_ps w' = params_ps w /\ trace w' = trace w
    /\ PARAMETER_READ_ONLY (config w') = false.
Proof.
  intros Hval Hdash Hjson Hloads. eexists. split.
  - unfold param.set_param.
    rewrite (cli_bind_Ok _ _ _ _ _ _ _
               (lift_run (assign_PARAMETER_READ_ONLY false) c w _ _ eq_refl)).
    rewrite Hval, Hjson. apply String.eqb_neq in Hdash. rewrite Hdash.
    unfold cli_bind at 1, cli_ret at 1.
    apply cli_bind_Err. apply lift_run. rewrite Hloads. reflexivity.
  - repeat split.
Qed.

(** X20. [parci param rm NAME] succeeds whether or not the secret
    exists (if it does not, no row changes), and [parci param get NAME] in
    a later process raises [KeyError "Key does not exist"], printing
    nothing. *)
Theorem rm_param_then_get_param {P : Primitives} {PS : PrimitivesSpec P}
  (repr : json -> string) (args : Namespace) (pw : string)
  (ps : ParameterStore.t) (c : Console) (w : World) :
  password_access w pw ps ->
  exists w1,
    param.rm_param args c w = (Ok tt, c, w1)
    /\ (fst (ParameterStore.__contains__ ps (JStr (args_name args)) w)
        = Ok false -> tkv w1 = tkv w)
    /\ forall c2 w2,
         tkv w2 = tkv w1 ->
         PARAMETER_DRIVER (config w2) = "local" ->
         PARAMETER_DB_PASSWORD (config w2) = Some pw ->
         params_ps w2 = None ->
         exists w3,
           param.get_param repr args c2 w2
           = (Err (KeyError "Key does not exist"), c2, w3)
           /\ tkv w3 = tkv w2.
Proof.
  intros H.
  assert (Hn : len (_name_key ps) = KEY_SIZE) by apply H.
  assert (Hv : len (_value_key ps) = KEY_SIZE) by apply H.
  assert (Ht : table (kv ps) = "params") by apply H.
  destruct (digest_defined ps Hn (JStr (args_name args))) as (d & Hd).
  pose proof (password_access_writable _ _ _ H) as Ha.
  destruct (interceptor_delitem_run _ pw ps (JStr (args_name args)) d
              Ha eq_refl Hd) as (w1 & E & Hrows & Hc).
  change (tkv (snd (assign_PARAMETER_READ_ONLY false w))) with (tkv w)
    in Hrows.
  exists w1. split; [|split].
  - unfold param.rm_param.
    rewrite (cli_bind_Ok _ _ _ _ _ _ _
               (lift_run (assign_PARAMETER_READ_ONLY false) c w _ _ eq_refl)).
    now apply lift_run.
  - unfold ParameterStore.__contains__.
    rewrite (bind_Ok _ _ _ _ _ (calc_key_digest ps _ d w Hd)).
    rewrite SqliteKV_contains_run, Ht. cbn [fst]. intros Hc0.
    rewrite Hrows. apply delete_from_absent.
    unfold select_key in Hc0.
    destruct (filter _ _); [reflexivity|discriminate].
  - intros c2 w2 Htkv Hdr Hpw Hps.
    assert (H2 : password_access w2 pw ps).
    { apply (password_access_rows w); try assumption.
      intros item. rewrite Htkv, Hrows. apply config_rows_after_delete. }
    eexists. rewrite (get_param_run repr args pw ps c2 w2 H2).
    assert (Hr : read_secret ps (JStr (args_name args))
                   (fun d => select_value "params" d (tkv w2))
                 = Err (KeyError "Key does not exist")).
    { pose proof (getitem_missing ps (JStr (args_name args)) d w2
                    (calc_key_digest ps _ d w2 Hd) Hv) as Hg.
      rewrite ParameterStore_getitem_run, Ht in Hg.
      assert (Hsel : select_value "params" d (tkv w2) = []).
      { rewrite Htkv, Hrows. unfold select_value.
        now rewrite filter_delete_same. }
      specialize (Hg Hsel). now injection Hg. }
    rewrite Hr. split; reflexivity.
Qed.

Lemma print_each_run (lines : list string) c w :
  param.print_each lines c w = (Ok tt, printed lines c, w).
Proof.
  revert c. induction lines as [|line lines IH]; intros c.
  - unfold printed. rewrite app_nil_r. now destruct c.
  - cbn. unfold cli_bind, print. rewrite IH. unfold printed. cbn.
    now rewrite <- app_assoc.
Qed.

(** X21. [parci param list] on a store that holds the secrets
    [secrets] prints one line for each of them and no other line, the
    [str] of its name, and changes no row.  (The order of the lines is
    the order in which the database enumerates its rows, which is left
    open here.) *)
Theorem list_params_prints_the_names {P : Primitives} {PS : PrimitivesSpec P}
  (args : Namespace) (pw : string) (ps : ParameterStore.t)
  (secrets : list (json * json)) (c : Console) (w : World) :
  password_access w pw ps ->
  Forall2 (holds ps) (filter (row_in_table "params") (tkv w)) secrets ->
  exists lines w',
    param.list_params args c w = (Ok tt, printed lines c, w')
    /\ Permutation lines (map (fun kv => py_str (fst kv)) secrets)
    /\ tkv w' = tkv w.
Proof.
  intros H Hheld.
  assert (Hv : len (_value_key ps) = KEY_SIZE) by apply H.
  assert (Ht : table (kv ps) = "params") by apply H.
  set (wb := loaded_with (LocalStore ps) (opened w)).
  assert (Hitems : ParameterStore.items ps wb = (Ok (secrets, None), wb)).
  { apply items_of_held; [exact Hv|]. now rewrite Ht. }
  destruct (keys_values_project ps wb) as (g & w' & Hi & Hk & _).
  rewrite Hitems in Hi. injection Hi as <- <-. cbn [fst snd] in Hk.
  exists (map (fun kv => py_str (fst kv)) secrets), wb.
  split; [|split; [apply Permutation_refl|reflexivity]].
  unfold param.list_params.
  erewrite cli_bind_Ok.
  2:{ apply lift_run. unfold Params.keys.
      rewrite (bind_Ok _ _ _ _ _ (loaded_by_password _ _ _ H)). exact Hk. }
  cbn [fst snd]. rewrite map_map.
  unfold cli_bind. now rewrite print_each_run.
Qed.

Lemma print_each_world (lines : list string) c w :
  snd (param.print_each lines c w) = w.
Proof.
  revert c. induction lines as [|line lines IH]; intros c; [reflexivity|].
  cbn. unfold cli_bind, print. apply IH.
Qed.

(** X15. Reading writes nothing: looking a secret up, testing for it and
    enumerating, on the local store or through the interceptor (which may
    load its backend to do so), and the commands [parci param get] and
    [parci param list], leave the rows of the database, the OS keyring,
    the configuration and the parameters held by AWS as they were,
    whatever they return or raise. *)
Theorem reading_writes_nothing {P : Primitives}
  (repr : json -> string) (self : ParameterStore.t) (item : json)
  (args : Namespace) (c : Console) :
  keeps stored (ParameterStore.__getitem__ self item)
  /\ keeps stored (ParameterStore.__contains__ self item)
  /\ keeps stored (ParameterStore.items self)
  /\ keeps stored (ParameterStore.keys self)
  /\ keeps stored (ParameterStore.values self)
  /\ keeps stored (Params.__getitem__ item)
  /\ keeps stored (Params.__contains__ item)
  /\ keeps stored Params.items
  /\ keeps stored Params.keys
  /\ keeps stored Params.values
  /\ (forall w, stored (snd (param.get_param repr args c w)) = stored w)
  /\ (forall w, stored (snd (param.list_params args c w)) = stored w).
Proof.
  pose proof io_blind_stored as Hb.
  split; [now apply keeps_ParameterStore_getitem|].
  split; [now apply keeps_ParameterStore_contains|].
  split; [now apply keeps_ParameterStore_items|].
  split; [now apply keeps_ParameterStore_keys|].
  split; [now apply keeps_ParameterStore_values|].
  split; [apply keeps_interceptor_getitem|].
  split; [apply keeps_interceptor_contains|].
  split; [apply keeps_interceptor_items|].
  split; [apply keeps_interceptor_keys|].
  split; [apply keeps_interceptor_values|].
  split; intros w.
  - unfold param.get_param, cli_bind, lift.
    pose proof (keeps_interceptor_getitem (JStr (args_name args)) w) as H.
    destruct (Params.__getitem__ _ w) as [[v|e] w1];
      exact H.
  - unfold param.list_params, cli_bind, lift.
    pose proof (keeps_interceptor_keys w) as H.
    destruct (Params.keys w) as [[[ks stop]|e] w1];
      [|exact H].
    cbn [fst snd] in *.
    pose proof (print_each_world (map py_str ks) c w1) as Hp.
    destruct (param.print_each (map py_str ks) c w1) as [[[[]|e] c1] w2];
      cbn [snd] in Hp; subst w2; [destruct stop|]; exact H.
Qed.

(** ** Lookups after any sequence of writes *)



Section Lookups.
Context {P : Primitives} {PS : PrimitivesSpec P}.
Variable self : ParameterStore.t.
Hypothesis value_key_size : len (_value_key self) = KEY_SIZE.


End Lookups.


(** ** Linking tasks *)

Module TaskFacts.
Import task.

Lemma set_add_again (x : nat) (s : list nat) :
  set_add x (set_add x s) = set_add x s.
Proof.
  induction s as [|y s IH]; cbn.
  - now rewrite Nat.eqb_refl.
  - destruct (Nat.eqb x y) eqn:E; cbn; rewrite E; [reflexivity|].
    now rewrite IH.
Qed.

Lemma update_update (r : nat) (f g : Task -> Task) (h : heap) :
  update r f (update r g h) = update r (fun t => f (g t)) h.
Proof.
  revert r. induction h as [|[t|] h IH]; intros [|r]; cbn; try reflexivity;
    now rewrite IH.
Qed.

Lemma update_swap (r r' : nat) (f g : Task -> Task) (h : heap) :
  r <> r' -> update r f (update r' g h) = update r' g (update r f h).
Proof.
  revert r r'. induction h as [|[t|] h IH]; intros [|r] [|r'] Hne; cbn;
    try reflexivity; try contradiction;
    (rewrite IH; [reflexivity|congruence]).
Qed.

Lemma update_ext (r : nat) (f g : Task -> Task) (h : heap) :
  (forall t, f t = g t) -> update r f h = update r g h.
Proof.
  intros E. revert r. induction h as [|[t|] h IH]; intros [|r]; cbn;
    try reflexivity; try (now rewrite E); now rewrite IH.
Qed.

Lemma is_task_update (r r' : nat) (f : Task -> Task) (h : heap) :
  is_task (update r f h) r' = is_task h r'.
Proof.
  unfold is_task. revert r r'.
  induction h as [|[t|] h IH]; intros [|r] [|r']; cbn; try reflexivity;
    apply IH.
Qed.

Lemma linked_children parent child h :
  update parent (children_add child) (linked parent child h)
  = linked parent child h.
Proof.
  unfold linked. destruct (Nat.eq_dec parent child) as [->|Hne].
  - rewrite !update_update. apply update_ext. intros t.
    unfold children_add, parents_add. cbn. now rewrite set_add_again.
  - rewrite (update_swap parent child) by exact Hne.
    rewrite update_update. f_equal. apply update_ext. intros t.
    unfold children_add. cbn. now rewrite set_add_again.
Qed.

Lemma linked_parents parent child h :
  update child (parents_add parent) (linked parent child h)
  = linked parent child h.
Proof.
  unfold linked. rewrite update_update. apply update_ext. intros t.
  unfold parents_add. cbn. now rewrite set_add_again.
Qed.

Lemma linked_either_way parent child h :
  update parent (children_add child) (update child (parents_add parent) h)
  = linked parent child h.
Proof.
  unfold linked. destruct (Nat.eq_dec parent child) as [->|Hne].
  - rewrite !update_update. now apply update_ext.
  - now apply update_swap.
Qed.

Lemma is_task_linked parent child h r :
  is_task (linked parent child h) r = is_task h r.
Proof. unfold linked. now rewrite !is_task_update. Qed.

(** Between two tasks the calls go on until the frames run out. *)
Lemma never_returns (limit : nat) : forall self other h,
  is_task h self = true -> is_task h other = true ->
  fst (add_child_task limit self other h) = RecursionError
  /\ fst (add_parent_task limit self other h) = RecursionError.
Proof.
  induction limit as [|limit IH]; intros self other h Hs Ho;
    [split; reflexivity|].
  split; cbn; rewrite Ho; cbn; apply IH; now rewrite is_task_update.
Qed.

(** Once the two tasks are linked, the calls change nothing any more. *)
Lemma linked_already (limit : nat) parent child h :
  is_task h parent = true -> is_task h child = true ->
  snd (add_child_task limit parent child (linked parent child h))
  = linked parent child h
  /\ snd (add_parent_task limit child parent (linked parent child h))
     = linked parent child h.
Proof.
  intros Hp Hc.
  induction limit as [|limit [IH1 IH2]]; [split; reflexivity|].
  split; cbn; rewrite is_task_linked.
  - rewrite Hc. cbn. rewrite linked_children. exact IH2.
  - rewrite Hp. cbn. rewrite linked_parents. exact IH1.
Qed.

End TaskFacts.

(** X24. [add_child_task] and [add_parent_task] call each other with no
    way out.  Between two tasks, [add_child_task], [add_parent_task],
    [<<] and [>>] never return, however many stack frames the interpreter
    grants: the call ends in [RecursionError].  By then (given two frames
    at least) the two tasks are linked, each in the other's set, and
    nothing else has changed.  With something that is not a task the
    call raises [ValueError] and changes nothing. *)
Theorem add_child_task_never_returns
  (limit self other : nat) (h : task.heap) :
  task.is_task h self = true ->
  (task.is_task h other = true ->
   fst (task.add_child_task limit self other h) = task.RecursionError
   /\ fst (task.add_parent_task limit self other h) = task.RecursionError
   /\ fst (task.__lshift__ limit self other h) = task.RecursionError
   /\ fst (task.__rshift__ limit self other h) = task.RecursionError
   /\ ((2 <= limit)%nat ->
       snd (task.add_child_task limit self other h)
       = task.linked self other h
       /\ snd (task.add_parent_task limit self other h)
          = task.linked other self h))
  /\ (task.is_task h other = false -> (1 <= limit)%nat ->
      task.add_child_task limit self other h
      = (task.ValueError "Child must be a Task object", h)
      /\ task.add_parent_task limit self other h
         = (task.ValueError "Parent must be a Task object", h)).
Proof.
  intros Hs. split.
  - intros Ho.
    split; [now apply TaskFacts.never_returns|].
    split; [now apply TaskFacts.never_returns|].
    split; [destruct limit; [reflexivity|now apply TaskFacts.never_returns]|].
    split; [destruct limit; [reflexivity|now apply TaskFacts.never_returns]|].
    intros Hl. destruct limit as [|[|limit]]; try lia.
    split; cbn; rewrite ?Ho, ?Hs; cbn;
      rewrite TaskFacts.is_task_update, ?Ho, ?Hs; cbn.
    + now apply (TaskFacts.linked_already limit self other h).
    + rewrite TaskFacts.linked_either_way.
      now apply (TaskFacts.linked_already limit other self h).
  - intros Ho Hl. destruct limit as [|limit]; [lia|].
    cbn. rewrite Ho. split; reflexivity.
Qed.

(** ** Finding the tasks of a run *)

Module FindTasks.
Import task utils.

Lemma mem_In x s : mem x s = true <-> In x s.
Proof.
  unfold mem. rewrite existsb_exists. split.
  - intros (y & Hy & E). apply Nat.eqb_eq in E. now subst.
  - intros H. exists x. split; [exact H|apply Nat.eqb_refl].
Qed.

Lemma set_add_In x c s : In x (set_add c s) <-> x = c \/ In x s.
Proof.
  induction s as [|y s IH]; cbn.
  - intuition congruence.
  - destruct (Nat.eqb c y) eqn:E; cbn.
    + apply Nat.eqb_eq in E. subst. intuition congruence.
    + rewrite IH. intuition congruence.
Qed.

Lemma set_add_NoDup c s : NoDup s -> NoDup (set_add c s).
Proof.
  induction s as [|y s IH]; cbn; intros H.
  - constructor; [intros []|constructor].
  - destruct (Nat.eqb c y) eqn:E; [exact H|].
    inversion H as [|? ? Hy Hs]; subst. constructor; [|now apply IH].
    rewrite set_add_In. intros [->|Hin]; [|contradiction].
    now rewrite Nat.eqb_refl in E.
Qed.

(** The tasks of the heap that the record set does not hold yet. *)
Definition unrecorded (h : heap) (s : list nat) : nat :=
  List.length (filter (fun r => negb (mem r s)) (seq 0 (List.length h))).

Lemma filter_length_mono (f g : nat -> bool) (l : list nat) :
  (forall x, g x = true -> f x = true) ->
  (List.length (filter g l) <= List.length (filter f l))%nat.
Proof.
  intros H. induction l as [|x l IH]; cbn; [lia|].
  destruct (g x) eqn:G.
  - rewrite (H x G). cbn. lia.
  - destruct (f x); cbn; lia.
Qed.

Lemma filter_length_less (f g : nat -> bool) (l : list nat) (c : nat) :
  (forall x, g x = true -> f x = true) ->
  In c l -> f c = true -> g c = false ->
  (List.length (filter g l) < List.length (filter f l))%nat.
Proof.
  intros H. induction l as [|x l IH]; cbn; [intros []|].
  intros [->|Hin] Hf Hg.
  - rewrite Hf, Hg. cbn.
    pose proof (filter_length_mono f g l H). lia.
  - specialize (IH Hin Hf Hg). destruct (g x) eqn:G.
    + rewrite (H x G). cbn. lia.
    + destruct (f x); cbn; lia.
Qed.

Lemma unrecorded_le h s s' :
  incl s s' -> (unrecorded h s' <= unrecorded h s)%nat.
Proof.
  intros H. apply filter_length_mono. intros x Hx.
  apply negb_true_iff in Hx. apply negb_true_iff.
  destruct (mem x s) eqn:E; [|reflexivity].
  apply mem_In, H, mem_In in E. congruence.
Qed.

Lemma is_task_bound h r : is_task h r = true -> (r < List.length h)%nat.
Proof.
  unfold is_task. intros H. apply nth_error_Some.
  destruct (nth_error h r); [discriminate|discriminate].
Qed.

Lemma unrecorded_lt h s c :
  is_task h c = true -> mem c s = false ->
  (unrecorded h (set_add c s) < unrecorded h s)%nat.
Proof.
  intros Ht Hm. apply (filter_length_less _ _ _ c).
  - intros x Hx. apply negb_true_iff in Hx. apply negb_true_iff.
    destruct (mem x s) eqn:E; [|reflexivity].
    apply mem_In in E.
    assert (In x (set_add c s)) by (apply set_add_In; now right).
    apply mem_In in H. congruence.
  - apply in_seq. pose proof (is_task_bound h c Ht). lia.
  - now rewrite Hm.
  - apply negb_false_iff, mem_In, set_add_In. now left.
Qed.

Lemma is_task_children h r :
  is_task h r = true -> exists cs, children h r = Some cs.
Proof.
  unfold is_task, children.
  destruct (nth_error h r) as [[t|]|]; try discriminate.
  intros _. now exists (_children t).
Qed.

(** What a search that started from [roots] with the record set [s] has
    made of it: nothing is lost, what was added can be reached from a
    root, and all the children of what was added are there. *)
Record searched (h : heap) (roots s s' : list nat) : Prop := {
  kept : incl s s';
  sound : forall r, In r s' ->
            In r s \/ exists a, In a roots /\ reachable h a r;
  closed : forall r cs c, In r s' -> ~ In r s ->
             children h r = Some cs -> In c cs -> In c s';
  nodup : NoDup s -> NoDup s'
}.

Lemma reachable_from_child h a cs c r :
  children h a = Some cs -> In c cs -> reachable h c r -> reachable h a r.
Proof.
  intros Ha Hc H. induction H as [|b cs' c' _ IH Hb Hc'].
  - eapply reach_child; [apply reach_here|exact Ha|exact Hc].
  - eapply reach_child; [exact IH|exact Hb|exact Hc'].
Qed.

Section Search.
Variable h : heap.
Hypothesis Hwf : children_are_tasks h.

(** The children of one task, with the searches of [limit] frames known
    to go well. *)
Lemma search_children (limit : nat)
  (IH : forall task s,
      is_task h task = true ->
      (unrecorded h (set_add task s) + 1 < limit)%nat ->
      exists s', find_tasks limit h [task] s = (Found, s')
                 /\ searched h [task] s s' /\ In task s') :
  forall cs s,
    (forall c, In c cs -> is_task h c = true) ->
    (unrecorded h s + 1 <= limit)%nat ->
    exists s',
      for_each cs
        (fun child recordset =>
           if mem child recordset then (Found, recordset)
           else find_tasks limit h [child] recordset) s = (Found, s')
      /\ searched h cs s s' /\ incl cs s'.
Proof.
  induction cs as [|c cs IHcs]; intros s Htasks Hm.
  - exists s. split; [reflexivity|]. split; [|intros x []].
    split; [apply incl_refl|now left|contradiction|trivial].
  - cbn [for_each]. destruct (mem c s) eqn:E.
    + destruct (IHcs s) as (s' & Hrun & Hs & Hin);
        [intros; apply Htasks; now right|exact Hm|].
      exists s'. split; [exact Hrun|]. split.
      * destruct Hs as [K S C N]. split; try assumption.
        intros r Hr. destruct (S r Hr) as [|(a & Ha & Hreach)];
          [now left|right]. exists a. split; [now right|exact Hreach].
      * intros x [<-|Hx]; [|now apply Hin].
        apply (kept _ _ _ _ Hs). now apply mem_In.
    + destruct (IH c s) as (s1 & Hrun1 & Hs1 & Hc1).
      { apply Htasks. now left. }
      { pose proof (unrecorded_lt h s c (Htasks c (or_introl eq_refl)) E).
        lia. }
      rewrite Hrun1.
      destruct (IHcs s1) as (s' & Hrun & Hs & Hin).
      { intros; apply Htasks; now right. }
      { pose proof (unrecorded_le h s s1 (kept _ _ _ _ Hs1)). lia. }
      exists s'. split; [exact Hrun|]. split.
      * destruct Hs1 as [K1 S1 C1 N1]. destruct Hs as [K S C N].
        split.
        -- intros x Hx. apply K, K1, Hx.
        -- intros r Hr. destruct (S r Hr) as [Hr1|(a & Ha & Hreach)].
           ++ destruct (S1 r Hr1) as [|(a & [<-|[]] & Hreach)];
                [now left|right].
              exists c. split; [now left|exact Hreach].
           ++ right. exists a. split; [now right|exact Hreach].
        -- intros r cs' c' Hr Hns Hch Hc'.
           destruct (in_dec Nat.eq_dec r s1) as [Hr1|Hr1].
           ++ apply K. now apply (C1 r cs' c').
           ++ now apply (C r cs' c').
        -- intros Hnd. apply N, N1, Hnd.
      * intros x [<-|Hx]; [|now apply Hin].
        apply (kept _ _ _ _ Hs), Hc1.
Qed.

(** The search from one task, given frames enough for the tasks not yet
    recorded. *)
Lemma search_task (limit : nat) : forall task s,
  is_task h task = true ->
  (unrecorded h (set_add task s) + 1 < limit)%nat ->
  exists s', find_tasks limit h [task] s = (Found, s')
             /\ searched h [task] s s' /\ In task s'.
Proof.
  induction limit as [|limit IH]; intros task s Ht Hm; [lia|].
  cbn [find_tasks for_each].
  destruct (is_task_children h task Ht) as (cs & Hcs). rewrite Hcs.
  destruct limit as [|limit']; [lia|]. set (limit := S limit') in *.
  destruct (search_children limit IH cs (set_add task s))
    as (s' & Hrun & Hs & Hin).
  - intros c Hc. now apply (Hwf task cs c).
  - lia.
  - rewrite Hrun. exists s'. split; [reflexivity|].
    destruct Hs as [K S C N].
    assert (Htask : In task s') by (apply K, set_add_In; now left).
    split; [|exact Htask]. split.
    + intros x Hx. apply K, set_add_In. now right.
    + intros r Hr. destruct (S r Hr) as [Hr1|(c & Hc & Hreach)].
      * apply set_add_In in Hr1 as [->|Hr1]; [right|now left].
        exists task. split; [now left|apply reach_here].
      * right. exists task. split; [now left|].
        now apply (reachable_from_child h task cs c r).
    + intros r cs' c' Hr Hns Hch Hc'.
      destruct (in_dec Nat.eq_dec r (set_add task s)) as [Hr1|Hr1].
      * apply set_add_In in Hr1 as [->|Hr1]; [|contradiction].
        rewrite Hcs in Hch. injection Hch as <-. now apply Hin.
      * now apply (C r cs' c').
    + intros Hnd. apply N, set_add_NoDup, Hnd.
Qed.

End Search.

Lemma unrecorded_bound h s : (unrecorded h s <= List.length h)%nat.
Proof.
  unfold unrecorded.
  pose proof (List.filter_length_le (fun r => negb (mem r s))
                (seq 0 (List.length h))) as H.
  now rewrite length_seq in H.
Qed.

End FindTasks.

(** X25. Where every child of a task is a task, and the interpreter
    grants more stack frames than the heap has objects,
    [find_tasks({start}, recordset)] on an empty record set returns and
    leaves in it the tasks that can be reached from [start] through
    children, [start] among them, each once and no other: cycles among
    the tasks do not keep it from returning. *)
Theorem find_tasks_finds_what_can_be_reached
  (limit : nat) (h : task.heap) (start : nat) :
  utils.children_are_tasks h ->
  task.is_task h start = true ->
  (List.length h < limit)%nat ->
  exists recordset,
    utils.find_tasks limit h [start] [] = (utils.Found, recordset)
    /\ NoDup recordset
    /\ forall r, In r recordset <-> utils.reachable h start r.
Proof.
  intros Hwf Hs Hl.
  destruct (FindTasks.search_task h Hwf limit start []) as (s & Hrun & H & Hin).
  - exact Hs.
  - pose proof (FindTasks.unrecorded_lt h [] start Hs eq_refl).
    pose proof (FindTasks.unrecorded_bound h []). lia.
  - exists s. split; [exact Hrun|]. destruct H as [K S C N].
    split; [apply N; constructor|]. intros r. split.
    + intros Hr. destruct (S r Hr) as [[]|(a & [<-|[]] & Hreach)].
      exact Hreach.
    + intros Hreach. induction Hreach as [|b cs c _ IH Hb Hc].
      * exact Hin.
      * apply (C b cs c); [exact IH|intros []|exact Hb|exact Hc].
Qed.

(** ** The tasks that are ready first *)

Module ReadyTasks.
Import task utils.

Section Fresh.
Variable h : heap.
Hypothesis Hlinks : linked_both_ways h.
Hypothesis Hfresh : nothing_has_run h.

Lemma all_ran_well_fresh c ps :
  parents h c = Some ps ->
  all_ran_well h ps = Some match ps with [] => true | _ => false end.
Proof.
  intros Hps. destruct ps as [|p ps]; [reflexivity|].
  cbn. unfold ran_well.
  pose proof (proj2 Hlinks c _ p Hps (or_introl eq_refl)) as Hp.
  unfold is_task in Hp.
  destruct (nth_error h p) as [[t|]|] eqn:E; try discriminate.
  now rewrite (Hfresh p t E).
Qed.

(** Among tasks of which only [start] may be without parents, the one
    that can be ready is [start]. *)
Lemma ready_loop_fresh (start : nat) (ps : list nat) :
  parents h start = Some ps ->
  forall l ready,
    (forall r, In r l -> is_task h r = true) ->
    (forall r, In r l -> r <> start -> parents h r <> Some []) ->
    ready_loop h l ready
    = Some (if mem start l && match ps with [] => true | _ => false end
            then set_add start ready else ready).
Proof.
  intros Hps. induction l as [|r l IH]; intros ready Ht Hp;
    [reflexivity|].
  cbn [ready_loop].
  pose proof (Ht r (or_introl eq_refl)) as Hr. unfold is_task in Hr.
  destruct (nth_error h r) as [[t|]|] eqn:E; try discriminate.
  rewrite (Hfresh r t E).
  assert (Hpr : parents h r = Some (_parents t))
    by (unfold parents; now rewrite E).
  rewrite (all_ran_well_fresh r _ Hpr).
  assert (Ht' : forall x, In x l -> is_task h x = true)
    by (intros; apply Ht; now right).
  assert (Hp' : forall x, In x l -> x <> start -> parents h x <> Some [])
    by (intros; apply Hp; [now right|assumption]).
  unfold mem. cbn [existsb]. fold (mem start l).
  destruct (Nat.eqb start r) eqn:Er.
  - apply Nat.eqb_eq in Er. subst r.
    rewrite Hps in Hpr. injection Hpr as ->.
    rewrite (IH _ Ht' Hp'), (IH _ Ht' Hp').
    destruct (_parents t); cbn [orb andb].
    + rewrite andb_true_r, TaskFacts.set_add_again.
      now destruct (mem start l).
    + now rewrite andb_false_r.
  - apply Nat.eqb_neq in Er.
    destruct (_parents t) eqn:Ep.
    + exfalso. apply (Hp r (or_introl eq_refl)); [congruence|].
      now rewrite Hpr.
    + cbn [orb]. now apply IH.
Qed.

End Fresh.

Lemma reached_by_a_parent h a r :
  utils.reachable h a r -> r = a \/
  exists p cs, children h p = Some cs /\ In r cs.
Proof.
  intros [|b cs c _ Hb Hc]; [now left|right]. now exists b, cs.
Qed.

End ReadyTasks.

(** X26. Before any task has run, with the links between tasks going
    both ways, the tasks that [ready_tasks] finds ready among those
    [find_tasks] recorded from [start] are [start] alone when it has no
    parent, and none when it has one: a run started at a task that has a
    parent has nothing to run. *)
Theorem first_ready_task_is_the_start
  (limit : nat) (h : task.heap) (start : nat) (ps : list nat) :
  utils.children_are_tasks h ->
  utils.linked_both_ways h ->
  utils.nothing_has_run h ->
  utils.parents h start = Some ps ->
  (List.length h < limit)%nat ->
  exists recordset,
    utils.find_tasks limit h [start] [] = (utils.Found, recordset)
    /\ utils.ready_tasks h recordset
       = Some match ps with [] => [start] | _ => [] end.
Proof.
  intros Hwf Hlinks Hfresh Hps Hl.
  assert (Hs : task.is_task h start = true).
  { unfold utils.parents in Hps. unfold task.is_task.
    now destruct (nth_error h start) as [[t|]|]. }
  destruct (FindTasks.search_task h Hwf limit start [])
    as (s & Hrun & [K S C N] & Hin).
  - exact Hs.
  - pose proof (FindTasks.unrecorded_lt h [] start Hs eq_refl).
    pose proof (FindTasks.unrecorded_bound h []). lia.
  - exists s. split; [exact Hrun|].
    assert (Hreach : forall r, In r s -> utils.reachable h start r).
    { intros r Hr. destruct (S r Hr) as [[]|(a & [<-|[]] & H)]. exact H. }
    assert (Htask : forall r, In r s -> task.is_task h r = true).
    { intros r Hr. destruct (ReadyTasks.reached_by_a_parent _ _ _ (Hreach r Hr))
        as [->|(p & cs & Hp & Hc)]; [exact Hs|]. now apply (Hwf p cs r). }
    unfold utils.ready_tasks.
    rewrite (ReadyTasks.ready_loop_fresh h Hlinks Hfresh start ps Hps s []).
    + rewrite (proj2 (FindTasks.mem_In start s) Hin).
      now destruct ps.
    + exact Htask.
    + intros r Hr Hne Hnone.
      destruct (ReadyTasks.reached_by_a_parent _ _ _ (Hreach r Hr))
        as [->|(p & cs & Hp & Hc)]; [contradiction|].
      exact (proj1 Hlinks p cs r [] Hp Hc Hnone).
Qed.

(** ** Checking a heap of tasks *)

Module TaskChecks.
Import task utils.

Lemma children_are_tasks_of (h : heap) :
  forallb (fun o => match o with
                    | TaskObject t => forallb (is_task h) (_children t)
                    | OtherObject => true
                    end) h = true ->
  children_are_tasks h.
Proof.
  intros H r cs c Hr Hc. unfold children in Hr.
  destruct (nth_error h r) as [[t|]|] eqn:E; try discriminate.
  injection Hr as <-.
  rewrite forallb_forall in H. specialize (H _ (nth_error_In _ _ E)).
  cbn in H. rewrite forallb_forall in H. now apply H.
Qed.

Lemma linked_both_ways_of (h : heap) :
  forallb (fun p =>
             match children h p with
             | Some cs =>
                 forallb (fun c => match parents h c with
                                   | Some ps => mem p ps
                                   | None => true
                                   end) cs
             | None => true
             end) (seq 0 (List.length h)) = true ->
  forallb (fun o => match o with
                    | TaskObject t => forallb (is_task h) (_parents t)
                    | OtherObject => true
                    end) h = true ->
  linked_both_ways h.
Proof.
  intros H1 H2. split.
  - intros p cs c ps Hp Hc Hps.
    rewrite forallb_forall in H1.
    assert (Hin : In p (seq 0 (List.length h))).
    { apply in_seq. split; [lia|]. cbn. apply nth_error_Some.
      unfold children in Hp. now destruct (nth_error h p). }
    specialize (H1 p Hin). rewrite Hp in H1.
    rewrite forallb_forall in H1. specialize (H1 c Hc).
    rewrite Hps in H1. now apply FindTasks.mem_In.
  - intros c ps p Hps Hp. unfold parents in Hps.
    destruct (nth_error h c) as [[t|]|] eqn:E; try discriminate.
    injection Hps as <-.
    rewrite forallb_forall in H2. specialize (H2 _ (nth_error_In _ _ E)).
    cbn in H2. rewrite forallb_forall in H2. now apply H2.
Qed.

Lemma nothing_has_run_of (h : heap) :
  forallb (fun o => match o with
                    | TaskObject t => negb (has_run t)
                    | OtherObject => true
                    end) h = true ->
  nothing_has_run h.
Proof.
  intros H r t E. rewrite forallb_forall in H.
  specialize (H _ (nth_error_In _ _ E)). now apply negb_true_iff in H.
Qed.

End TaskChecks.

(** * Concrete runs

    Each property above, run on the sample worlds with the reference
    implementation of the libraries. *)

Module Runs.
Import Sample.

#[local] Existing Instance Reference.primitives.
#[local] Existing Instance ReferenceFacts.meets_spec.



Lemma registering_a_method_run :
  tty (typing ["pw"] initialized) = ["pw"]
  /\ fst (get_keys_by_password (Some "pw")
            (typing ["pw"] initialized)) = Ok (name_key, value_key)
  /\ (exists w',
        register_keyring (typing ["pw"] initialized) = (Ok tt, w')
        /\ fst (get_keys_by_password (Some "pw") w')
           = Ok (name_key, value_key)
        /\ fst (get_keys_by_keyring w')
           = Ok (name_key, value_key))
  /\ (exists w',
        register_yubikey TWO (typing ["pw"] initialized)
        = (Ok tt, w')
        /\ fst (get_keys_by_password (Some "pw") w')
           = Ok (name_key, value_key)
        /\ fst (get_keys_by_yubikey w')
           = Ok (name_key, value_key)).
Proof.
  split; [reflexivity|]. split; [vm_compute; reflexivity|].
  destruct (registering_a_method_keeps_the_keys
              (typing ["pw"] initialized) "pw" [] name_key value_key)
    as [Hkeyring Hyubikey]; [reflexivity | vm_compute; reflexivity |].
  split.
  - destruct Hkeyring as (w' & Hrun & Hpw & Hnew & _); [reflexivity|].
    exists w'. split; [exact Hrun | split; [exact Hpw | exact Hnew]].
  - destruct (Hyubikey TWO token []) as (w' & Hrun & Hpw & Hnew & _);
      [reflexivity | discriminate |].
    exists w'. split; [exact Hrun | split; [exact Hpw | exact Hnew]].
Defined.

Lemma read_only_rejects_writes_run :
  PARAMETER_READ_ONLY (config initialized) = true
  /\ (forall environ, PARAMETER_READ_ONLY (config_py environ) = true)
  /\ ParameterStore.__setitem__ store (JStr "token")
       (JStr "abc123") initialized
     = (Err (KeyError "ParameterStore is read-only"), initialized)
  /\ ParameterStore.__delitem__ store (JStr "token") initialized
     = (Err (KeyError "ParameterStore is read-only"), initialized)
  /\ tkv (snd (ParameterStore.__setitem__ store (JStr "token")
                 (JStr "abc123") initialized)) = tkv initialized
  /\ tkv (snd (ParameterStore.__delitem__ store (JStr "token")
                 initialized)) = tkv initialized.
Proof.
  split; [reflexivity|].
  apply (read_only_rejects_writes store (JStr "token")
           (JStr "abc123") initialized).
  reflexivity.
Defined.

Lemma no_params_rows (d : string) :
  select_value "params" d (tkv initialized) = [].
Proof. vm_compute. reflexivity. Qed.

Lemma get_of_unset_name_run :
  len (_name_key store) = KEY_SIZE
  /\ len (_value_key store) = KEY_SIZE
  /\ ParameterStore.__getitem__ store (JStr "token") initialized
     = (Err (KeyError "Key does not exist"), initialized).
Proof.
  split; [reflexivity|]. split; [reflexivity|].
  apply (get_of_unset_name_is_KeyError store (JStr "token")
           initialized); [reflexivity | reflexivity |].
  intros d _. apply no_params_rows.
Defined.

Lemma failed_register_keyring_run :
  keyring_usable (without_keyring (typing ["pw"] initialized)) = false
  /\ exists w',
       register_keyring (without_keyring (typing ["pw"] initialized))
       = (Err KeyringError, w')
       /\ select_key "config" "keyring" (tkv w') <> []
       /\ tkv w' <> tkv (without_keyring (typing ["pw"] initialized)).
Proof.
  split; [reflexivity|].
  destruct (failed_register_keyring_leaves_a_record
              (without_keyring (typing ["pw"] initialized)) "pw" []
              name_key value_key)
    as (w' & Hrun & Hrecord & Hchanged & _);
    [ reflexivity | vm_compute; reflexivity | reflexivity | reflexivity
    | reflexivity | ].
  exists w'. split; [exact Hrun | split; [exact Hrecord | exact Hchanged]].
Defined.

Lemma init_run :
  (exists w',
     init (typing ["pw"; "pw"] initialized)
     = (Err (ValueError "Database already initialized"), w')
     /\ tkv w' = tkv (typing ["pw"; "pw"] initialized))
  /\ (exists w',
        init (typing ["pw"; "pW"] fresh)
        = (Err (ValueError "Passwords do not match"), w')
        /\ tkv w' = tkv (typing ["pw"; "pW"] fresh))
  /\ (exists w',
        init fresh = (Ok tt, w')
        /\ fst (get_keys_by_password (Some "pw") w')
           = Ok (name_key, value_key)
        /\ fst (SqliteKV.__getitem__ (b := true)
                  {| table := "config" |} "default-open-method" w')
           = Ok (JStr "password")).
Proof.
  split; [|split].
  - destruct (init_checks_then_writes
                (typing ["pw"; "pw"] initialized)) as [H _].
    destruct H as (w' & Hrun & Htkv & _); [vm_compute; discriminate|].
    exists w'. split; [exact Hrun | exact Htkv].
  - destruct (init_checks_then_writes
                (typing ["pw"; "pW"] fresh)) as (_ & H & _).
    destruct (H "pw" "pW" []) as (w' & Hrun & Htkv & _);
      [reflexivity | reflexivity | discriminate |].
    exists w'. split; [exact Hrun | exact Htkv].
  - destruct (init_checks_then_writes fresh) as (_ & _ & H).
    destruct (H "pw" []) as (w' & Hrun & _ & _ & _ & Hkeys & Hdefault);
      [reflexivity | reflexivity |].
    exists w'. split; [exact Hrun | split; [exact Hkeys | exact Hdefault]].
Defined.

Lemma nfkc_equivalent_passwords_run :
  NFKC fullwidth_pw = NFKC "pw"
  /\ fullwidth_pw <> "pw"
  /\ get_keys_by_password (Some fullwidth_pw) initialized
     = get_keys_by_password (Some "pw") initialized
  /\ fst (get_keys_by_password (Some fullwidth_pw) initialized)
     = Ok (name_key, value_key).
Proof.
  split; [reflexivity|]. split; [discriminate|].
  destruct (nfkc_equivalent_passwords_unlock_alike
              fullwidth_pw "pw") as (H & _); [reflexivity|].
  split; [apply H|]. rewrite H. vm_compute. reflexivity.
Defined.

Lemma told_apart_session : told_apart store (map op_name session).
Proof.
  intros a b Ha Hb. cbn in Ha, Hb.
  repeat match goal with
         | H : _ \/ _ |- _ => destruct H
         | H : False |- _ => destruct H
         end; subst; intros H; try reflexivity;
    vm_compute in H; discriminate.
Qed.


Lemma interceptor_rejects_run :
  PARAMETER_READ_ONLY (config initialized) = true
  /\ params_ps initialized = None
  /\ Params.__setitem__ (JStr "token")
       (JStr "abc123") initialized
     = (Err (ParameterStoreException
               "config.PARAMETER_READ_ONLY is set to true"), initialized)
  /\ Params.__delitem__ (JStr "token")
       initialized
     = (Err (ParameterStoreException
               "config.PARAMETER_READ_ONLY is set to true"), initialized).
Proof.
  split; [reflexivity|]. split; [reflexivity|].
  destruct (interceptor_rejects_before_loading (JStr "token")
              (JStr "abc123") initialized) as (Hs & Hd & _);
    [reflexivity|].
  split; [exact Hs | exact Hd].
Defined.

Lemma read_only_and_missing_run :
  PARAMETER_READ_ONLY (config initialized) = true
  /\ exists e_set e_del e_get,
       fst (ParameterStore.__setitem__ store (JStr "token")
              (JStr "abc123") initialized) = Err e_set
       /\ fst (ParameterStore.__delitem__ store (JStr "token")
                 initialized) = Err e_del
       /\ fst (ParameterStore.__getitem__ store (JStr "absent")
                 initialized) = Err e_get
       /\ type_of e_set = cKeyError
       /\ type_of e_del = cKeyError
       /\ type_of e_get = type_of e_set.
Proof.
  split; [reflexivity|].
  apply (read_only_and_missing_are_both_KeyError store
           (JStr "token") (JStr "abc123") (JStr "absent")
           initialized initialized);
    [reflexivity | reflexivity | reflexivity |].
  intros d _. apply no_params_rows.
Defined.

Lemma SqliteKV_set_then_get_run :
  exists w1,
    SqliteKV.__setitem__ (b := true) {| table := "config" |} "notes"
      (JArr [JInt 1; JStr "a"]) initialized
    = (Ok (json_dumps (JArr [JInt 1; JStr "a"])), w1)
    /\ SqliteKV.__getitem__ (b := true) {| table := "config" |} "notes" w1
       = (Ok (JArr [JInt 1; JStr "a"]), w1)
    /\ SqliteKV.__contains__ (b := true) {| table := "config" |} "notes" w1
       = (Ok true, w1)
    /\ SqliteKV.get (b := true) {| table := "config" |} "notes" None w1
       = (Ok (Some (JArr [JInt 1; JStr "a"])), w1).
Proof.
  apply (SqliteKV_set_then_get (b := true) {| table := "config" |} "notes"
           (JArr [JInt 1; JStr "a"]) None initialized).
  reflexivity.
Defined.

Lemma SqliteKV_writes_touch_one_key_run :
  fst (SqliteKV.__getitem__ (b := true) {| table := "config" |} "password"
         (snd (SqliteKV.__setitem__ (b := false) {| table := "params" |}
                 "password" "text" initialized)))
  = fst (SqliteKV.__getitem__ (b := true) {| table := "config" |} "password"
           initialized).
Proof.
  refine (proj1 (SqliteKV_writes_touch_one_key (b := false) (b' := true)
                   {| table := "params" |} {| table := "config" |}
                   "password" "password" "text" initialized _ _
                   (or_introl eq_refl))).
  left. discriminate.
Defined.

Lemma SqliteKV_keeps_one_row_per_key_run :
  one_row_per_key (tkv initialized)
  /\ one_row_per_key
       (tkv (snd (SqliteKV.__setitem__ (b := false) {| table := "params" |}
                    "k" "v" initialized)))
  /\ select_value "params" "k"
       (tkv (snd (SqliteKV.__setitem__ (b := false) {| table := "params" |}
                    "k" "v" initialized))) = ["v"].
Proof.
  assert (H : one_row_per_key (tkv initialized)).
  { unfold one_row_per_key.
    remember (map (fun r => (table_name r, key r)) (tkv initialized))
      as keys eqn:E.
    vm_compute in E. subst keys.
    repeat constructor; cbn; intuition discriminate. }
  split; [exact H|].
  destruct (SqliteKV_keeps_one_row_per_key (b := false)
              {| table := "params" |} "k" "v" initialized H)
    as (H1 & _ & H2 & _).
  split; [exact H1|exact H2].
Defined.

Lemma SqliteKV_undecodable_row_run :
  SqliteKV.__getitem__ (b := true) {| table := "config" |} "notes" edited
  = (Err JSONDecodeError, edited)
  /\ SqliteKV.get (b := true) {| table := "config" |} "notes"
       (Some JNull) edited
     = (Err JSONDecodeError, edited)
  /\ SqliteKV.__contains__ (b := true) {| table := "config" |} "notes"
       edited
     = (Ok true, edited).
Proof.
  destruct (SqliteKV_undecodable_row {| table := "config" |} "notes" "{" []
              (Some JNull) edited) as (H1 & H2 & H3 & _);
    [vm_compute; reflexivity..|].
  repeat split; assumption.
Defined.

Lemma uninitialized_store_run :
  fst (init (typing ["pw"; "pv"] fresh))
  = Err (ValueError "Passwords do not match")
  /\ get_keys_by_password None init_failed
     = (Err (KeyError "Key does not exist"), connected "config" init_failed)
  /\ register_keyring init_failed
     = (Err (KeyError "Key does not exist"), connected "config" init_failed)
  /\ register_yubikey TWO init_failed
     = (Err (KeyError "Key does not exist"), connected "config" init_failed)
  /\ tty (connected "config" init_failed) = ["pw"].
Proof.
  split; [vm_compute; reflexivity|].
  destruct (uninitialized_store_is_KeyError None TWO init_failed)
    as (H1 & H2 & H3 & _ & _ & H4 & _);
    [vm_compute; tauto | vm_compute; reflexivity|].
  repeat split; assumption.
Defined.

Lemma yubikey_unlock_run :
  devices initialized = [token]
  /\ fst (get_keys_by_yubikey initialized)
     = Err (KeyError "Key does not exist").
Proof.
  split; [vm_compute; reflexivity|].
  apply (proj1 (proj2 (yubikey_unlock_asks_the_first_device initialized))
           token []); vm_compute; reflexivity.
Defined.

Lemma open_with_an_unknown_method_run :
  open_parameter_store (Some "pin") initialized
  = (Err (ValueError "invalid encryption security method"),
     connected "config" initialized).
Proof.
  apply (proj1 (open_with_an_unknown_method initialized) "pin");
    discriminate.
Defined.

Lemma open_with_the_configured_password_run :
  open_parameter_store None configured = (Ok store, opened configured)
  /\ tty (opened configured) = tty configured.
Proof.
  destruct (open_with_the_configured_password configured "pw"
              name_key value_key)
    as (_ & H & Ht & _); [vm_compute; reflexivity..|].
  split; [|exact Ht]. apply H. vm_compute. reflexivity.
Defined.

Lemma interceptor_loads_once_run :
  params_ps configured = None
  /\ params_ps (snd (Params.loaded configured))
     = Some (LocalStore store)
  /\ Params.loaded
       (snd (Params.loaded configured))
     = (Ok (LocalStore store),
        snd (Params.loaded configured)).
Proof.
  split; [vm_compute; reflexivity|].
  destruct (interceptor_loads_once configured
              (snd (Params.loaded configured))
              (LocalStore store)) as (H1 & H2 & _).
  - vm_compute. reflexivity.
  - split; assumption.
Defined.

Lemma failed_load_run :
  params_ps (snd (Params.loaded fresh)) = None
  /\ stored (snd (Params.loaded fresh)) = stored fresh.
Proof.
  apply (failed_load_leaves_the_interceptor_locked fresh
           (snd (Params.loaded fresh))
           (KeyError "Key does not exist")).
  - vm_compute. reflexivity.
  - vm_compute. reflexivity.
Defined.

Lemma unknown_driver_run :
  Params.__getitem__ (JStr "token") misconfigured
  = (Err (ValueError "config.PARAMETER_DRIVER is not a valid driver type"),
     misconfigured)
  /\ Params.keys misconfigured
     = (Err (ValueError "config.PARAMETER_DRIVER is not a valid driver type"),
        misconfigured).
Proof.
  destruct (unknown_driver_is_ValueError (JStr "token") JNull misconfigured)
    as (H1 & _ & H2 & _);
    [vm_compute; reflexivity | vm_compute; discriminate..|].
  split; assumption.
Defined.

Lemma SSM_prefix_run :
  fst (SSMParameterStore.__init__ on_aws) = Ok {| prefix := "/parci/prod" |}
  /\ String.prefix "/" "/parci/prod" = true
  /\ ends_with_slash "/parci/prod" = false.
Proof.
  split; [vm_compute; reflexivity|].
  destruct (SSM_prefix_is_normalized on_aws
              (snd (SSMParameterStore.__init__ on_aws))
              {| prefix := "/parci/prod" |}) as (H1 & [H2|H2] & _).
  - vm_compute. reflexivity.
  - discriminate.
  - split; assumption.
Defined.

Lemma init_and_register_yubikey_fail_clean_run :
  fst (init initialized) = Err (ValueError "Database already initialized")
  /\ tkv (snd (init initialized)) = tkv initialized.
Proof.
  split; [vm_compute; reflexivity|].
  apply (init_and_register_yubikey_fail_clean TWO initialized
           (snd (init initialized))
           (ValueError "Database already initialized")).
  left. vm_compute. reflexivity.
Defined.

Lemma set_param_then_get_param_run :
  password_access configured "pw" store
  /\ exists w1,
       param.set_param token_given console configured
       = (Ok tt, console, w1)
       /\ PARAMETER_READ_ONLY (config w1) = false
       /\ exists w3,
            param.get_param Reference.repr token_given console (later w1)
            = (Ok tt, printed ["'abc123'"] console, w3).
Proof.
  assert (H : password_access configured "pw" store)
    by (repeat split; vm_compute; reflexivity).
  split; [exact H|].
  destruct (set_param_then_get_param Reference.repr token_given "abc123"
              "pw" (JStr "abc123") store console configured H)
    as (w1 & E & Hro & Hget);
    [reflexivity | discriminate | reflexivity |].
  exists w1. split; [exact E|]. split; [exact Hro|].
  destruct (Hget console (later w1)) as (w3 & E3 & _);
    [reflexivity | vm_compute; reflexivity..|].
  exists w3. exact E3.
Defined.

Lemma set_param_reads_the_standard_input_run :
  param.set_param token_piped console configured
  = param.set_param
      {| args_name := "token"; args_value := Some "s3cret";
         args_json := false; args_slot := TWO |}
      {| stdin_isatty := true; stdin := ""; stdout := [];
         stderr := ["Tell me your secrets (type ^D when done)..."] |}
      configured.
Proof.
  apply (set_param_reads_the_standard_input token_piped console configured).
  - left. reflexivity.
  - discriminate.
Defined.

Lemma set_param_rejects_invalid_json_run :
  exists w',
    param.set_param limits_broken console configured
    = (Err JSONDecodeError, console, w')
    /\ tkv w' = tkv configured /\ params_ps w' = params_ps configured
    /\ trace w' = trace configured
    /\ PARAMETER_READ_ONLY (config w') = false.
Proof.
  apply (set_param_rejects_invalid_json limits_broken "{" console
           configured).
  - reflexivity.
  - discriminate.
  - reflexivity.
  - vm_compute. reflexivity.
Defined.

Lemma rm_param_then_get_param_run :
  exists w1,
    param.rm_param token_given console configured = (Ok tt, console, w1)
    /\ exists w3,
         param.get_param Reference.repr token_given console (later w1)
         = (Err (KeyError "Key does not exist"), console, w3).
Proof.
  assert (H : password_access configured "pw" store)
    by (repeat split; vm_compute; reflexivity).
  destruct (rm_param_then_get_param Reference.repr token_given "pw" store
              console configured H) as (w1 & E & _ & Hget).
  exists w1. split; [exact E|].
  destruct (Hget console (later w1)) as (w3 & E3 & _);
    [reflexivity | vm_compute; reflexivity..|].
  exists w3. exact E3.
Defined.

Lemma list_params_run :
  exists w1 lines w',
    run_ops store session (writable configured) = (Ok tt, w1)
    /\ param.list_params token_given console (later w1)
       = (Ok tt, printed lines console, w')
    /\ Permutation lines ["a"; "c"].
Proof.
  destruct (run_ops_holds store ltac:(vm_compute; reflexivity)
              ltac:(vm_compute; reflexivity) session
              (writable configured) [] (map op_name session))
    as (w1 & E1 & Hheld).
  - reflexivity.
  - replace (filter (row_in_table (table (kv store)))
               (tkv (writable configured))) with (@nil row)
      by (vm_compute; reflexivity).
    constructor.
  - reflexivity.
  - exact told_apart_session.
  - intros x [].
  - apply incl_refl.
  - assert (Hw : w1 = snd (run_ops store session (writable configured)))
      by (rewrite E1; reflexivity).
    assert (H : password_access (later w1) "pw" store)
      by (rewrite Hw; repeat split; vm_compute; reflexivity).
    destruct (list_params_prints_the_names token_given "pw" store
                (secrets_after session) console (later w1) H Hheld)
      as (lines & w' & E & Hp & _).
    exists w1, lines, w'. split; [exact E1|]. split; [exact E|exact Hp].
Defined.


Lemma add_child_task_run :
  task.is_task task.sample 0 = true
  /\ task.is_task task.sample 1 = true
  /\ fst (task.add_child_task 1000 0 1 task.sample) = task.RecursionError
  /\ fst (task.__lshift__ 1000 0 1 task.sample) = task.RecursionError
  /\ map (fun o => match o with
                   | task.TaskObject t => (task._parents t, task._children t)
                   | task.OtherObject => ([], [])
                   end)
         (snd (task.add_child_task 1000 0 1 task.sample))
     = [([], [1%nat]); ([0%nat], []); ([], [])]
  /\ task.add_child_task 1000 0 2 task.sample
     = (task.ValueError "Child must be a Task object", task.sample).
Proof.
  destruct (add_child_task_never_returns 1000 0 1 task.sample eq_refl)
    as [H _].
  destruct (H eq_refl) as (H1 & _ & H3 & _ & H5).
  destruct (H5 ltac:(lia)) as [H6 _].
  destruct (add_child_task_never_returns 1000 0 2 task.sample eq_refl)
    as [_ H'].
  destruct (H' eq_refl ltac:(lia)) as [H7 _].
  split; [reflexivity|]. split; [reflexivity|].
  split; [exact H1|]. split; [exact H3|].
  split; [rewrite H6; reflexivity|exact H7].
Defined.

Lemma find_tasks_run :
  exists recordset,
    utils.find_tasks 1000 utils.ring [0%nat] [] = (utils.Found, recordset)
    /\ NoDup recordset
    /\ (forall r, In r recordset <-> utils.reachable utils.ring 0 r)
    /\ Permutation recordset [0%nat; 1%nat; 2%nat].
Proof.
  destruct (find_tasks_finds_what_can_be_reached 1000 utils.ring 0)
    as (s & Hrun & Hnd & Hs).
  - apply TaskChecks.children_are_tasks_of. reflexivity.
  - reflexivity.
  - cbn. lia.
  - exists s. split; [exact Hrun|]. split; [exact Hnd|].
    split; [exact Hs|].
    vm_compute in Hrun. injection Hrun as <-.
    apply Permutation_refl.
Defined.

Lemma first_ready_task_run :
  (exists recordset,
     utils.find_tasks 1000 utils.pipeline [0%nat] []
     = (utils.Found, recordset)
     /\ utils.ready_tasks utils.pipeline recordset = Some [0%nat])
  /\ (exists recordset,
        utils.find_tasks 1000 utils.pipeline [1%nat] []
        = (utils.Found, recordset)
        /\ utils.ready_tasks utils.pipeline recordset = Some []).
Proof.
  assert (H1 : utils.children_are_tasks utils.pipeline)
    by (apply TaskChecks.children_are_tasks_of; reflexivity).
  assert (H2 : utils.linked_both_ways utils.pipeline)
    by (apply TaskChecks.linked_both_ways_of; reflexivity).
  assert (H3 : utils.nothing_has_run utils.pipeline)
    by (apply TaskChecks.nothing_has_run_of; reflexivity).
  split.
  - apply (first_ready_task_is_the_start 1000 utils.pipeline 0 []
             H1 H2 H3); [reflexivity|cbn; lia].
  - apply (first_ready_task_is_the_start 1000 utils.pipeline 1 [0%nat]
             H1 H2 H3); [reflexivity|cbn; lia].
Defined.

End Runs.
